(** * Alpha Image Tools: instruction compiler and batch orchestration

    A shallow embedding of the prompt compiler of [services/geminiService]
    ([editImageWithGemini], [compressImageWithGemini]) and of the batch
    runs of [components/EditorView] ([handleGenerateEdits]) and
    [components/CompressorView] ([handleCompress] and its auto-start
    effect), followed by the properties established about them. *)

From Stdlib Require Import ZArith NArith String Ascii DecimalString Lia.
From Stdlib Require Import Sorting.Sorted.
From stdpp Require Import base tactics option list sets gmap.

Local Open Scope N_scope.

(** ** JavaScript values *)

Module JS.

(** A JavaScript string is a sequence of UTF-16 code units. *)
Definition jsstring := list N.

(** Source literals are ASCII; [lit] embeds them. *)
Definition lit (s : string) : jsstring :=
  map N_of_ascii (list_ascii_of_string s).

(** Line feed and the double quote, as they occur inside the source's
    template literals. *)
Definition nl : jsstring := [10].
Definition dq : jsstring := [34].

(** Concatenation of the pieces of a template literal. *)
Definition cat (pieces : list jsstring) : jsstring := concat pieces.

(** Numeric settings are the integers the views obtain from [parseInt]
    and [Number] on range and number inputs; a template literal prints
    them in decimal. *)
Definition number := Z.
Bind Scope Z_scope with number.

Definition showZ (z : number) : jsstring :=
  lit (NilZero.string_of_int (Z.to_int z)).

(** [undefined] or a string, for values such as [s.split(',')[1]]. *)
Definition showOpt (v : option jsstring) : jsstring :=
  match v with
  | Some s => s
  | None => lit "undefined"
  end.

(** ECMAScript [WhiteSpace] and [LineTerminator] code points: what
    [String.prototype.trim] strips. *)
Definition isWhiteSpace (c : N) : bool :=
  (c =? 9) || (c =? 10) || (c =? 11) || (c =? 12) || (c =? 13)
  || (c =? 32) || (c =? 160) || (c =? 5760)
  || ((8192 <=? c) && (c <=? 8202))
  || (c =? 8232) || (c =? 8233) || (c =? 8239) || (c =? 8287)
  || (c =? 12288) || (c =? 65279).

Fixpoint trimStart (s : jsstring) : jsstring :=
  match s with
  | [] => []
  | c :: s' => if isWhiteSpace c then trimStart s' else s
  end.

Definition trimEnd (s : jsstring) : jsstring := rev (trimStart (rev s)).

Definition trim (s : jsstring) : jsstring := trimEnd (trimStart s).

(** Truthiness of a string: every string but the empty one. *)
Definition truthy (s : jsstring) : bool :=
  match s with
  | [] => false
  | _ :: _ => true
  end.

(** Truthiness of [string | null]. *)
Definition truthyOpt (v : option jsstring) : bool :=
  match v with
  | Some s => truthy s
  | None => false
  end.

(** [a || b] on strings. *)
Definition orElse (a b : jsstring) : jsstring :=
  if truthy a then a else b.

(** [s.split(sep)] for a one-character separator: the pieces between
    occurrences of [sep], always at least one piece. *)
Fixpoint splitAux (sep : N) (cur : jsstring) (s : jsstring)
  : list jsstring :=
  match s with
  | [] => [rev cur]
  | c :: s' =>
      if c =? sep then rev cur :: splitAux sep [] s'
      else splitAux sep (c :: cur) s'
  end.

Definition split (sep : N) (s : jsstring) : list jsstring :=
  splitAux sep [] s.

Definition eqb (a b : jsstring) : bool := bool_decide (a = b).

(** Completion of an awaited promise, or of a call that may throw. *)
Inductive JsError :=
| Error (message : jsstring)
| TypeError (message : jsstring).

Definition message (e : JsError) : jsstring :=
  match e with
  | Error m => m
  | TypeError m => m
  end.

Inductive result (A : Type) :=
| Ok (a : A)
| Thrown (e : JsError).
Arguments Ok {A} a.
Arguments Thrown {A} e.

End JS.
Import JS.

(** ** services/geminiService *)

Module GeminiService.

(** *** The remote capability, at its boundary

    [ai.models.generateContent] receives the source image and one text
    prompt, and resolves to a response or rejects.  The response is
    read as [response.candidates[0].content.parts], each part carrying
    an optional [inlineData] blob.  Nothing of it is checked before it
    is read, and every field on the way may be missing: the array of
    candidates, the content of a candidate (as when the answer was
    blocked), the parts of a content, the data of a blob. *)

Record Request := {
  reqData : option jsstring;
  reqMimeType : jsstring;
  reqText : jsstring
}.

Record Blob := { data : option jsstring; mimeType : jsstring }.

Record Part := { text : option jsstring; inlineData : option Blob }.

Record Content := { parts : option (list Part) }.

Record Candidate := { content : option Content }.

Record Response := { candidates : option (list Candidate) }.

Definition Capability := Request -> result Response.

Inductive OutputFormat := ImagePng | ImageJpeg | ImageWebp.

Definition showFormat (f : OutputFormat) : jsstring :=
  match f with
  | ImagePng => lit "image/png"
  | ImageJpeg => lit "image/jpeg"
  | ImageWebp => lit "image/webp"
  end.

(** [response.candidates[0].content.parts], as the [for ... of] loop
    takes it: indexing a missing array, reading [.content] of the
    missing first element of an empty array, reading [.parts] of a
    missing content and iterating over missing parts are each a
    [TypeError] (the messages are the engine's). *)
Definition firstCandidateParts (response : Response)
  : result (list Part) :=
  match candidates response with
  | None => Thrown (TypeError (lit
      "Cannot read properties of undefined (reading '0')"))
  | Some [] => Thrown (TypeError (lit
      "Cannot read properties of undefined (reading 'content')"))
  | Some (c :: _) =>
      match content c with
      | None => Thrown (TypeError (lit
          "Cannot read properties of undefined (reading 'parts')"))
      | Some ct =>
          match parts ct with
          | None => Thrown (TypeError (lit
              "response.candidates[0].content.parts is not iterable"))
          | Some ps => Ok ps
          end
      end
  end.

(** The [for (const part of ...)] loop shared by the three service
    functions: the first part whose [inlineData] is present. *)
Fixpoint firstInlineData (ps : list Part) : option Blob :=
  match ps with
  | [] => None
  | part :: rest =>
      match inlineData part with
      | Some blob => Some blob
      | None => firstInlineData rest
      end
  end.

(** A part without inline data: what the loop steps over. *)
Definition noInline (p : Part) : Prop := inlineData p = None.

Definition dataUrl (mime : jsstring) (blob : Blob) : jsstring :=
  cat [lit "data:"; mime; lit ";base64,"; showOpt (data blob)].

Definition extractImage (mime : jsstring) (noImage : jsstring)
    (response : Response) : result jsstring :=
  match firstCandidateParts response with
  | Thrown e => Thrown e
  | Ok ps =>
      match firstInlineData ps with
      | Some blob => Ok (dataUrl mime blob)
      | None => Thrown (Error noImage)
      end
  end.

(** *** Visual compression *)

Definition getQualityDescription (q : number) : jsstring :=
  if (q <=? 20)%Z then lit "extremely aggressive visual compression, resulting in a very abstract image with minimal detail"
  else if (q <=? 40)%Z then lit "heavy visual compression, creating a stylized version with significantly reduced detail"
  else if (q <=? 60)%Z then lit "moderate visual compression, aiming for a balanced simplification of details and complexity"
  else if (q <=? 80)%Z then lit "light visual compression, with a subtle reduction in detail while retaining most of the original's character"
  else lit "very light visual compression, with minimal simplification, retaining almost all original details".

Definition getDetailLevelDescription (d : number) : jsstring :=
  if (d <=? 20)%Z then lit "minimal detail, focusing only on the main shapes and colors"
  else if (d <=? 40)%Z then lit "low detail, abstracting smaller elements"
  else if (d <=? 60)%Z then lit "moderate detail, retaining key textures and features"
  else if (d <=? 80)%Z then lit "high detail, keeping most of the fine elements intact"
  else lit "original detail, aiming to preserve all visual information".

Definition getResolutionDescription (resolution : jsstring) : jsstring :=
  if JS.eqb resolution (lit "original") then []
  else
    let pieces := split 120 resolution in
    let width := pieces !! 0%nat in
    let height := pieces !! 1%nat in
    cat [lit " Additionally, resize the image to fit within a ";
         showOpt width; lit "x"; showOpt height;
         lit " bounding box, maintaining the original aspect ratio. Do not stretch, distort, or crop the image; instead, scale it down proportionally to fit inside these dimensions. The final image's largest dimension should not exceed the corresponding dimension of the bounding box."].

Definition compressPrompt (quality detailLevel : number)
    (resolution : jsstring) : jsstring :=
  cat [lit "Visually compress this image. The goal is to achieve ";
       getQualityDescription quality;
       lit ". The desired level of detail is ";
       getDetailLevelDescription detailLevel; lit ".";
       getResolutionDescription resolution;
       lit " The output should be a visually simplified, stylized, or abstract version of the original. Do not add any new elements or change the core subject matter. Just reduce visual complexity based on these instructions."].

Definition noImageGenerated : jsstring := lit "No image was generated.".

Definition compressImageWithGemini (ai : Capability)
    (base64ImageData : option jsstring) (mimeType : jsstring)
    (outputFormat : OutputFormat) (quality detailLevel : number)
    (resolution : jsstring) : result jsstring :=
  let prompt := compressPrompt quality detailLevel resolution in
  match ai {| reqData := base64ImageData; reqMimeType := mimeType;
              reqText := prompt |} with
  | Thrown e => Thrown e
  | Ok response =>
      extractImage (showFormat outputFormat) noImageGenerated response
  end.

(** *** Edit settings, as the service receives them *)

Module ResizeConfig.
Record t := {
  enabled : bool;
  width : number;
  height : number;
  maintainAspectRatio : bool
}.
End ResizeConfig.

Module CropConfig.
Record t := {
  enabled : bool;
  x : number;
  y : number;
  width : number;
  height : number
}.
End CropConfig.

Module TextOverlayConfig.
Record t := {
  enabled : bool;
  content : jsstring;
  font : jsstring;
  size : number;
  color : jsstring;
  positionX : number;
  positionY : number
}.
End TextOverlayConfig.

Module Grayscale.
Record t := { enabled : bool; intensity : number }.
End Grayscale.

Module FilterConfig.
Record t := {
  grayscale : Grayscale.t;
  brightness : number;
  contrast : number
}.
End FilterConfig.

Inductive TransparencyMethod := Fill | Dither | Preserve.

Module TransparencyConfig.
Record t := { method : TransparencyMethod; fillColor : jsstring }.
End TransparencyConfig.

Inductive WatermarkPosition :=
| TopLeft | TopCenter | TopRight
| MiddleLeft | Center | MiddleRight
| BottomLeft | BottomCenter | BottomRight.

Module WatermarkConfig.
Record t := {
  enabled : bool;
  text : jsstring;
  opacity : number;
  scale : number;
  color : jsstring;
  position : WatermarkPosition
}.
End WatermarkConfig.

Definition positionDescriptions (p : WatermarkPosition) : jsstring :=
  match p with
  | TopLeft => lit "in the top-left corner"
  | TopCenter => lit "centered horizontally at the top"
  | TopRight => lit "in the top-right corner"
  | MiddleLeft => lit "centered vertically on the left edge"
  | Center => lit "in the absolute center"
  | MiddleRight => lit "centered vertically on the right edge"
  | BottomLeft => lit "in the bottom-left corner"
  | BottomCenter => lit "centered horizontally at the bottom"
  | BottomRight => lit "in the bottom-right corner"
  end.

(** *** The instruction sequence

    [editImageWithGemini] appends one block of text to [finalPrompt]
    per stage it decides to emit.  A [Stage] is such a block with its
    resolved parameters; [renderStage] is the text appended. *)

Inductive FilterInstruction :=
| GrayscaleFilter (intensity : number)
| BrightnessFilter (brightness : number)
| ContrastFilter (contrast : number).

Inductive TransparencyHandling :=
| FillWith (fillColor : jsstring)
| DitherToOpaque
| PreserveAlpha.

Inductive ResizeMode := FitWithinBox | ExactStretch.

Inductive Stage :=
| Rotation (angle : number)
| Crop (x y width height : number)
| Filters (instructions : list FilterInstruction)
| Transparency (handling : TransparencyHandling)
| Watermark (text color : jsstring) (scale opacity : number)
    (position : WatermarkPosition)
| Resize (mode : ResizeMode) (width height : number)
| TextOverlay (content color font : jsstring)
    (size positionX positionY : number)
| LossyEncoding (format : OutputFormat) (quality : number)
| LosslessEncoding (format : OutputFormat).

Inductive StageKind :=
| KRotation | KCrop | KFilters | KTransparency
| KWatermark | KResize | KTextOverlay | KEncoding.

Definition kindOf (s : Stage) : StageKind :=
  match s with
  | Rotation _ => KRotation
  | Crop _ _ _ _ => KCrop
  | Filters _ => KFilters
  | Transparency _ => KTransparency
  | Watermark _ _ _ _ _ => KWatermark
  | Resize _ _ _ => KResize
  | TextOverlay _ _ _ _ _ _ => KTextOverlay
  | LossyEncoding _ _ => KEncoding
  | LosslessEncoding _ => KEncoding
  end.

(** The order in which the source's conditionals follow one another. *)
Definition stageOrder : list StageKind :=
  [KRotation; KCrop; KFilters; KTransparency;
   KWatermark; KResize; KTextOverlay; KEncoding].

Definition stageRank (k : StageKind) : nat :=
  match k with
  | KRotation => 0 | KCrop => 1 | KFilters => 2 | KTransparency => 3
  | KWatermark => 4 | KResize => 5 | KTextOverlay => 6 | KEncoding => 7
  end.

Definition isGrayscale (i : FilterInstruction) : bool :=
  match i with
  | GrayscaleFilter _ => true
  | _ => false
  end.

(** Whether a stage carries a grayscale filter instruction. *)
Definition hasGrayscale (s : Stage) : bool :=
  match s with
  | Filters instructions => existsb isGrayscale instructions
  | _ => false
  end.

Definition renderFilter (i : FilterInstruction) : jsstring :=
  match i with
  | GrayscaleFilter intensity =>
      cat [lit "apply a grayscale filter with an intensity of ";
           showZ intensity;
           lit "%. A value of 100% results in a fully black and white image, while a lower value partially desaturates the image"]
  | BrightnessFilter brightness =>
      cat [lit "adjust the brightness to "; showZ brightness;
           lit "% of the original"]
  | ContrastFilter contrast =>
      cat [lit "adjust the contrast to "; showZ contrast;
           lit "% of the original"]
  end.

(** [pieces.join(sep)]. *)
Fixpoint join (sep : jsstring) (pieces : list jsstring) : jsstring :=
  match pieces with
  | [] => []
  | [p] => p
  | p :: rest => p ++ sep ++ join sep rest
  end.

Definition renderStage (s : Stage) : jsstring :=
  match s with
  | Rotation angle =>
      cat [nl; nl; lit "--- ROTATION INSTRUCTIONS ---"; nl;
           lit "First, rotate the image by "; showZ angle;
           lit " degrees clockwise. All subsequent instructions should apply to the rotated image."]
  | Crop x y width height =>
      cat [nl; nl; lit "--- CROP INSTRUCTIONS ---"; nl;
           lit "After any rotation, crop the image. The crop region is defined by the following percentages of the image dimensions:"; nl;
           lit "- Start X (from left): "; showZ x; lit "%"; nl;
           lit "- Start Y (from top): "; showZ y; lit "%"; nl;
           lit "- Crop Width: "; showZ width; lit "%"; nl;
           lit "- Crop Height: "; showZ height; lit "%"; nl;
           lit "All subsequent instructions should be applied to this newly cropped image area."]
  | Filters instructions =>
      cat [nl; nl; lit "--- FILTER INSTRUCTIONS ---"; nl;
           lit "After cropping, but before resizing or adding text, apply these adjustments: ";
           join (lit "; ") (map renderFilter instructions); lit "."]
  | Transparency (FillWith fillColor) =>
      cat [nl; nl; lit "--- TRANSPARENCY HANDLING ---"; nl;
           lit "If the original image contains transparent areas (alpha channel), fill these areas completely with the solid color ";
           fillColor;
           lit ". This background color should be applied before any other elements like text overlays."]
  | Transparency DitherToOpaque =>
      cat [nl; nl; lit "--- TRANSPARENCY HANDLING ---"; nl;
           lit "If the original image contains transparent areas, create a smooth, dithered transition to an opaque background. Avoid a solid color fill; instead, use a subtle pattern or blend to handle the transparency gracefully."]
  | Transparency PreserveAlpha =>
      cat [nl; nl; lit "--- TRANSPARENCY HANDLING ---"; nl;
           lit "Preserve any transparency (alpha channel) from the original image in the final output. The background must remain transparent."]
  | Watermark text color scale opacity position =>
      cat [nl; nl; lit "--- WATERMARK INSTRUCTIONS ---"; nl;
           lit "Add a text watermark with the following properties. This should be applied before resizing and before the main text overlay."; nl;
           lit "- CONTENT: "; dq; text; dq; nl;
           lit "- COLOR: Use the color "; color; lit "."; nl;
           lit "- FONT: Use a clean, sans-serif font."; nl;
           lit "- SIZE: The watermark's width should be approximately ";
           showZ scale; lit "% of the image's total width."; nl;
           lit "- OPACITY: The watermark should have an opacity of ";
           showZ opacity; lit "%."; nl;
           lit "- POSITION: Place the watermark ";
           positionDescriptions position;
           lit ". The watermark should be subtly blended and not obscure the main subject."]
  | Resize FitWithinBox width height =>
      cat [nl; nl; lit "--- RESIZE INSTRUCTIONS ---"; nl;
           lit "After all other edits, resize the resulting image to fit within a ";
           showZ width; lit "x"; showZ height;
           lit " bounding box. Maintain the aspect ratio of the edited image. Do not stretch, distort, or perform additional cropping to fit; instead, scale it down proportionally. The final image's largest dimension must not exceed the corresponding dimension of the bounding box."]
  | Resize ExactStretch width height =>
      cat [nl; nl; lit "--- RESIZE INSTRUCTIONS ---"; nl;
           lit "After all other edits, resize the resulting image to the exact dimensions of ";
           showZ width; lit "px width and "; showZ height;
           lit "px height. Stretch or squash the image as necessary to meet these exact dimensions."]
  | TextOverlay content color font size positionX positionY =>
      cat [nl; nl; lit "--- TEXT OVERLAY INSTRUCTIONS ---"; nl;
           lit "As the final step, after all other transformations, add text to the image with these exact properties:"; nl;
           lit "- CONTENT: "; dq; content; dq; nl;
           lit "- COLOR: Use the color "; color; lit "."; nl;
           lit "- FONT: Use a font that looks like "; font; lit "."; nl;
           lit "- SIZE: Make the font size proportional to "; showZ size;
           lit " on a 1024px image."; nl;
           lit "- POSITION: Center the text at "; showZ positionX;
           lit "% from the left and "; showZ positionY;
           lit "% from the top. Do not add any background or bounding box to the text."]
  | LossyEncoding format quality =>
      cat [nl; nl; lit "--- OUTPUT FORMAT ---"; nl;
           lit "Encode the final image as "; showFormat format;
           lit " with a quality setting of approximately ";
           showZ quality; lit "/100."]
  | LosslessEncoding format =>
      cat [nl; nl; lit "--- OUTPUT FORMAT ---"; nl;
           lit "Encode the final image as lossless "; showFormat format;
           lit "."]
  end.

(** The opening sentence, always first. *)
Definition promptHeader (userPrompt : jsstring) : jsstring :=
  cat [lit "Apply the following edits to the image. The user's primary request is: ";
       dq; userPrompt; dq; lit "."].

(** [filterInstructions], after its three conditional [push]es. *)
Definition filterInstructionsOf (filterConfig : FilterConfig.t)
  : list FilterInstruction :=
  let filterInstructions := [] in
  let filterInstructions :=
    if Grayscale.enabled (FilterConfig.grayscale filterConfig)
    then filterInstructions ++
         [GrayscaleFilter
            (Grayscale.intensity (FilterConfig.grayscale filterConfig))]
    else filterInstructions in
  let filterInstructions :=
    if negb (FilterConfig.brightness filterConfig =? 100)%Z
    then filterInstructions ++
         [BrightnessFilter (FilterConfig.brightness filterConfig)]
    else filterInstructions in
  let filterInstructions :=
    if negb (FilterConfig.contrast filterConfig =? 100)%Z
    then filterInstructions ++
         [ContrastFilter (FilterConfig.contrast filterConfig)]
    else filterInstructions in
  filterInstructions.

Definition transparencyOf (transparencyConfig : TransparencyConfig.t)
  : TransparencyHandling :=
  match TransparencyConfig.method transparencyConfig with
  | Fill => FillWith (TransparencyConfig.fillColor transparencyConfig)
  | Dither => DitherToOpaque
  | Preserve => PreserveAlpha
  end.

Definition encodingOf (outputFormat : OutputFormat)
    (outputQuality : number) : Stage :=
  match outputFormat with
  | ImageJpeg | ImageWebp => LossyEncoding outputFormat outputQuality
  | ImagePng => LosslessEncoding outputFormat
  end.

Section Compile.

Variables (userPrompt : jsstring) (outputFormat : OutputFormat)
  (outputQuality : number) (resizeConfig : ResizeConfig.t)
  (cropConfig : CropConfig.t) (rotationAngle : number)
  (textOverlayConfig : TextOverlayConfig.t)
  (filterConfig : FilterConfig.t)
  (transparencyConfig : TransparencyConfig.t)
  (watermarkConfig : WatermarkConfig.t).

(** The stages [editImageWithGemini] emits, in emission order: one
    conditional per [if] of the source, top to bottom. *)
Definition compile : list Stage :=
  let stages := [] in
  let stages :=
    if negb (rotationAngle =? 0)%Z
    then stages ++ [Rotation rotationAngle] else stages in
  let stages :=
    if CropConfig.enabled cropConfig
    then stages ++
         [Crop (CropConfig.x cropConfig) (CropConfig.y cropConfig)
            (CropConfig.width cropConfig) (CropConfig.height cropConfig)]
    else stages in
  let filterInstructions := filterInstructionsOf filterConfig in
  let stages :=
    if (0 <? length filterInstructions)%nat
    then stages ++ [Filters filterInstructions] else stages in
  let stages := stages ++ [Transparency (transparencyOf transparencyConfig)] in
  let stages :=
    if WatermarkConfig.enabled watermarkConfig
       && truthy (trim (WatermarkConfig.text watermarkConfig))
    then stages ++
         [Watermark (trim (WatermarkConfig.text watermarkConfig))
            (WatermarkConfig.color watermarkConfig)
            (WatermarkConfig.scale watermarkConfig)
            (WatermarkConfig.opacity watermarkConfig)
            (WatermarkConfig.position watermarkConfig)]
    else stages in
  let stages :=
    if ResizeConfig.enabled resizeConfig
    then
      if ResizeConfig.maintainAspectRatio resizeConfig
      then stages ++
           [Resize FitWithinBox (ResizeConfig.width resizeConfig)
              (ResizeConfig.height resizeConfig)]
      else stages ++
           [Resize ExactStretch (ResizeConfig.width resizeConfig)
              (ResizeConfig.height resizeConfig)]
    else stages in
  let stages :=
    if TextOverlayConfig.enabled textOverlayConfig
       && truthy (trim (TextOverlayConfig.content textOverlayConfig))
    then stages ++
         [TextOverlay (trim (TextOverlayConfig.content textOverlayConfig))
            (TextOverlayConfig.color textOverlayConfig)
            (TextOverlayConfig.font textOverlayConfig)
            (TextOverlayConfig.size textOverlayConfig)
            (TextOverlayConfig.positionX textOverlayConfig)
            (TextOverlayConfig.positionY textOverlayConfig)]
    else stages in
  stages ++ [encodingOf outputFormat outputQuality].

(** [finalPrompt] as the source builds it, by successive [+=]. *)
Definition finalPromptOf : jsstring :=
  let finalPrompt := promptHeader userPrompt in
  let finalPrompt :=
    if negb (rotationAngle =? 0)%Z
    then finalPrompt ++ renderStage (Rotation rotationAngle)
    else finalPrompt in
  let finalPrompt :=
    if CropConfig.enabled cropConfig
    then finalPrompt ++
         renderStage
           (Crop (CropConfig.x cropConfig) (CropConfig.y cropConfig)
              (CropConfig.width cropConfig) (CropConfig.height cropConfig))
    else finalPrompt in
  let filterInstructions := filterInstructionsOf filterConfig in
  let finalPrompt :=
    if (0 <? length filterInstructions)%nat
    then finalPrompt ++ renderStage (Filters filterInstructions)
    else finalPrompt in
  let finalPrompt :=
    match TransparencyConfig.method transparencyConfig with
    | Fill =>
        finalPrompt ++
        renderStage
          (Transparency
             (FillWith (TransparencyConfig.fillColor transparencyConfig)))
    | Dither => finalPrompt ++ renderStage (Transparency DitherToOpaque)
    | Preserve => finalPrompt ++ renderStage (Transparency PreserveAlpha)
    end in
  let finalPrompt :=
    if WatermarkConfig.enabled watermarkConfig
       && truthy (trim (WatermarkConfig.text watermarkConfig))
    then finalPrompt ++
         renderStage
           (Watermark (trim (WatermarkConfig.text watermarkConfig))
              (WatermarkConfig.color watermarkConfig)
              (WatermarkConfig.scale watermarkConfig)
              (WatermarkConfig.opacity watermarkConfig)
              (WatermarkConfig.position watermarkConfig))
    else finalPrompt in
  let finalPrompt :=
    if ResizeConfig.enabled resizeConfig
    then
      if ResizeConfig.maintainAspectRatio resizeConfig
      then finalPrompt ++
           renderStage
             (Resize FitWithinBox (ResizeConfig.width resizeConfig)
                (ResizeConfig.height resizeConfig))
      else finalPrompt ++
           renderStage
             (Resize ExactStretch (ResizeConfig.width resizeConfig)
                (ResizeConfig.height resizeConfig))
    else finalPrompt in
  let finalPrompt :=
    if TextOverlayConfig.enabled textOverlayConfig
       && truthy (trim (TextOverlayConfig.content textOverlayConfig))
    then finalPrompt ++
         renderStage
           (TextOverlay
              (trim (TextOverlayConfig.content textOverlayConfig))
              (TextOverlayConfig.color textOverlayConfig)
              (TextOverlayConfig.font textOverlayConfig)
              (TextOverlayConfig.size textOverlayConfig)
              (TextOverlayConfig.positionX textOverlayConfig)
              (TextOverlayConfig.positionY textOverlayConfig))
    else finalPrompt in
  match outputFormat with
  | ImageJpeg | ImageWebp =>
      finalPrompt ++
      renderStage (LossyEncoding outputFormat outputQuality)
  | ImagePng =>
      finalPrompt ++ renderStage (LosslessEncoding outputFormat)
  end.

(** The whole call: build the prompt, await the capability, take the
    first inline image of the response and label it with the
    requested format.  The settings come first here, the capability and
    the image last. *)
Definition editImageWithGemini (ai : Capability)
    (base64ImageData : option jsstring) (mimeType : jsstring)
  : result jsstring :=
  match ai {| reqData := base64ImageData; reqMimeType := mimeType;
              reqText := finalPromptOf |} with
  | Thrown e => Thrown e
  | Ok response =>
      extractImage (showFormat outputFormat) noImageGenerated response
  end.

End Compile.

(** A stage emitted under a condition. *)
Definition emitted (b : bool) (s : Stage) : list Stage :=
  if b then [s] else [].

Definition resizeStage (r : ResizeConfig.t) : Stage :=
  Resize (if ResizeConfig.maintainAspectRatio r
          then FitWithinBox else ExactStretch)
    (ResizeConfig.width r) (ResizeConfig.height r).

End GeminiService.

(** ** The state shared by the two batch views

    [EditorView] and [CompressorView] declare the same three pieces of
    component state, [images], [isProcessing] and [progress], and their
    run handlers update them through the same kinds of [setState] call.
    A call is recorded as an [Action]; [reduce] is what it does to the
    store it finds. *)

Module Batch.

Record Progress := { current : nat; total : nat }.

Record Store (I : Type) := {
  images : list I;
  isProcessing : bool;
  progress : Progress
}.
Arguments images {I} _.
Arguments isProcessing {I} _.
Arguments progress {I} _.

(** What the handlers read and write of an image record; each view
    supplies the object spreads of its own source. *)
Class WorkItem (I : Type) := {
  itemId : I -> jsstring;
  itemLoading : I -> bool;
  itemOutput : I -> option jsstring;
  itemError : I -> option jsstring;
  (** [{ ...img, isLoading: true, error: null, <output>: null }] *)
  startLoading : I -> I;
  (** [{ ...img, <output>: url, isLoading: false }] *)
  finishOutput : jsstring -> I -> I;
  (** [{ ...img, error: msg, isLoading: false }] *)
  finishError : jsstring -> I -> I
}.

Inductive ItemState := Idle | Processing | Succeeded | Failed.

Inductive Action :=
| SetIsProcessing (b : bool)
| SetProgress (p : Progress)
| SetProgressCurrent (c : nat)
| SetImagesLoading (which : jsstring -> bool)
| SetImageOutput (id url : jsstring)
| SetImageError (id msg : jsstring).

Definition isProgressCall (a : Action) : bool :=
  match a with
  | SetProgress _ | SetProgressCurrent _ => true
  | _ => false
  end.

Section Reduce.
Context {I : Type} `{WorkItem I}.

(** The callback given to [prev.map] by each [setImages] call. *)
Definition reduceImage (a : Action) (img : I) : I :=
  match a with
  | SetImagesLoading which =>
      if which (itemId img) then startLoading img else img
  | SetImageOutput id url =>
      if JS.eqb (itemId img) id then finishOutput url img else img
  | SetImageError id msg =>
      if JS.eqb (itemId img) id then finishError msg img else img
  | _ => img
  end.

Definition reduce (a : Action) (st : Store I) : Store I :=
  match a with
  | SetIsProcessing b =>
      {| images := images st; isProcessing := b;
         progress := progress st |}
  | SetProgress p =>
      {| images := images st; isProcessing := isProcessing st;
         progress := p |}
  | SetProgressCurrent c =>
      {| images := images st; isProcessing := isProcessing st;
         progress := {| current := c;
                        total := total (progress st) |} |}
  | SetImagesLoading _ | SetImageOutput _ _ | SetImageError _ _ =>
      {| images := map (reduceImage a) (images st);
         isProcessing := isProcessing st;
         progress := progress st |}
  end.

(** The store after a sequence of calls. *)
Definition runFrom (st : Store I) (acts : list Action) : Store I :=
  foldl (fun s a => reduce a s) st acts.

(** Every store published along the way, one per call. *)
Fixpoint trace (st : Store I) (acts : list Action) : list (Store I) :=
  match acts with
  | [] => []
  | a :: rest => reduce a st :: trace (reduce a st) rest
  end.

(** Lifecycle of a work item, read off its fields the way the
    views render them: the spinner while [isLoading], the error
    line when [error] is set, the result when the output is set. *)
Definition stateOf (img : I) : ItemState :=
  if itemLoading img then Processing
  else if truthyOpt (itemError img) then Failed
  else if truthyOpt (itemOutput img) then Succeeded
  else Idle.

(** Nothing attempted yet: not loading, no output, no error. *)
Definition fresh (img : I) : bool :=
  negb (itemLoading img) && negb (truthyOpt (itemOutput img))
  && negb (truthyOpt (itemError img)).

(** An image an attempt has left its mark on: a result or an error
    that a truthiness test sees. *)
Definition attempted (img : I) : bool :=
  truthyOpt (itemOutput img) || truthyOpt (itemError img).

(** The stores published by the [setProgress] calls. *)
Fixpoint progressStores (st : Store I) (acts : list Action)
  : list (Store I) :=
  match acts with
  | [] => []
  | a :: rest =>
      (if isProgressCall a then [reduce a st] else [])
      ++ progressStores (reduce a st) rest
  end.

Definition publishedProgress (st : Store I) (acts : list Action)
  : list Progress :=
  map progress (progressStores st acts).

(** What is asked of the progress values of one run: they never
    decrease, never pass the total, and reach it exactly once, with the
    last value published. *)
Definition progressContract (ps : list Progress) : Prop :=
  (forall i j p q,
      i <= j -> ps !! i = Some p -> ps !! j = Some q ->
      current p <= current q)%nat
  /\ Forall (fun p => current p <= total p)%nat ps
  /\ (forall i p,
        ps !! i = Some p -> current p = total p <-> S i = length ps).

(** A run over the work list [todo] is paced by its counter: it
    publishes 0 of n, 1 of n, up to n of n, which meets the contract
    above, and the store published with the j-th increment shows j of n
    with exactly the first j images of the work list no longer loading,
    one more than the increment before. *)
Definition pacedRun (st : Store I) (acts : list Action) (todo : list I)
  : Prop :=
  publishedProgress st acts
  = map (fun j => {| current := j; total := length todo |})
      (seq 0 (S (length todo)))
  /\ progressContract (publishedProgress st acts)
  /\ (forall j s,
        (1 <= j)%nat -> progressStores st acts !! j = Some s ->
        progress s = {| current := j; total := length todo |}
        /\ forall m image,
             todo !! m = Some image ->
             exists k img',
               images st !! k = Some image
               /\ images s !! k = Some img'
               /\ itemId img' = itemId image
               /\ itemLoading img' = negb (m <? j)%nat).

(** What a sequence of calls makes of one image record. *)
Definition imageAfter (acts : list Action) (img : I) : I :=
  foldl (fun im a => reduceImage a im) img acts.

(** The record an attempt leaves: the [try] branch on success, the
    [catch] branch on failure. *)
Definition settled (fallback : jsstring) (o : result jsstring)
    (img : I) : I :=
  match o with
  | Ok url => finishOutput url img
  | Thrown e => finishError (orElse (message e) fallback) img
  end.

(** The images a run works through, and the outcome of the attempt
    on each: [attempt i image] is the i-th call of the loop. *)
Fixpoint outcomesFrom (attempt : nat -> I -> result jsstring)
    (i : nat) (todo : list I) : list (jsstring * result jsstring) :=
  match todo with
  | [] => []
  | image :: rest =>
      (itemId image, attempt i image)
      :: outcomesFrom attempt (i + 1) rest
  end.

(** The images a run picks, and the outcomes of the loop's calls on
    them. *)
Definition picked (which : jsstring -> bool) (imgs : list I) : list I :=
  filter (fun img => which (itemId img) = true) imgs.

Definition outcomes (which : jsstring -> bool)
    (attempt : nat -> I -> result jsstring) (imgs : list I)
  : list (jsstring * result jsstring) :=
  outcomesFrom attempt 0 (picked which imgs).

(** The number of images before position [k] that a run picks. *)
Definition rank (which : jsstring -> bool) (imgs : list I) (k : nat)
  : nat :=
  length (filter (fun img => which (itemId img) = true) (take k imgs)).

End Reduce.

(** An outcome whose URL, if there is one, is a non-empty string. *)
Definition truthyOutcome (o : result jsstring) : Prop :=
  forall url, o = Ok url -> truthy url = true.

(** The calls of a run, given the outcome of each attempt. *)
Definition settleCall (fallback : jsstring) (id : jsstring)
    (o : result jsstring) : Action :=
  match o with
  | Ok url => SetImageOutput id url
  | Thrown e => SetImageError id (orElse (message e) fallback)
  end.

Fixpoint loopCalls (fallback : jsstring) (i : nat)
    (todo : list (jsstring * result jsstring)) : list Action :=
  match todo with
  | [] => []
  | (id, o) :: rest =>
      settleCall fallback id o :: SetProgressCurrent (i + 1)
      :: loopCalls fallback (i + 1) rest
  end.

Definition startCalls (which : jsstring -> bool) (n : nat)
  : list Action :=
  [SetIsProcessing true; SetProgress {| current := 0; total := n |};
   SetImagesLoading which].

Definition runCalls (which : jsstring -> bool) (fallback : jsstring)
    (todo : list (jsstring * result jsstring)) : list Action :=
  startCalls which (length todo) ++ loopCalls fallback 0 todo
  ++ [SetIsProcessing false].

(** The calls made up to and including the j-th progress increment. *)
Definition runPrefix (which : jsstring -> bool) (fallback : jsstring)
    (todo : list (jsstring * result jsstring)) (j : nat) : list Action :=
  startCalls which (length todo) ++ loopCalls fallback 0 (take j todo).

(** Whether a call can change a record with the given id. *)
Definition touches (a : Action) (id : jsstring) : bool :=
  match a with
  | SetImagesLoading which => which id
  | SetImageOutput id' _ | SetImageError id' _ => JS.eqb id id'
  | _ => false
  end.

(** What the object spreads keep and set. *)
Class WorkItemLaws (I : Type) `{WorkItem I} := {
  startLoading_id img : itemId (startLoading img) = itemId img;
  startLoading_loading img : itemLoading (startLoading img) = true;
  startLoading_output img : itemOutput (startLoading img) = None;
  startLoading_error img : itemError (startLoading img) = None;
  finishOutput_id url img : itemId (finishOutput url img) = itemId img;
  finishOutput_loading url img :
    itemLoading (finishOutput url img) = false;
  finishOutput_output url img :
    itemOutput (finishOutput url img) = Some url;
  finishOutput_error url img :
    itemError (finishOutput url img) = itemError img;
  finishError_id msg img : itemId (finishError msg img) = itemId img;
  finishError_loading msg img :
    itemLoading (finishError msg img) = false;
  finishError_output msg img :
    itemOutput (finishError msg img) = itemOutput img;
  finishError_error msg img :
    itemError (finishError msg img) = Some msg
}.

(** An asynchronous handler: the [setState] calls it has made, in
    order, and how it ended. *)
Definition M (A : Type) : Type := list Action * result A.

Definition ret {A} (a : A) : M A := ([], Ok a).

Definition bind {A B} (m : M A) (k : A -> M B) : M B :=
  match m with
  | (acts, Ok a) => let '(acts', r) := k a in (acts ++ acts', r)
  | (acts, Thrown e) => (acts, Thrown e)
  end.

Definition call (a : Action) : M unit := ([a], Ok tt).

(** [await p] for a promise that settles as [r]. *)
Definition await {A} (r : result A) : M A := ([], r).

(** [try { body } catch (e) { handler(e) }]. *)
Definition tryCatch {A} (body : M A) (handler : JsError -> M A) : M A :=
  match body with
  | (acts, Ok a) => (acts, Ok a)
  | (acts, Thrown e) => let '(acts', r) := handler e in (acts ++ acts', r)
  end.

Definition actions {A} (m : M A) : list Action := fst m.
Definition completion {A} (m : M A) : result A := snd m.

Module Notations.
Notation "x <- m ;; k" := (bind m (fun x => k))
  (at level 100, m at next level, right associativity).
Notation "m ;;; k" := (bind m (fun _ => k))
  (at level 100, right associativity).
End Notations.

End Batch.
Import Batch Batch.Notations.

(** ** components/EditorView *)

Module EditorView.
Import GeminiService.

(** [dataUrl.split(',')[1]] *)
Definition dataUrlToBase64 (dataUrl : jsstring) : option jsstring :=
  split 44 dataUrl !! 1%nat.

Record ImageState := {
  id : jsstring;
  originalDataUrl : jsstring;
  originalFileName : jsstring;
  originalFileType : jsstring;
  editedUrl : option jsstring;
  isLoading : bool;
  error : option jsstring
}.

Record Settings := {
  userPrompt : jsstring;
  outputFormat : OutputFormat;
  outputQuality : number;
  resizeConfig : ResizeConfig.t;
  cropConfig : CropConfig.t;
  rotationAngle : number;
  textOverlayConfig : TextOverlayConfig.t;
  filterConfig : FilterConfig.t;
  transparencyConfig : TransparencyConfig.t;
  watermarkConfig : WatermarkConfig.t
}.

Definition defaultSettings : Settings := {|
  userPrompt := lit "Make this image look more professional and vibrant.";
  outputFormat := ImagePng;
  outputQuality := 92;
  resizeConfig :=
    {| ResizeConfig.enabled := false; ResizeConfig.width := 1024;
       ResizeConfig.height := 1024;
       ResizeConfig.maintainAspectRatio := true |};
  cropConfig :=
    {| CropConfig.enabled := false; CropConfig.x := 10; CropConfig.y := 10;
       CropConfig.width := 80; CropConfig.height := 80 |};
  rotationAngle := 0;
  textOverlayConfig :=
    {| TextOverlayConfig.enabled := false;
       TextOverlayConfig.content := lit "Your Text Here";
       TextOverlayConfig.font := lit "Arial, sans-serif";
       TextOverlayConfig.size := 48;
       TextOverlayConfig.color := lit "#FFFFFF";
       TextOverlayConfig.positionX := 50;
       TextOverlayConfig.positionY := 50 |};
  filterConfig :=
    {| FilterConfig.grayscale :=
         {| Grayscale.enabled := false; Grayscale.intensity := 100 |};
       FilterConfig.brightness := 100; FilterConfig.contrast := 100 |};
  transparencyConfig :=
    {| TransparencyConfig.method := Preserve;
       TransparencyConfig.fillColor := lit "#FFFFFF" |};
  watermarkConfig :=
    {| WatermarkConfig.enabled := false;
       WatermarkConfig.text := lit "Watermark";
       WatermarkConfig.opacity := 50; WatermarkConfig.scale := 25;
       WatermarkConfig.color := lit "#FFFFFF";
       WatermarkConfig.position := BottomRight |}
|}.

(** The instruction sequence and the prompt for a [Settings] value, as
    [handleGenerateEdits] passes its fields to the service. *)
Definition compileSettings (settings : Settings) : list Stage :=
  compile (outputFormat settings) (outputQuality settings)
    (resizeConfig settings) (cropConfig settings)
    (rotationAngle settings) (textOverlayConfig settings)
    (filterConfig settings) (transparencyConfig settings)
    (watermarkConfig settings).

Definition promptOfSettings (settings : Settings) : jsstring :=
  finalPromptOf (userPrompt settings) (outputFormat settings)
    (outputQuality settings) (resizeConfig settings)
    (cropConfig settings) (rotationAngle settings)
    (textOverlayConfig settings) (filterConfig settings)
    (transparencyConfig settings) (watermarkConfig settings).

(** The settings panel's updates of single fields,
    [setSettings(s => ({ ...s, field: ... }))]. *)
Definition setFilterConfig (f : FilterConfig.t) (s : Settings)
  : Settings :=
  {| userPrompt := userPrompt s; outputFormat := outputFormat s;
     outputQuality := outputQuality s; resizeConfig := resizeConfig s;
     cropConfig := cropConfig s; rotationAngle := rotationAngle s;
     textOverlayConfig := textOverlayConfig s; filterConfig := f;
     transparencyConfig := transparencyConfig s;
     watermarkConfig := watermarkConfig s |}.

Definition setWatermarkConfig (w : WatermarkConfig.t) (s : Settings)
  : Settings :=
  {| userPrompt := userPrompt s; outputFormat := outputFormat s;
     outputQuality := outputQuality s; resizeConfig := resizeConfig s;
     cropConfig := cropConfig s; rotationAngle := rotationAngle s;
     textOverlayConfig := textOverlayConfig s;
     filterConfig := filterConfig s;
     transparencyConfig := transparencyConfig s;
     watermarkConfig := w |}.

Definition setTextOverlayConfig (t : TextOverlayConfig.t) (s : Settings)
  : Settings :=
  {| userPrompt := userPrompt s; outputFormat := outputFormat s;
     outputQuality := outputQuality s; resizeConfig := resizeConfig s;
     cropConfig := cropConfig s; rotationAngle := rotationAngle s;
     textOverlayConfig := t; filterConfig := filterConfig s;
     transparencyConfig := transparencyConfig s;
     watermarkConfig := watermarkConfig s |}.

#[global] Instance imageItem : WorkItem ImageState := {|
  itemId := id;
  itemLoading := isLoading;
  itemOutput := editedUrl;
  itemError := error;
  startLoading img :=
    {| id := id img; originalDataUrl := originalDataUrl img;
       originalFileName := originalFileName img;
       originalFileType := originalFileType img;
       editedUrl := None; isLoading := true; error := None |};
  finishOutput url img :=
    {| id := id img; originalDataUrl := originalDataUrl img;
       originalFileName := originalFileName img;
       originalFileType := originalFileType img;
       editedUrl := Some url; isLoading := false; error := error img |};
  finishError msg img :=
    {| id := id img; originalDataUrl := originalDataUrl img;
       originalFileName := originalFileName img;
       originalFileType := originalFileType img;
       editedUrl := editedUrl img; isLoading := false;
       error := Some msg |}
|}.

Definition unexpectedError : jsstring :=
  lit "An unexpected error occurred.".

Section Handler.

(** What the [useCallback] closure captured at the render it was
    created in. *)
Variables (images : list ImageState) (isProcessing : bool)
  (selectedImageIds : gset jsstring) (settings : Settings).

(** The capability as it behaves at the i-th call of this run. *)
Variable service : nat -> Capability.

Definition selected (imageId : jsstring) : bool :=
  bool_decide (imageId ∈ selectedImageIds).

Definition imagesToProcess : list ImageState :=
  filter (fun img => selected (id img) = true) images.

(** One call of the service for [image], the i-th of the run. *)
Definition attempt (i : nat) (image : ImageState) : result jsstring :=
  let base64Data := dataUrlToBase64 (originalDataUrl image) in
  editImageWithGemini (userPrompt settings) (outputFormat settings)
    (outputQuality settings) (resizeConfig settings)
    (cropConfig settings) (rotationAngle settings)
    (textOverlayConfig settings) (filterConfig settings)
    (transparencyConfig settings) (watermarkConfig settings)
    (service i) base64Data (originalFileType image).

(** The [for] loop, from index [i] over the images still to do. *)
Fixpoint forLoop (i : nat) (todo : list ImageState) : M unit :=
  match todo with
  | [] => ret tt
  | image :: rest =>
      tryCatch
        (newImageUrl <- await (attempt i image) ;;
         call (SetImageOutput (id image) newImageUrl))
        (fun err =>
           call (SetImageError (id image)
                   (orElse (message err) unexpectedError))) ;;;
      call (SetProgressCurrent (i + 1)) ;;;
      forLoop (i + 1) rest
  end.

Definition handleGenerateEdits : M unit :=
  if (length imagesToProcess =? 0)%nat || isProcessing then ret tt
  else
    call (SetIsProcessing true) ;;;
    call (SetProgress {| current := 0;
                         total := length imagesToProcess |}) ;;;
    call (SetImagesLoading selected) ;;;
    forLoop 0 imagesToProcess ;;;
    call (SetIsProcessing false).

End Handler.

(** The component state a handler closes over and its calls update. *)
Record View := {
  store : Store ImageState;
  selectedImageIds : gset jsstring;
  settings : Settings
}.

(** The handler of the current render, run against the capability. *)
Definition generateEdits (v : View) (service : nat -> Capability)
  : M unit :=
  handleGenerateEdits (images (store v)) (isProcessing (store v))
    (selectedImageIds v) (settings v) service.

End EditorView.

(** ** components/CompressorView *)

Module CompressorView.
Import GeminiService.

(** A file handed over by the browser: [readAsDataURL] is how reading
    it with a [FileReader] settles. *)
Record File := {
  name : jsstring;
  type : jsstring;
  readAsDataURL : result jsstring
}.

(** [result.split(',')[1]], once the reader has loaded. *)
Definition fileToBase64 (file : File) : result (option jsstring) :=
  match readAsDataURL file with
  | Ok dataUrl => Ok (split 44 dataUrl !! 1%nat)
  | Thrown e => Thrown e
  end.

Record ImageState := {
  id : jsstring;
  originalFile : File;
  originalUrl : jsstring;
  compressedUrl : option jsstring;
  isLoading : bool;
  error : option jsstring
}.

#[global] Instance imageItem : WorkItem ImageState := {|
  itemId := id;
  itemLoading := isLoading;
  itemOutput := compressedUrl;
  itemError := error;
  startLoading img :=
    {| id := id img; originalFile := originalFile img;
       originalUrl := originalUrl img;
       compressedUrl := None; isLoading := true; error := None |};
  finishOutput url img :=
    {| id := id img; originalFile := originalFile img;
       originalUrl := originalUrl img;
       compressedUrl := Some url; isLoading := false;
       error := error img |};
  finishError msg img :=
    {| id := id img; originalFile := originalFile img;
       originalUrl := originalUrl img;
       compressedUrl := compressedUrl img; isLoading := false;
       error := Some msg |}
|}.

Definition unexpectedError : jsstring :=
  lit "An unexpected error occurred.".

(** The component state: the shared store and the settings. *)
Record View := {
  store : Store ImageState;
  outputFormat : OutputFormat;
  quality : number;
  detailLevel : number;
  autoCompress : bool;
  targetResolution : jsstring
}.

(** The initial [useState] values. *)
Definition mount : View := {|
  store := {| images := []; isProcessing := false;
              progress := {| current := 0; total := 0 |} |};
  outputFormat := ImagePng;
  quality := 75;
  detailLevel := 75;
  autoCompress := false;
  targetResolution := lit "original"
|}.

Definition withStore (v : View) (st : Store ImageState) : View :=
  {| store := st; outputFormat := outputFormat v; quality := quality v;
     detailLevel := detailLevel v; autoCompress := autoCompress v;
     targetResolution := targetResolution v |}.

Definition handleReset (v : View) : View :=
  withStore v {| images := []; isProcessing := false;
                 progress := {| current := 0; total := 0 |} |}.

(** A selected file together with what the browser generated for it:
    the id (file name, modification time and a random number) and the
    object URL. *)
Record Upload := {
  file : File;
  generatedId : jsstring;
  objectUrl : jsstring
}.

Definition handleImageSelect (v : View) (files : list Upload) : View :=
  let v := handleReset v in
  let newImages :=
    map (fun f =>
           {| id := generatedId f; originalFile := file f;
              originalUrl := objectUrl f; compressedUrl := None;
              isLoading := false; error := None |}) files in
  withStore v {| images := newImages;
                 isProcessing := isProcessing (store v);
                 progress := progress (store v) |}.

Section Handler.

(** What the [useCallback] closure captured. *)
Variables (images : list ImageState) (isProcessing : bool)
  (outputFormat : OutputFormat) (quality detailLevel : number)
  (targetResolution : jsstring).

Variable service : nat -> Capability.

Definition attempt (i : nat) (image : ImageState) : result jsstring :=
  match fileToBase64 (originalFile image) with
  | Thrown e => Thrown e
  | Ok base64Data =>
      compressImageWithGemini (service i) base64Data
        (type (originalFile image)) outputFormat quality detailLevel
        targetResolution
  end.

Fixpoint forLoop (i : nat) (todo : list ImageState) : M unit :=
  match todo with
  | [] => ret tt
  | image :: rest =>
      tryCatch
        (newImageUrl <- await (attempt i image) ;;
         call (SetImageOutput (id image) newImageUrl))
        (fun err =>
           call (SetImageError (id image)
                   (orElse (message err) unexpectedError))) ;;;
      call (SetProgressCurrent (i + 1)) ;;;
      forLoop (i + 1) rest
  end.

Definition handleCompress : M unit :=
  if (length images =? 0)%nat || isProcessing then ret tt
  else
    call (SetIsProcessing true) ;;;
    call (SetProgress {| current := 0; total := length images |}) ;;;
    call (SetImagesLoading (fun _ => true)) ;;;
    forLoop 0 images ;;;
    call (SetIsProcessing false).

End Handler.

(** The handler of the current render. *)
Definition compress (v : View) (service : nat -> Capability) : M unit :=
  handleCompress (images (store v)) (isProcessing (store v))
    (outputFormat v) (quality v) (detailLevel v) (targetResolution v)
    service.

(** The view after the calls of a handler have been applied. *)
Definition applyCalls (v : View) (m : M unit) : View :=
  withStore v (runFrom (store v) (actions m)).

(** *** The auto-start effect *)

Definition hasUnprocessedImages (imgs : list ImageState) : bool :=
  match imgs with
  | [] => false
  | first :: _ =>
      negb (isLoading first) && negb (truthyOpt (compressedUrl first))
      && negb (truthyOpt (error first))
  end.

(** The condition under which the effect calls [handleCompress]. *)
Definition autoCompressFires (v : View) : bool :=
  autoCompress v && negb (isProcessing (store v))
  && hasUnprocessedImages (images (store v)).

(** A batch the effect has no business with: no image, or a first image
    that is loading or bears a result or an error. *)
Definition spent (v : View) : Prop :=
  hasUnprocessedImages (images (store v)) = false.

(** A batch of which nothing has been attempted. *)
Definition untouched (v : View) : Prop :=
  Forall (fun img => fresh img = true) (images (store v)).

(** The views the component is in between events: no run active, and
    the batch either untouched or spent. *)
Definition quiescent (v : View) : Prop :=
  isProcessing (store v) = false /\ (untouched v \/ spent v).

(** *** User events

    The controls are rendered only while there are images, and are
    disabled while [isProcessing]; the upload area is rendered only
    while there are none and passes on non-empty selections only. *)
Inductive Event :=
| ImageSelect (files : list Upload)
| ClickCompress
| ClickStartOver
| ToggleAutoCompress
| ChangeQuality (q : number)
| ChangeDetailLevel (d : number)
| ChangeTargetResolution (r : jsstring)
| ChangeOutputFormat (f : OutputFormat).

Definition isImageSelect (e : Event) : bool :=
  match e with
  | ImageSelect _ => true
  | _ => false
  end.

Definition available (e : Event) (v : View) : bool :=
  match e with
  | ImageSelect files =>
      (length (images (store v)) =? 0)%nat && (0 <? length files)%nat
  | _ =>
      (0 <? length (images (store v)))%nat
      && negb (isProcessing (store v))
  end.

Definition handle (e : Event) (service : nat -> Capability) (v : View)
  : View :=
  match e with
  | ImageSelect files => handleImageSelect v files
  | ClickCompress => applyCalls v (compress v service)
  | ClickStartOver => handleReset v
  | ToggleAutoCompress =>
      {| store := store v; outputFormat := outputFormat v;
         quality := quality v; detailLevel := detailLevel v;
         autoCompress := negb (autoCompress v);
         targetResolution := targetResolution v |}
  | ChangeQuality q =>
      {| store := store v; outputFormat := outputFormat v;
         quality := q; detailLevel := detailLevel v;
         autoCompress := autoCompress v;
         targetResolution := targetResolution v |}
  | ChangeDetailLevel d =>
      {| store := store v; outputFormat := outputFormat v;
         quality := quality v; detailLevel := d;
         autoCompress := autoCompress v;
         targetResolution := targetResolution v |}
  | ChangeTargetResolution r =>
      {| store := store v; outputFormat := outputFormat v;
         quality := quality v; detailLevel := detailLevel v;
         autoCompress := autoCompress v; targetResolution := r |}
  | ChangeOutputFormat f =>
      {| store := store v; outputFormat := f;
         quality := quality v; detailLevel := detailLevel v;
         autoCompress := autoCompress v;
         targetResolution := targetResolution v |}
  end.

(** The behaviour of the capability during one event: at the i-th call
    of the r-th run started while the event is handled. *)
Definition Services := nat -> nat -> Capability.

(** The effect, re-run after every state change that leaves the view
    at rest: while its condition holds it starts a run, and is run
    again on the state the run leaves.  The second component lists the
    views at which it fired. *)
Fixpoint settle (fuel : nat) (services : Services) (r : nat) (v : View)
  : View * list View :=
  match fuel with
  | O => (v, [])
  | S fuel' =>
      if autoCompressFires v
      then
        let v' := applyCalls v (compress v (services r)) in
        let '(v'', fired) := settle fuel' services (S r) v' in
        (v'', v :: fired)
      else (v, [])
  end.

Definition step (fuel : nat) (v : View) (e : Event * Services)
  : View * list View :=
  let '(ev, services) := e in
  if available ev v
  then settle fuel services 1 (handle ev (services 0%nat) v)
  else (v, []).

Fixpoint runEvents (fuel : nat) (v : View) (es : list (Event * Services))
  : View * list View :=
  match es with
  | [] => (v, [])
  | e :: rest =>
      let '(v', fired) := step fuel v e in
      let '(v'', fired') := runEvents fuel v' rest in
      (v'', fired ++ fired')
  end.

End CompressorView.

(** ** Concrete inputs *)

Module Examples.
Import GeminiService.

(** Grayscale switched on with the intensity slider at its minimum. *)
Definition grayscaleAtZero : EditorView.Settings :=
  EditorView.setFilterConfig
    {| FilterConfig.grayscale :=
         {| Grayscale.enabled := true; Grayscale.intensity := 0 |};
       FilterConfig.brightness := 100; FilterConfig.contrast := 100 |}
    EditorView.defaultSettings.

(** Watermark and text overlay switched on, their texts blank: spaces
    and a tab, and a no-break space and an ideographic space. *)
Definition blankTexts : EditorView.Settings :=
  EditorView.setWatermarkConfig
    {| WatermarkConfig.enabled := true;
       WatermarkConfig.text := [32; 32; 9];
       WatermarkConfig.opacity := 50; WatermarkConfig.scale := 25;
       WatermarkConfig.color := lit "#FFFFFF";
       WatermarkConfig.position := BottomRight |}
    (EditorView.setTextOverlayConfig
       {| TextOverlayConfig.enabled := true;
          TextOverlayConfig.content := [160; 12288; 10];
          TextOverlayConfig.font := lit "Arial, sans-serif";
          TextOverlayConfig.size := 48;
          TextOverlayConfig.color := lit "#FFFFFF";
          TextOverlayConfig.positionX := 50;
          TextOverlayConfig.positionY := 50 |}
       EditorView.defaultSettings).

(** A response that carries no candidate at all. *)
Definition noCandidates : Response := {| candidates := Some [] |}.

(** A response whose only candidate was blocked and carries no
    content. *)
Definition blockedCandidate : Response :=
  {| candidates := Some [ {| content := None |} ] |}.

(** A response whose first candidate has a text part, then a JPEG
    image, then a PNG image. *)
Definition textPart : Part :=
  {| text := Some (lit "Here is your image."); inlineData := None |}.

Definition jpegBlob : Blob :=
  {| data := Some (lit "AAAA"); mimeType := lit "image/jpeg" |}.

Definition jpegPart : Part :=
  {| text := None; inlineData := Some jpegBlob |}.

Definition pngPart : Part :=
  {| text := None;
     inlineData :=
       Some {| data := Some (lit "BBBB"); mimeType := lit "image/png" |} |}.

Definition imageCandidate : Candidate :=
  {| content := Some {| parts := Some [textPart; jpegPart; pngPart] |} |}.

Definition textThenImages : Response :=
  {| candidates := Some [imageCandidate] |}.

(** An edit call with the default settings on a small JPEG source,
    against a capability that always answers with [response]. *)
Definition editWithDefaults (response : Response) : result jsstring :=
  let s := EditorView.defaultSettings in
  editImageWithGemini (EditorView.userPrompt s)
    (EditorView.outputFormat s) (EditorView.outputQuality s)
    (EditorView.resizeConfig s) (EditorView.cropConfig s)
    (EditorView.rotationAngle s) (EditorView.textOverlayConfig s)
    (EditorView.filterConfig s) (EditorView.transparencyConfig s)
    (EditorView.watermarkConfig s)
    (fun _ => Ok response) (Some (lit "AAAA")) (lit "image/jpeg").

(** Three uploaded images of the editor. *)
Definition editorImage (name : string) : EditorView.ImageState :=
  {| EditorView.id := lit name;
     EditorView.originalDataUrl := lit "data:image/png;base64,AAAA";
     EditorView.originalFileName := lit name;
     EditorView.originalFileType := lit "image/png";
     EditorView.editedUrl := None;
     EditorView.isLoading := false;
     EditorView.error := None |}.

Definition editorView (names : list string) (sel : list string)
  : EditorView.View :=
  {| EditorView.store :=
       {| images := map editorImage names; isProcessing := false;
          progress := {| current := 0; total := 0 |} |};
     EditorView.selectedImageIds := list_to_set (map lit sel);
     EditorView.settings := EditorView.defaultSettings |}.

(** The capability answers every call with an image. *)
Definition alwaysSucceeds : nat -> Capability :=
  fun _ _ => Ok textThenImages.

(** The capability rejects the second call of a run and answers the
    others with an image. *)
Definition failsSecond : nat -> Capability :=
  fun i _ =>
    if (i =? 1)%nat then Thrown (Error (lit "quota exceeded"))
    else Ok textThenImages.

(** Two images, none selected; the same two, both selected; three
    images with only the second selected. *)
Definition noneSelected : EditorView.View :=
  editorView ["a.png"; "b.png"]%string [].

Definition bothSelected : EditorView.View :=
  editorView ["a.png"; "b.png"]%string ["a.png"; "b.png"]%string.

Definition secondOfThree : EditorView.View :=
  editorView ["a.png"; "b.png"; "c.png"]%string ["b.png"]%string.

(** The store a run over [bothSelected] publishes with its third call. *)
Definition midRun : Store EditorView.ImageState :=
  runFrom (EditorView.store bothSelected)
    (startCalls
       (EditorView.selected (EditorView.selectedImageIds bothSelected)) 2).

(** Two files as the browser hands them to the compressor. *)
Definition upload (name : string) : CompressorView.Upload :=
  {| CompressorView.file :=
       {| CompressorView.name := lit name;
          CompressorView.type := lit "image/png";
          CompressorView.readAsDataURL :=
            Ok (lit "data:image/png;base64,AAAA") |};
     CompressorView.generatedId := lit name;
     CompressorView.objectUrl := lit "blob:" ++ lit name |}.

Definition everyRun (service : nat -> Capability)
  : CompressorView.Services :=
  fun _ => service.

(** A first batch loaded with auto-start off, then switched on; after
    it has run, the user starts over and loads a second batch, runs it
    again by hand and flips the switch twice. *)
Definition firstBatch
  : list (CompressorView.Event * CompressorView.Services) :=
  [ (CompressorView.ImageSelect [upload "a.png"; upload "b.png"],
     everyRun failsSecond);
    (CompressorView.ToggleAutoCompress, everyRun failsSecond);
    (CompressorView.ClickCompress, everyRun alwaysSucceeds);
    (CompressorView.ClickStartOver, everyRun alwaysSucceeds) ].

Definition secondLoad : CompressorView.Event * CompressorView.Services :=
  (CompressorView.ImageSelect [upload "c.png"], everyRun alwaysSucceeds).

Definition afterSecondLoad
  : list (CompressorView.Event * CompressorView.Services) :=
  [ (CompressorView.ClickCompress, everyRun alwaysSucceeds);
    (CompressorView.ToggleAutoCompress, everyRun alwaysSucceeds);
    (CompressorView.ToggleAutoCompress, everyRun alwaysSucceeds) ].

(** The view the first batch leaves, and the two files of the first
    batch once loaded. *)
Definition afterFirstBatch : CompressorView.View :=
  fst (CompressorView.runEvents 3 CompressorView.mount firstBatch).

Definition twoLoaded : CompressorView.View :=
  CompressorView.handleImageSelect CompressorView.mount
    [upload "a.png"; upload "b.png"].

End Examples.

(** ** More of the JavaScript string library *)

Module JSText.

(** [s.startsWith(prefix)] *)
Fixpoint startsWith (prefix s : jsstring) : bool :=
  match prefix, s with
  | [], _ => true
  | _ :: _, [] => false
  | p :: prefix', c :: s' => (p =? c) && startsWith prefix' s'
  end.

(** [s.replace(pattern, replacement)] with a string pattern: the first
    occurrence only.  (The replacements used here hold no [$].) *)
Fixpoint replaceFirst (pattern replacement s : jsstring) : jsstring :=
  if startsWith pattern s then replacement ++ drop (length pattern) s
  else
    match s with
    | [] => []
    | c :: s' => c :: replaceFirst pattern replacement s'
    end.

(** [s.indexOf(c)] for a one-character needle: -1 when absent. *)
Fixpoint indexOfFrom (c : N) (i : Z) (s : jsstring) : Z :=
  match s with
  | [] => (-1)%Z
  | d :: s' => if d =? c then i else indexOfFrom c (i + 1)%Z s'
  end.

Definition indexOf (c : N) (s : jsstring) : Z := indexOfFrom c 0%Z s.

(** [s.substring(a, b)]: both ends clamped to the string, and swapped
    when the first is the larger. *)
Definition substring (a b : Z) (s : jsstring) : jsstring :=
  let len := Z.of_nat (length s) in
  let a := Z.max 0 (Z.min a len) in
  let b := Z.max 0 (Z.min b len) in
  let lo := Z.min a b in
  let hi := Z.max a b in
  take (Z.to_nat (hi - lo)) (drop (Z.to_nat lo) s).

End JSText.

(** ** components/EditorView: the handlers beside the run *)

Module EditorHandlers.
Import GeminiService EditorView.

Definition handleReset (v : View) : View :=
  {| store := {| images := []; isProcessing := false;
                 progress := {| current := 0; total := 0 |} |};
     selectedImageIds := ∅;
     settings := settings v |}.

(** A selected file and the id generated for it. *)
Record Intake := {
  file : CompressorView.File;
  generatedId : jsstring
}.

Definition fileToDataUrl (f : CompressorView.File) : result jsstring :=
  CompressorView.readAsDataURL f.

(** [Promise.all]: the values in order, or a rejection if any promise
    rejects (of the rejections, the one of the first in the list is
    kept here; the handler does not look at it). *)
Fixpoint promiseAll {A} (promises : list (result A)) : result (list A) :=
  match promises with
  | [] => Ok []
  | Ok a :: rest =>
      match promiseAll rest with
      | Ok l => Ok (a :: l)
      | Thrown e => Thrown e
      end
  | Thrown e :: _ => Thrown e
  end.

Definition intake (f : Intake) : result ImageState :=
  match fileToDataUrl (file f) with
  | Ok url =>
      Ok {| id := generatedId f;
            originalDataUrl := url;
            originalFileName := CompressorView.name (file f);
            originalFileType := CompressorView.type (file f);
            editedUrl := None; isLoading := false; error := None |}
  | Thrown e => Thrown e
  end.

(** [handleImageSelect]: the view it leaves and how the handler ends.
    Nothing catches a failed read: the reset has happened, [setImages]
    has not. *)
Definition handleImageSelect (v : View) (files : list Intake)
  : View * result unit :=
  let v := handleReset v in
  match promiseAll (map intake files) with
  | Ok newImages =>
      ({| store := {| images := newImages;
                      isProcessing := isProcessing (store v);
                      progress := progress (store v) |};
          selectedImageIds := selectedImageIds v;
          settings := settings v |}, Ok tt)
  | Thrown e => (v, Thrown e)
  end.

Definition handleRemoveImage (idToRemove : jsstring) (v : View) : View :=
  {| store :=
       {| images :=
            filter (fun img => JS.eqb (id img) idToRemove = false)
              (images (store v));
          isProcessing := isProcessing (store v);
          progress := progress (store v) |};
     selectedImageIds := selectedImageIds v ∖ {[ idToRemove ]};
     settings := settings v |}.

Definition toggle (i : jsstring) (sel : gset jsstring) : gset jsstring :=
  if bool_decide (i ∈ sel) then sel ∖ {[ i ]} else sel ∪ {[ i ]}.

Definition handleToggleSelection (i : jsstring) (v : View) : View :=
  {| store := store v;
     selectedImageIds := toggle i (selectedImageIds v);
     settings := settings v |}.

Definition allSelected (v : View) : bool :=
  (0 <? length (images (store v)))%nat
  && (size (selectedImageIds v) =? length (images (store v)))%nat.

Definition handleToggleSelectAll (v : View) : View :=
  {| store := store v;
     selectedImageIds :=
       if allSelected v then ∅
       else list_to_set (map id (images (store v)));
     settings := settings v |}.

(** The ids of the batch, as a set. *)
Definition batchIds (v : View) : gset jsstring :=
  list_to_set (map id (images (store v))).

(** The view after the calls of a run have been applied. *)
Definition applyCalls (v : View) (m : M unit) : View :=
  {| store := runFrom (store v) (actions m);
     selectedImageIds := selectedImageIds v;
     settings := settings v |}.

(** *** File names of downloads *)

(** [originalFileName.split('.')[0] || 'image'] *)
Definition stem (originalFileName : jsstring) : jsstring :=
  orElse (default [] (split 46 originalFileName !! 0%nat)) (lit "image").

(** [outputFormat.split('/')[1].replace('jpeg', 'jpg')]; calling
    [replace] on a missing second piece would be a [TypeError]. *)
Definition extension (outputFormat : OutputFormat) : result jsstring :=
  match split 47 (showFormat outputFormat) !! 1%nat with
  | Some e => Ok (JSText.replaceFirst (lit "jpeg") (lit "jpg") e)
  | None =>
      Thrown (TypeError (lit
        "Cannot read properties of undefined (reading 'replace')"))
  end.

Definition editedFileName (originalFileName : jsstring)
    (outputFormat : OutputFormat) : result jsstring :=
  match extension outputFormat with
  | Ok ext => Ok (cat [stem originalFileName; lit "_edited."; ext])
  | Thrown e => Thrown e
  end.




(** *** Single-field updates of the settings panel *)

Definition setOutputQuality (q : number) (s : Settings) : Settings :=
  {| userPrompt := userPrompt s; outputFormat := outputFormat s;
     outputQuality := q; resizeConfig := resizeConfig s;
     cropConfig := cropConfig s; rotationAngle := rotationAngle s;
     textOverlayConfig := textOverlayConfig s;
     filterConfig := filterConfig s;
     transparencyConfig := transparencyConfig s;
     watermarkConfig := watermarkConfig s |}.

Definition setCropConfig (c : CropConfig.t) (s : Settings) : Settings :=
  {| userPrompt := userPrompt s; outputFormat := outputFormat s;
     outputQuality := outputQuality s; resizeConfig := resizeConfig s;
     cropConfig := c; rotationAngle := rotationAngle s;
     textOverlayConfig := textOverlayConfig s;
     filterConfig := filterConfig s;
     transparencyConfig := transparencyConfig s;
     watermarkConfig := watermarkConfig s |}.

Definition setResizeConfig (r : ResizeConfig.t) (s : Settings) : Settings :=
  {| userPrompt := userPrompt s; outputFormat := outputFormat s;
     outputQuality := outputQuality s; resizeConfig := r;
     cropConfig := cropConfig s; rotationAngle := rotationAngle s;
     textOverlayConfig := textOverlayConfig s;
     filterConfig := filterConfig s;
     transparencyConfig := transparencyConfig s;
     watermarkConfig := watermarkConfig s |}.

Definition setTransparencyConfig (t : TransparencyConfig.t) (s : Settings)
  : Settings :=
  {| userPrompt := userPrompt s; outputFormat := outputFormat s;
     outputQuality := outputQuality s; resizeConfig := resizeConfig s;
     cropConfig := cropConfig s; rotationAngle := rotationAngle s;
     textOverlayConfig := textOverlayConfig s;
     filterConfig := filterConfig s;
     transparencyConfig := t;
     watermarkConfig := watermarkConfig s |}.

End EditorHandlers.

(** ** Views of the compiled sequence *)

Module StageViews.
Import GeminiService.

(** The place of a filter instruction in the order of the three
    [push]es. *)
Definition filterRank (i : FilterInstruction) : nat :=
  match i with
  | GrayscaleFilter _ => 0
  | BrightnessFilter _ => 1
  | ContrastFilter _ => 2
  end.

(** A text that neither begins nor ends with whitespace. *)
Definition edgeClean (s : jsstring) : Prop :=
  (forall c, head s = Some c -> isWhiteSpace c = false)
  /\ (forall c, last s = Some c -> isWhiteSpace c = false).

End StageViews.

(** ** More concrete inputs *)

Module MoreExamples.
Import GeminiService.

(** Watermark and text overlay switched on, their texts padded with
    spaces, a tab and a line feed. *)
Definition paddedTexts : EditorView.Settings :=
  EditorView.setWatermarkConfig
    {| WatermarkConfig.enabled := true;
       WatermarkConfig.text := lit "  (c) me " ++ [9];
       WatermarkConfig.opacity := 50; WatermarkConfig.scale := 25;
       WatermarkConfig.color := lit "#FFFFFF";
       WatermarkConfig.position := BottomRight |}
    (EditorView.setTextOverlayConfig
       {| TextOverlayConfig.enabled := true;
          TextOverlayConfig.content := [10] ++ lit " Sale! ";
          TextOverlayConfig.font := lit "Arial, sans-serif";
          TextOverlayConfig.size := 48;
          TextOverlayConfig.color := lit "#FFFFFF";
          TextOverlayConfig.positionX := 50;
          TextOverlayConfig.positionY := 50 |}
       EditorView.defaultSettings).

(** Grayscale at 70, brightness at 110, contrast at 90. *)
Definition allFilters : EditorView.Settings :=
  EditorView.setFilterConfig
    {| FilterConfig.grayscale :=
         {| Grayscale.enabled := true; Grayscale.intensity := 70 |};
       FilterConfig.brightness := 110; FilterConfig.contrast := 90 |}
    EditorView.defaultSettings.

(** Stage parameters the user has typed in while the stage is off. *)
Definition cropOff : CropConfig.t :=
  {| CropConfig.enabled := false; CropConfig.x := 25; CropConfig.y := 30;
     CropConfig.width := 40; CropConfig.height := 45 |}.

Definition resizeOff : ResizeConfig.t :=
  {| ResizeConfig.enabled := false; ResizeConfig.width := 640;
     ResizeConfig.height := 480; ResizeConfig.maintainAspectRatio := false |}.

Definition watermarkOff : WatermarkConfig.t :=
  {| WatermarkConfig.enabled := false;
     WatermarkConfig.text := lit "DRAFT";
     WatermarkConfig.opacity := 80; WatermarkConfig.scale := 60;
     WatermarkConfig.color := lit "#FF0000";
     WatermarkConfig.position := Center |}.

Definition overlayBlank : TextOverlayConfig.t :=
  {| TextOverlayConfig.enabled := true;
     TextOverlayConfig.content := [32; 32];
     TextOverlayConfig.font := lit "Courier";
     TextOverlayConfig.size := 12;
     TextOverlayConfig.color := lit "#000000";
     TextOverlayConfig.positionX := 10;
     TextOverlayConfig.positionY := 90 |}.

Definition preserveWithColor : TransparencyConfig.t :=
  {| TransparencyConfig.method := Preserve;
     TransparencyConfig.fillColor := lit "#123456" |}.

End MoreExamples.

(** ** services/geminiService: upscaling *)

Module GeminiUpscale.
Import GeminiService.

Definition upscalePrompt : jsstring :=
  lit "Upscale this image. Enhance the resolution, add fine details, and improve sharpness. The goal is a higher-quality, more detailed version of the original image. Do not change the content or composition.".

Definition noUpscaledImage : jsstring :=
  lit "No upscaled image was generated.".

Definition upscaleImageWithGemini (ai : Capability)
    (base64ImageData : option jsstring) (mimeType : jsstring)
  : result jsstring :=
  match ai {| reqData := base64ImageData; reqMimeType := mimeType;
              reqText := upscalePrompt |} with
  | Thrown e => Thrown e
  | Ok response => extractImage (lit "image/png") noUpscaledImage response
  end.

End GeminiUpscale.

(** ** components/ImageUpload *)

Module ImageUpload.

(** [handleFileChange]: the files of the input element go to
    [onImageSelect] as they are, unless there is none ([None]: no
    call). *)
Definition handleFileChange (files : list CompressorView.File)
  : option (list CompressorView.File) :=
  if (0 <? length files)%nat then Some files else None.

(** [onDrop]: the dropped files whose type starts with [image/], all
    of them or the first only. *)
Definition onDrop (multiple : bool) (files : list CompressorView.File)
  : option (list CompressorView.File) :=
  if (0 <? length files)%nat then
    let imageFiles :=
      filter (fun f => JSText.startsWith (lit "image/")
                         (CompressorView.type f) = true) files in
    match imageFiles with
    | [] => None
    | first :: _ => if multiple then Some imageFiles else Some [first]
    end
  else None.

End ImageUpload.

(** ** components/CompressorView: downloads *)

Module CompressorDownloads.
Import GeminiService CompressorView.

Definition compressedFileName (file : File) (outputFormat : OutputFormat)
    (quality : number) : result jsstring :=
  match EditorHandlers.extension outputFormat with
  | Ok ext =>
      Ok (cat [EditorHandlers.stem (name file); lit "_compressed_q";
               showZ quality; lit "."; ext])
  | Thrown e => Thrown e
  end.

End CompressorDownloads.

(** ** components/UpscalerView *)

Module UpscalerView.
Import GeminiService.

Record ImageState := {
  id : jsstring;
  originalFile : CompressorView.File;
  originalUrl : jsstring;
  upscaledUrl : option jsstring;
  isLoading : bool;
  error : option jsstring
}.

Definition unexpectedError : jsstring :=
  lit "An unexpected error occurred.".

(** The [setState] calls of [handleUpscale]. *)
Inductive Call :=
| SetIsProcessing (b : bool)
| SetProgress (p : Progress)
| IncrementProgress
| MarkLoading
| SetImages (imgs : list ImageState).

Definition reduce (c : Call) (st : Store ImageState) : Store ImageState :=
  match c with
  | SetIsProcessing b =>
      {| images := images st; isProcessing := b; progress := progress st |}
  | SetProgress p =>
      {| images := images st; isProcessing := isProcessing st;
         progress := p |}
  | IncrementProgress =>
      {| images := images st; isProcessing := isProcessing st;
         progress := {| current := current (progress st) + 1;
                        total := total (progress st) |} |}
  | MarkLoading =>
      {| images :=
           map (fun img =>
                  {| id := id img; originalFile := originalFile img;
                     originalUrl := originalUrl img;
                     upscaledUrl := upscaledUrl img;
                     isLoading := true; error := None |})
             (images st);
         isProcessing := isProcessing st; progress := progress st |}
  | SetImages imgs =>
      {| images := imgs; isProcessing := isProcessing st;
         progress := progress st |}
  end.

Definition runFrom (st : Store ImageState) (calls : list Call)
  : Store ImageState :=
  foldl (fun s c => reduce c s) st calls.

Fixpoint trace (st : Store ImageState) (calls : list Call)
  : list (Store ImageState) :=
  match calls with
  | [] => []
  | c :: rest => reduce c st :: trace (reduce c st) rest
  end.

Section Handler.

(** What the handler of the current render closes over. *)
Variables (images : list ImageState) (isProcessing : bool).

(** The capability as it behaves for the i-th image. *)
Variable service : nat -> Capability.

Definition attempt (i : nat) (image : ImageState) : result jsstring :=
  match CompressorView.fileToBase64 (originalFile image) with
  | Thrown e => Thrown e
  | Ok base64Data =>
      GeminiUpscale.upscaleImageWithGemini (service i) base64Data
        (CompressorView.type (originalFile image))
  end.

(** [processImage]: the record it resolves to, built from the record
    the closure holds. *)
Definition processImage (i : nat) (image : ImageState) : ImageState :=
  match attempt i image with
  | Ok newImageUrl =>
      {| id := id image; originalFile := originalFile image;
         originalUrl := originalUrl image;
         upscaledUrl := Some newImageUrl; isLoading := false;
         error := error image |}
  | Thrown err =>
      {| id := id image; originalFile := originalFile image;
         originalUrl := originalUrl image;
         upscaledUrl := upscaledUrl image; isLoading := false;
         error := Some (orElse (message err) unexpectedError) |}
  end.

(** [images.map(processImage)] awaited with [Promise.all]: the results
    in the order of the images. *)
Fixpoint updatedFrom (i : nat) (imgs : list ImageState)
  : list ImageState :=
  match imgs with
  | [] => []
  | image :: rest => processImage i image :: updatedFrom (i + 1) rest
  end.

(** The calls of the handler.  Each [processImage] ends, in its
    [finally], with the same functional increment, so the calls are the
    same in whatever order the attempts complete; no promise of
    [Promise.all] rejects, every failure being caught. *)
Definition handleUpscale : list Call :=
  if (length images =? 0)%nat || isProcessing then []
  else
    [SetIsProcessing true;
     SetProgress {| current := 0; total := length images |};
     MarkLoading]
    ++ map (fun _ => IncrementProgress) images
    ++ [SetImages (updatedFrom 0 images); SetIsProcessing false].

End Handler.

(** The handler of the current render. *)
Definition upscale (st : Store ImageState) (service : nat -> Capability)
  : list Call :=
  handleUpscale (images st) (isProcessing st) service.

(** [imageUrl.substring(imageUrl.indexOf('/') + 1,
    imageUrl.indexOf(';'))] *)
Definition extensionOfUrl (imageUrl : jsstring) : jsstring :=
  JSText.substring (JSText.indexOf 47 imageUrl + 1)%Z
    (JSText.indexOf 59 imageUrl) imageUrl.

Definition upscaledFileName (file : CompressorView.File)
    (imageUrl : jsstring) : jsstring :=
  cat [EditorHandlers.stem (CompressorView.name file); lit "_upscaled.";
       extensionOfUrl imageUrl].

End UpscalerView.

(** ** File-name extensions, as the download handlers derive them *)

Module Extensions.
Import GeminiService.

Definition extensionText (outputFormat : OutputFormat) : jsstring :=
  match outputFormat with
  | ImagePng => lit "png"
  | ImageJpeg => lit "jpg"
  | ImageWebp => lit "webp"
  end.

End Extensions.

(** ** Concrete inputs for the service's other calls *)

Module ServiceExamples.
Import GeminiService.

(** A capability that always answers with the given response. *)
Definition answering (response : Response) : Capability :=
  fun _ => Ok response.

Definition photo : CompressorView.File :=
  {| CompressorView.name := lit "holiday.photo.jpeg";
     CompressorView.type := lit "image/jpeg";
     CompressorView.readAsDataURL :=
       Ok (lit "data:image/jpeg;base64,AAAA") |}.

End ServiceExamples.

(** ** Invariants of the editor's view *)

Module EditorInvariants.
Import EditorView EditorHandlers.

(** Every selected id is the id of an image of the batch. *)
Definition selectionWithinBatch (v : View) : Prop :=
  selectedImageIds v ⊆ batchIds v.

(** Two records of the same source image: whatever a run has left in
    them may differ. *)
Definition sameSource (a b : ImageState) : Prop :=
  id a = id b /\ originalDataUrl a = originalDataUrl b
  /\ originalFileName a = originalFileName b
  /\ originalFileType a = originalFileType b.

(** A file that reads, and a file that does not. *)
Definition readable (f : Intake) : Prop :=
  exists url, CompressorView.readAsDataURL (file f) = Ok url.

(** The view of the editor when it mounts. *)
Definition mountWith (s : Settings) : View :=
  {| store := {| images := []; isProcessing := false;
                 progress := {| current := 0; total := 0 |} |};
     selectedImageIds := ∅;
     settings := s |}.

End EditorInvariants.

(** ** Concrete inputs for the editor's handlers *)

Module LoadExamples.
Import GeminiService.

(** A file whose read fails, as [reader.onerror] reports it: an event,
    which has no message. *)
Definition torn : CompressorView.File :=
  {| CompressorView.name := lit "torn.png";
     CompressorView.type := lit "image/png";
     CompressorView.readAsDataURL := Thrown (Error []) |}.

Definition photoIntake : EditorHandlers.Intake :=
  {| EditorHandlers.file := ServiceExamples.photo;
     EditorHandlers.generatedId := lit "holiday.photo.jpeg-1-0.25" |}.

Definition scan : CompressorView.File :=
  {| CompressorView.name := lit "scan.webp";
     CompressorView.type := lit "image/webp";
     CompressorView.readAsDataURL :=
       Ok (lit "data:image/webp;base64,BBBB") |}.

Definition scanIntake : EditorHandlers.Intake :=
  {| EditorHandlers.file := scan;
     EditorHandlers.generatedId := lit "scan.webp-3-0.5" |}.

Definition tornIntake : EditorHandlers.Intake :=
  {| EditorHandlers.file := torn;
     EditorHandlers.generatedId := lit "torn.png-2-0.75" |}.

End LoadExamples.

(** ** The editor after a run *)

Module RunExamples.

(** The view a run over [bothSelected] leaves when the second attempt
    fails. *)
Definition afterFailsSecond : EditorView.View :=
  EditorHandlers.applyCalls Examples.bothSelected
    (EditorView.generateEdits Examples.bothSelected Examples.failsSecond).

End RunExamples.
(** ** Concrete inputs for the upscaler *)

Module UpscalerExamples.
Import GeminiService.

(** An image whose earlier run failed, and one whose earlier run
    succeeded. *)
Definition failedBefore : UpscalerView.ImageState :=
  {| UpscalerView.id := lit "holiday.photo.jpeg-1-0.25";
     UpscalerView.originalFile := ServiceExamples.photo;
     UpscalerView.originalUrl := lit "blob:1";
     UpscalerView.upscaledUrl := None;
     UpscalerView.isLoading := false;
     UpscalerView.error := Some (lit "network down") |}.

Definition doneBefore : UpscalerView.ImageState :=
  {| UpscalerView.id := lit "scan.webp-3-0.5";
     UpscalerView.originalFile := LoadExamples.scan;
     UpscalerView.originalUrl := lit "blob:2";
     UpscalerView.upscaledUrl := Some (lit "data:image/png;base64,CCCC");
     UpscalerView.isLoading := false;
     UpscalerView.error := None |}.

Definition secondTry : Store UpscalerView.ImageState :=
  {| images := [failedBefore; doneBefore]; isProcessing := false;
     progress := {| current := 2; total := 2 |} |}.

End UpscalerExamples.
(** ** What the drop zone lets through *)

Module DropZone.

(** A file whose type starts with [image/]. *)
Definition imageFile (f : CompressorView.File) : Prop :=
  exists subtype, CompressorView.type f = lit "image/" ++ subtype.

Definition notes : CompressorView.File :=
  {| CompressorView.name := lit "notes.txt";
     CompressorView.type := lit "text/plain";
     CompressorView.readAsDataURL := Ok (lit "data:text/plain;base64,DDDD") |}.

End DropZone.
(** ** components/CompressorView: the download of one image *)

Module CompressorDownload.
Import GeminiService CompressorView.

(** [handleDownload]: the name and the address given to the link that
    is clicked; [None] when the handler returns at its guard. *)
Definition handleDownload (v : View) (imageUrl : jsstring)
    (originalFile : File) : result (option (jsstring * jsstring)) :=
  if negb (truthy imageUrl) then Ok None
  else
    match CompressorDownloads.compressedFileName originalFile
            (outputFormat v) (quality v) with
    | Ok filename => Ok (Some (filename, imageUrl))
    | Thrown e => Thrown e
    end.

End CompressorDownload.

(** ** components/EditorView: the run button *)

Module EditorButton.
Import EditorView.

(** [getButtonText] *)
Definition getButtonText (v : View) : jsstring :=
  if isProcessing (store v) then
    cat [lit "Processing... (";
         showZ (Z.of_nat (current (progress (store v)))); lit "/";
         showZ (Z.of_nat (total (progress (store v)))); lit ")"]
  else
    let count := size (selectedImageIds v) in
    if (count =? 0)%nat then lit "Select Images to Edit"
    else cat [lit "Apply Edits to "; showZ (Z.of_nat count);
              lit " Selected Image(s)"].

(** The [disabled] attribute of the button that calls
    [handleGenerateEdits]. *)
Definition runDisabled (v : View) : bool :=
  isProcessing (store v) || (size (selectedImageIds v) =? 0)%nat.

End EditorButton.

(** * Properties *)

Local Open Scope nat_scope.

(** ** Strings *)

Section StringFacts.

Lemma trimStart_whitespace (s : jsstring) :
  Forall (fun c => isWhiteSpace c = true) s -> trimStart s = [].
Proof.
  induction 1 as [|c s Hc _ IH]; simpl; [done|].
  by rewrite Hc.
Qed.

Lemma trim_whitespace (s : jsstring) :
  Forall (fun c => isWhiteSpace c = true) s -> trim s = [].
Proof.
  intros Hs. unfold trim, trimEnd.
  by rewrite (trimStart_whitespace s Hs).
Qed.

Lemma orElse_truthy (a b : jsstring) :
  truthy b = true -> truthy (orElse a b) = true.
Proof.
  intros Hb. unfold orElse. by destruct (truthy a) eqn:Ha.
Qed.

Lemma truthy_nonempty (s : jsstring) : truthy s = true <-> s <> [].
Proof. destruct s; simpl; split; congruence. Qed.

End StringFacts.

(** ** The instruction compiler *)

Section CompilerFacts.
Import GeminiService EditorView.

(** [compile] as a concatenation of optional stages. *)
Lemma compile_unfold fmt q rc cc ra tc fc trc wc :
  compile fmt q rc cc ra tc fc trc wc =
    emitted (negb (ra =? 0)%Z) (Rotation ra)
    ++ emitted (CropConfig.enabled cc)
         (Crop (CropConfig.x cc) (CropConfig.y cc)
            (CropConfig.width cc) (CropConfig.height cc))
    ++ emitted (0 <? length (filterInstructionsOf fc))%nat
         (Filters (filterInstructionsOf fc))
    ++ [Transparency (transparencyOf trc)]
    ++ emitted (WatermarkConfig.enabled wc
                && truthy (trim (WatermarkConfig.text wc)))
         (Watermark (trim (WatermarkConfig.text wc))
            (WatermarkConfig.color wc) (WatermarkConfig.scale wc)
            (WatermarkConfig.opacity wc) (WatermarkConfig.position wc))
    ++ emitted (ResizeConfig.enabled rc) (resizeStage rc)
    ++ emitted (TextOverlayConfig.enabled tc
                && truthy (trim (TextOverlayConfig.content tc)))
         (TextOverlay (trim (TextOverlayConfig.content tc))
            (TextOverlayConfig.color tc) (TextOverlayConfig.font tc)
            (TextOverlayConfig.size tc) (TextOverlayConfig.positionX tc)
            (TextOverlayConfig.positionY tc))
    ++ [encodingOf fmt q].
Proof.
  unfold compile, emitted, resizeStage.
  destruct (negb (ra =? 0)%Z), (CropConfig.enabled cc),
    (0 <? length (filterInstructionsOf fc))%nat,
    (WatermarkConfig.enabled wc && truthy (trim (WatermarkConfig.text wc))),
    (ResizeConfig.enabled rc), (ResizeConfig.maintainAspectRatio rc),
    (TextOverlayConfig.enabled tc
     && truthy (trim (TextOverlayConfig.content tc)));
    reflexivity.
Qed.

(** The prompt is the opening sentence followed by the text of the
    compiled stages, in their order. *)
Lemma finalPrompt_compile up fmt q rc cc ra tc fc trc wc :
  finalPromptOf up fmt q rc cc ra tc fc trc wc =
    promptHeader up
    ++ concat (map renderStage (compile fmt q rc cc ra tc fc trc wc)).
Proof.
  unfold finalPromptOf, compile, transparencyOf, encodingOf.
  generalize (promptHeader up) as header.
  generalize renderStage as render.
  intros render header.
  destruct (negb (ra =? 0)%Z), (CropConfig.enabled cc),
    (0 <? length (filterInstructionsOf fc))%nat,
    (TransparencyConfig.method trc),
    (WatermarkConfig.enabled wc && truthy (trim (WatermarkConfig.text wc))),
    (ResizeConfig.enabled rc), (ResizeConfig.maintainAspectRatio rc),
    (TextOverlayConfig.enabled tc
     && truthy (trim (TextOverlayConfig.content tc))), fmt;
    cbn [app map concat]; rewrite ?app_nil_r, <- ?app_assoc; reflexivity.
Qed.

End CompilerFacts.

Section StageOrder.
Import GeminiService EditorView.

Lemma emitted_kind_sublist b s :
  map kindOf (emitted b s) `sublist_of` [kindOf s].
Proof.
  destruct b; simpl; [done|]. apply sublist_nil_l.
Qed.

Lemma emitted_kind_not_elem b s k :
  kindOf s <> k -> k ∉ map kindOf (emitted b s).
Proof.
  intros Hk. destruct b; simpl; [|apply not_elem_of_nil].
  intros Hin. apply list_elem_of_singleton in Hin. congruence.
Qed.

Lemma Forall_of_sublist {A} (P : A -> Prop) (l1 l2 : list A) :
  l1 `sublist_of` l2 -> Forall P l2 -> Forall P l1.
Proof.
  induction 1 as [|x l1 l2 Hsub IH|x l1 l2 Hsub IH]; intros HP.
  - constructor.
  - apply Forall_cons in HP as [Hx HP]. constructor; auto.
  - apply Forall_cons in HP as [_ HP]. auto.
Qed.

Lemma StronglySorted_sublist {A} (R : relation A) (l1 l2 : list A) :
  l1 `sublist_of` l2 -> StronglySorted R l2 -> StronglySorted R l1.
Proof.
  induction 1 as [|x l1 l2 Hsub IH|x l1 l2 Hsub IH]; intros Hs.
  - constructor.
  - apply StronglySorted_inv in Hs as [Hs Hx]. constructor; [auto|].
    eapply Forall_of_sublist; eauto.
  - apply StronglySorted_inv in Hs as [Hs _]. auto.
Qed.

Lemma sublist_map {A B} (f : A -> B) (l1 l2 : list A) :
  l1 `sublist_of` l2 -> map f l1 `sublist_of` map f l2.
Proof. induction 1; simpl; by constructor. Qed.

Lemma stageOrder_sorted :
  StronglySorted lt (map stageRank stageOrder).
Proof. unfold stageOrder; simpl. repeat constructor; lia. Qed.

Lemma compile_kinds_sublist fmt q rc cc ra tc fc trc wc :
  map kindOf (compile fmt q rc cc ra tc fc trc wc)
    `sublist_of` stageOrder.
Proof.
  rewrite compile_unfold, !map_app.
  change stageOrder with
    ([KRotation] ++ [KCrop] ++ [KFilters] ++ [KTransparency]
     ++ [KWatermark] ++ [KResize] ++ [KTextOverlay] ++ [KEncoding]).
  repeat apply sublist_app;
    try (apply (emitted_kind_sublist _ (Rotation _)));
    try (apply (emitted_kind_sublist _ (Crop _ _ _ _)));
    try (apply (emitted_kind_sublist _ (Filters _)));
    try (apply (emitted_kind_sublist _ (Watermark _ _ _ _ _)));
    try (apply (emitted_kind_sublist _ (TextOverlay _ _ _ _ _ _)));
    try (apply (emitted_kind_sublist _ (Resize _ _ _)));
    simpl; try reflexivity.
  unfold encodingOf. by destruct fmt.
Qed.

End StageOrder.

Section CompilerClaims.
Import GeminiService EditorView.

(** C1.  For every settings value the prompt is the opening sentence
    followed by the compiled stages, and the kinds of those stages form
    a subsequence of the fixed order rotation, crop, filters,
    transparency, watermark, resize, text overlay, encoding: whatever is
    present keeps that relative order, and their ranks increase
    strictly.  For every source image the request handed to the
    capability carries exactly that prompt. *)
Theorem stage_order_invariant (settings : Settings) :
  promptOfSettings settings =
    promptHeader (userPrompt settings)
    ++ concat (map renderStage (compileSettings settings))
  /\ map kindOf (compileSettings settings) `sublist_of` stageOrder
  /\ StronglySorted lt
       (map stageRank (map kindOf (compileSettings settings)))
  /\ forall (service : nat -> Capability) (i : nat) (image : ImageState),
       attempt settings service i image
       = match
           service i
             {| reqData := dataUrlToBase64 (originalDataUrl image);
                reqMimeType := originalFileType image;
                reqText :=
                  promptHeader (userPrompt settings)
                  ++ concat (map renderStage (compileSettings settings)) |}
         with
         | Ok response =>
             extractImage (showFormat (outputFormat settings))
               noImageGenerated response
         | Thrown e => Thrown e
         end.
Proof.
  split; [apply finalPrompt_compile|].
  assert (Hsub : map kindOf (compileSettings settings)
                   `sublist_of` stageOrder)
    by apply compile_kinds_sublist.
  split; [exact Hsub|]. split.
  - eapply StronglySorted_sublist; [|apply stageOrder_sorted].
    by apply sublist_map.
  - intros service i image. unfold attempt, editImageWithGemini.
    rewrite finalPrompt_compile. reflexivity.
Qed.

(** C2.  With rotation 0, crop, grayscale, watermark, resize and text
    overlay disabled, and brightness and contrast at 100, the compiled
    sequence is exactly the transparency stage followed by the encoding
    stage, and the prompt is the opening sentence and their two
    texts. *)
Theorem only_unconditional_stages (settings : Settings) :
  rotationAngle settings = 0%Z ->
  CropConfig.enabled (cropConfig settings) = false ->
  Grayscale.enabled (FilterConfig.grayscale (filterConfig settings))
    = false ->
  WatermarkConfig.enabled (watermarkConfig settings) = false ->
  ResizeConfig.enabled (resizeConfig settings) = false ->
  TextOverlayConfig.enabled (textOverlayConfig settings) = false ->
  FilterConfig.brightness (filterConfig settings) = 100%Z ->
  FilterConfig.contrast (filterConfig settings) = 100%Z ->
  compileSettings settings =
    [Transparency (transparencyOf (transparencyConfig settings));
     encodingOf (outputFormat settings) (outputQuality settings)]
  /\ map kindOf (compileSettings settings) = [KTransparency; KEncoding]
  /\ promptOfSettings settings =
       promptHeader (userPrompt settings)
       ++ renderStage
            (Transparency (transparencyOf (transparencyConfig settings)))
       ++ renderStage
            (encodingOf (outputFormat settings) (outputQuality settings)).
Proof.
  intros Hrot Hcrop Hgray Hwm Hrs Hto Hbr Hct.
  assert (Hc : compileSettings settings =
    [Transparency (transparencyOf (transparencyConfig settings));
     encodingOf (outputFormat settings) (outputQuality settings)]).
  { unfold compileSettings. rewrite compile_unfold.
    unfold filterInstructionsOf.
    rewrite Hrot, Hcrop, Hgray, Hwm, Hrs, Hto, Hbr, Hct. reflexivity. }
  split; [exact Hc|]. split.
  - rewrite Hc. unfold encodingOf.
    by destruct (outputFormat settings).
  - unfold promptOfSettings. rewrite finalPrompt_compile.
    fold (compileSettings settings). rewrite Hc. simpl.
    by rewrite app_nil_r.
Qed.

Lemma only_unconditional_stages_default :
  compileSettings defaultSettings =
    [Transparency PreserveAlpha; LosslessEncoding ImagePng]
  /\ map kindOf (compileSettings defaultSettings)
     = [KTransparency; KEncoding]
  /\ promptOfSettings defaultSettings =
       promptHeader (userPrompt defaultSettings)
       ++ renderStage (Transparency PreserveAlpha)
       ++ renderStage (LosslessEncoding ImagePng).
Proof.
  apply (only_unconditional_stages defaultSettings); reflexivity.
Defined.

End CompilerClaims.

Section ConditionalStages.
Import GeminiService EditorView.

Lemma existsb_emitted_other b s :
  hasGrayscale s = false -> existsb hasGrayscale (emitted b s) = false.
Proof. intros Hs. destruct b; simpl; [by rewrite Hs|done]. Qed.

Lemma filterInstructions_grayscale fc :
  existsb isGrayscale (filterInstructionsOf fc)
  = Grayscale.enabled (FilterConfig.grayscale fc).
Proof.
  unfold filterInstructionsOf.
  destruct (Grayscale.enabled (FilterConfig.grayscale fc)),
    (negb (FilterConfig.brightness fc =? 100)%Z),
    (negb (FilterConfig.contrast fc =? 100)%Z); reflexivity.
Qed.

Lemma existsb_filters_stage fc :
  existsb hasGrayscale
    (emitted (0 <? length (filterInstructionsOf fc))%nat
       (Filters (filterInstructionsOf fc)))
  = Grayscale.enabled (FilterConfig.grayscale fc).
Proof.
  rewrite <- filterInstructions_grayscale.
  destruct (filterInstructionsOf fc) as [|i l]; simpl; [done|].
  by rewrite orb_false_r.
Qed.

(** C3, as the code has it.  The grayscale instruction is part of the
    compiled sequence exactly when grayscale is enabled; the intensity
    plays no part in the decision, and an enabled grayscale filter is
    emitted first among the filter instructions with the intensity it
    was given. *)
Theorem grayscale_emitted_iff_enabled (settings : Settings) :
  existsb hasGrayscale (compileSettings settings)
  = Grayscale.enabled (FilterConfig.grayscale (filterConfig settings))
  /\ filter (fun i => isGrayscale i = true)
       (filterInstructionsOf (filterConfig settings))
     = if Grayscale.enabled (FilterConfig.grayscale (filterConfig settings))
       then [GrayscaleFilter
               (Grayscale.intensity
                  (FilterConfig.grayscale (filterConfig settings)))]
       else [].
Proof.
  split.
  - unfold compileSettings. rewrite compile_unfold.
    rewrite !existsb_app, existsb_filters_stage.
    rewrite !existsb_emitted_other by reflexivity.
    simpl. unfold encodingOf.
    destruct (outputFormat settings); simpl;
      by rewrite ?orb_false_r.
  - unfold filterInstructionsOf.
    destruct (Grayscale.enabled
                (FilterConfig.grayscale (filterConfig settings))),
      (negb (FilterConfig.brightness (filterConfig settings) =? 100)%Z),
      (negb (FilterConfig.contrast (filterConfig settings) =? 100)%Z);
      reflexivity.
Qed.

(** C3, as stated, fails: with grayscale enabled and intensity 0 the
    filter stage is emitted and asks for a grayscale filter of 0%. *)
Lemma grayscale_zero_intensity_emitted :
  Grayscale.intensity
    (FilterConfig.grayscale (filterConfig Examples.grayscaleAtZero)) = 0%Z
  /\ compileSettings Examples.grayscaleAtZero =
       [Filters [GrayscaleFilter 0]; Transparency PreserveAlpha;
        LosslessEncoding ImagePng]
  /\ existsb hasGrayscale (compileSettings Examples.grayscaleAtZero)
     = true.
Proof. repeat split. Qed.

Lemma emitted_false_kinds s k :
  k ∉ map kindOf (emitted false s).
Proof. simpl. apply not_elem_of_nil. Qed.

Lemma compile_kind_absent fmt q rc cc ra tc fc trc wc k :
  (k = KWatermark
   /\ WatermarkConfig.enabled wc
      && truthy (trim (WatermarkConfig.text wc)) = false)
  \/ (k = KTextOverlay
      /\ TextOverlayConfig.enabled tc
         && truthy (trim (TextOverlayConfig.content tc)) = false) ->
  k ∉ map kindOf (compile fmt q rc cc ra tc fc trc wc).
Proof.
  intros Hk. rewrite compile_unfold, !map_app.
  rewrite !not_elem_of_app.
  destruct Hk as [[-> Hoff]|[-> Hoff]]; rewrite Hoff;
    repeat split;
    try apply emitted_false_kinds;
    try (apply emitted_kind_not_elem; simpl; congruence);
    try (simpl; intros Hin; apply list_elem_of_singleton in Hin;
         revert Hin; unfold encodingOf; destruct fmt; simpl; congruence).
Qed.

(** C4.  A watermark text made only of whitespace leaves no watermark
    stage in the compiled sequence, and a text-overlay content made
    only of whitespace leaves no text-overlay stage, whatever the
    enabled flags are. *)
Theorem whitespace_text_disables_stage (settings : Settings) :
  (Forall (fun c => isWhiteSpace c = true)
     (WatermarkConfig.text (watermarkConfig settings)) ->
   KWatermark ∉ map kindOf (compileSettings settings))
  /\ (Forall (fun c => isWhiteSpace c = true)
        (TextOverlayConfig.content (textOverlayConfig settings)) ->
      KTextOverlay ∉ map kindOf (compileSettings settings)).
Proof.
  split; intros Hws; apply compile_kind_absent; [left|right];
    (split; [reflexivity|]); rewrite (trim_whitespace _ Hws); simpl;
    apply andb_false_r.
Qed.

Lemma whitespace_text_disables_stage_blank :
  WatermarkConfig.enabled (watermarkConfig Examples.blankTexts) = true
  /\ TextOverlayConfig.enabled (textOverlayConfig Examples.blankTexts)
     = true
  /\ (KWatermark ∉ map kindOf (compileSettings Examples.blankTexts))
  /\ (KTextOverlay ∉ map kindOf (compileSettings Examples.blankTexts)).
Proof.
  split; [reflexivity|]. split; [reflexivity|]. split.
  - apply (proj1 (whitespace_text_disables_stage Examples.blankTexts)).
    simpl. repeat constructor.
  - apply (proj2 (whitespace_text_disables_stage Examples.blankTexts)).
    simpl. repeat constructor.
Defined.

End ConditionalStages.

(** ** Reading the capability's response *)

Section ResponseFacts.
Import GeminiService.

Lemma firstInlineData_None (ps : list Part) :
  firstInlineData ps = None <-> Forall noInline ps.
Proof.
  induction ps as [|p ps IH]; simpl.
  - split; [constructor|done].
  - destruct (inlineData p) as [blob|] eqn:Hp.
    + split; [done|]. intros HF. apply Forall_cons in HF as [Hn _].
      unfold noInline in Hn. congruence.
    + rewrite IH. split.
      * intros HF. by constructor.
      * intros HF. by apply Forall_cons in HF as [_ HF].
Qed.

Lemma firstInlineData_first (pre post : list Part) part blob :
  Forall noInline pre -> inlineData part = Some blob ->
  firstInlineData (pre ++ part :: post) = Some blob.
Proof.
  induction 1 as [|p pre Hp _ IH]; intros Hpart; simpl.
  - by rewrite Hpart.
  - unfold noInline in Hp. rewrite Hp. auto.
Qed.

(** How the shared loop ends, for every response: with the data of
    the first part carrying inline data when the first candidate has a
    content with parts, with the caller's own error exactly when that
    candidate's parts carry none, and with a [TypeError] when there is
    no first candidate, no content or no parts to read. *)
Lemma extractImage_spec mime noImage (response : Response) :
  (forall c cs ct ps,
      candidates response = Some (c :: cs) ->
      content c = Some ct -> parts ct = Some ps ->
      (forall pre part blob post,
          ps = pre ++ part :: post ->
          Forall noInline pre -> inlineData part = Some blob ->
          extractImage mime noImage response
          = Ok (cat [lit "data:"; mime; lit ";base64,";
                     showOpt (data blob)]))
      /\ (extractImage mime noImage response = Thrown (Error noImage)
          <-> Forall noInline ps))
  /\ (candidates response = None \/ candidates response = Some []
      \/ (exists c cs,
            candidates response = Some (c :: cs)
            /\ (content c = None
                \/ exists ct, content c = Some ct /\ parts ct = None)) ->
      exists msg, extractImage mime noImage response
                  = Thrown (TypeError msg))
  /\ (extractImage mime noImage response = Thrown (Error noImage)
      <-> exists c cs ct ps,
            candidates response = Some (c :: cs)
            /\ content c = Some ct /\ parts ct = Some ps
            /\ Forall noInline ps).
Proof.
  assert (Hgood : forall c cs ct ps,
             candidates response = Some (c :: cs) ->
             content c = Some ct -> parts ct = Some ps ->
             extractImage mime noImage response
             = match firstInlineData ps with
               | Some blob => Ok (dataUrl mime blob)
               | None => Thrown (Error noImage)
               end).
  { intros c cs ct ps Hcs Hct Hps.
    unfold extractImage, firstCandidateParts. by rewrite Hcs, Hct, Hps. }
  assert (Hbad : candidates response = None \/ candidates response = Some []
                 \/ (exists c cs,
                       candidates response = Some (c :: cs)
                       /\ (content c = None
                           \/ exists ct,
                                content c = Some ct /\ parts ct = None)) ->
                 exists msg, extractImage mime noImage response
                             = Thrown (TypeError msg)).
  { unfold extractImage, firstCandidateParts.
    intros [Hno|[Hno|(c & cs & Hcs & [Hno|(ct & Hct & Hno)])]].
    - rewrite Hno. by eexists.
    - rewrite Hno. by eexists.
    - rewrite Hcs, Hno. by eexists.
    - rewrite Hcs, Hct, Hno. by eexists. }
  assert (Hiff : forall ps,
             match firstInlineData ps with
             | Some blob => Ok (dataUrl mime blob)
             | None => Thrown (Error noImage)
             end = Thrown (Error noImage)
             <-> Forall noInline ps).
  { intros ps. rewrite <- firstInlineData_None.
    destruct (firstInlineData ps) as [blob|]; split; intros Heq; done. }
  split; [|split; [exact Hbad|]].
  - intros c cs ct ps Hcs Hct Hps.
    rewrite (Hgood c cs ct ps Hcs Hct Hps). split; [|apply Hiff].
    intros pre part blob post -> Hpre Hpart.
    by rewrite (firstInlineData_first pre post part blob Hpre Hpart).
  - split.
    + intros Hthrown.
      destruct (candidates response) as [[|c cs]|] eqn:Hcs.
      * destruct Hbad as [msg Hmsg]; [by right; left|]. congruence.
      * destruct (content c) as [ct|] eqn:Hct.
        -- destruct (parts ct) as [ps|] eqn:Hps.
           ++ exists c, cs, ct, ps. repeat split; try done.
              apply Hiff. by rewrite <- (Hgood c cs ct ps).
           ++ destruct Hbad as [msg Hmsg]; [|congruence].
              right; right. exists c, cs. split; [done|]. right.
              by exists ct.
        -- destruct Hbad as [msg Hmsg]; [|congruence].
           right; right. exists c, cs. split; [done|]. by left.
      * destruct Hbad as [msg Hmsg]; [by left|]. congruence.
    + intros (c & cs & ct & ps & Hcs & Hct & Hps & Hnone).
      rewrite (Hgood c cs ct ps Hcs Hct Hps). by apply Hiff.
Qed.

(** C10, as the code has it.  When the capability answers with a
    response whose first candidate is there and has a content with
    parts, the call returns the data URL made of the requested output
    format and the data of the first part of that candidate that
    carries inline data, whatever MIME type the part declares (and the
    text [undefined] for a blob without data); and it throws
    [No image was generated.] exactly when no part of that candidate
    carries inline data.  For every other response, one without
    candidates or whose first candidate has no content or no parts, it
    throws a [TypeError]; so over all responses it throws
    [No image was generated.] exactly when the first candidate has
    parts and none of them carries inline data. *)
Theorem first_inline_image_returned
    up fmt q rc cc ra tc fc trc wc (ai : Capability) base64 mime
    (response : Response) :
  ai {| reqData := base64; reqMimeType := mime;
        reqText := finalPromptOf up fmt q rc cc ra tc fc trc wc |}
    = Ok response ->
  (forall c cs ct ps,
      candidates response = Some (c :: cs) ->
      content c = Some ct -> parts ct = Some ps ->
      (forall pre part blob post,
          ps = pre ++ part :: post ->
          Forall noInline pre -> inlineData part = Some blob ->
          editImageWithGemini up fmt q rc cc ra tc fc trc wc ai base64 mime
          = Ok (cat [lit "data:"; showFormat fmt; lit ";base64,";
                     showOpt (data blob)]))
      /\ (editImageWithGemini up fmt q rc cc ra tc fc trc wc ai base64 mime
          = Thrown (Error (lit "No image was generated."))
          <-> Forall noInline ps))
  /\ (candidates response = None \/ candidates response = Some []
      \/ (exists c cs,
            candidates response = Some (c :: cs)
            /\ (content c = None
                \/ exists ct, content c = Some ct /\ parts ct = None)) ->
      exists msg,
        editImageWithGemini up fmt q rc cc ra tc fc trc wc ai base64 mime
        = Thrown (TypeError msg))
  /\ (editImageWithGemini up fmt q rc cc ra tc fc trc wc ai base64 mime
      = Thrown (Error (lit "No image was generated."))
      <-> exists c cs ct ps,
            candidates response = Some (c :: cs)
            /\ content c = Some ct /\ parts ct = Some ps
            /\ Forall noInline ps).
Proof.
  intros Hai. unfold editImageWithGemini. rewrite Hai.
  apply (extractImage_spec (showFormat fmt) noImageGenerated response).
Qed.

Lemma first_inline_image_returned_jpeg_as_png :
  Examples.editWithDefaults Examples.textThenImages
  = Ok (lit "data:image/png;base64,AAAA")
  /\ exists msg,
       Examples.editWithDefaults Examples.blockedCandidate
       = Thrown (TypeError msg).
Proof.
  unfold Examples.editWithDefaults. split.
  - refine (proj1
              (proj1
                 (first_inline_image_returned _ _ _ _ _ _ _ _ _ _
                    (fun _ => Ok Examples.textThenImages) _ _
                    Examples.textThenImages eq_refl)
                 Examples.imageCandidate []
                 {| parts := Some [Examples.textPart; Examples.jpegPart;
                                   Examples.pngPart] |}
                 [Examples.textPart; Examples.jpegPart; Examples.pngPart]
                 eq_refl eq_refl eq_refl)
              [Examples.textPart] Examples.jpegPart Examples.jpegBlob
              [Examples.pngPart] eq_refl _ eq_refl).
    repeat constructor.
  - refine (proj1
              (proj2
                 (first_inline_image_returned _ _ _ _ _ _ _ _ _ _
                    (fun _ => Ok Examples.blockedCandidate) _ _
                    Examples.blockedCandidate eq_refl))
              _).
    right; right. exists {| content := None |}, []. split; [reflexivity|].
    by left.
Defined.

(** C10, as stated, fails: a response without candidates has no part
    carrying inline data, and the call throws a [TypeError] rather than
    [No image was generated.]. *)
Lemma no_candidates_type_error :
  candidates Examples.noCandidates = Some []
  /\ Examples.editWithDefaults Examples.noCandidates
     = Thrown (TypeError (lit
         "Cannot read properties of undefined (reading 'content')")).
Proof. split; reflexivity. Qed.

End ResponseFacts.

(** ** Runs over the shared store *)

Section BatchFacts.
Context {I : Type} `{WorkItemLaws I}.

Implicit Types (st : Store I) (img : I) (acts : list Action).

Lemma runFrom_app st acts acts' :
  runFrom st (acts ++ acts') = runFrom (runFrom st acts) acts'.
Proof. unfold runFrom. apply foldl_app. Qed.

Lemma runFrom_cons st a acts :
  runFrom st (a :: acts) = runFrom (reduce a st) acts.
Proof. reflexivity. Qed.

Lemma images_reduce a st :
  images (reduce a st) = map (reduceImage a) (images st).
Proof.
  destruct a; simpl; try reflexivity;
    symmetry; apply map_id.
Qed.

Lemma imageAfter_cons a acts img :
  imageAfter (a :: acts) img = imageAfter acts (reduceImage a img).
Proof. reflexivity. Qed.

Lemma imageAfter_app acts acts' img :
  imageAfter (acts ++ acts') img = imageAfter acts' (imageAfter acts img).
Proof. unfold imageAfter. apply foldl_app. Qed.

Lemma images_runFrom st acts :
  images (runFrom st acts) = map (imageAfter acts) (images st).
Proof.
  revert st. induction acts as [|a acts IH]; intros st.
  - simpl. symmetry. apply map_id.
  - rewrite runFrom_cons, IH, images_reduce, map_map. reflexivity.
Qed.

Lemma lookup_runFrom st acts k img :
  images st !! k = Some img ->
  images (runFrom st acts) !! k = Some (imageAfter acts img).
Proof.
  intros Hk. rewrite images_runFrom.
  change (map (imageAfter acts) (images st))
    with (imageAfter acts <$> images st).
  by rewrite list_lookup_fmap, Hk.
Qed.

Lemma reduceImage_id a img : itemId (reduceImage a img) = itemId img.
Proof.
  destruct a; simpl; try reflexivity.
  - destruct (which (itemId img)); [apply startLoading_id|done].
  - destruct (JS.eqb (itemId img) id); [apply finishOutput_id|done].
  - destruct (JS.eqb (itemId img) id); [apply finishError_id|done].
Qed.

Lemma reduceImage_untouched a img :
  touches a (itemId img) = false -> reduceImage a img = img.
Proof.
  destruct a; simpl; try reflexivity; by intros ->.
Qed.

Lemma imageAfter_untouched acts img :
  Forall (fun a => touches a (itemId img) = false) acts ->
  imageAfter acts img = img.
Proof.
  induction 1 as [|a acts Ha _ IH]; [done|].
  by rewrite imageAfter_cons, (reduceImage_untouched a img Ha).
Qed.

Lemma settled_id fb o img : itemId (settled fb o img) = itemId img.
Proof.
  destruct o; simpl; [apply finishOutput_id|apply finishError_id].
Qed.

Lemma settled_loading fb o img : itemLoading (settled fb o img) = false.
Proof.
  destruct o; simpl; [apply finishOutput_loading|apply finishError_loading].
Qed.

Lemma eqb_refl (a : jsstring) : JS.eqb a a = true.
Proof. unfold JS.eqb. by apply bool_decide_eq_true. Qed.

Lemma eqb_ne (a b : jsstring) : a <> b -> JS.eqb a b = false.
Proof. unfold JS.eqb. intros Hab. by apply bool_decide_eq_false. Qed.

Lemma reduceImage_settleCall_hit fb o img :
  reduceImage (settleCall fb (itemId img) o) img = settled fb o img.
Proof. destruct o; simpl; by rewrite eqb_refl. Qed.

Lemma reduceImage_settleCall_miss fb id o img :
  itemId img <> id -> reduceImage (settleCall fb id o) img = img.
Proof. intros Hne. destruct o; simpl; by rewrite (eqb_ne _ _ Hne). Qed.

Lemma imageAfter_loop_other fb i todo img :
  itemId img ∉ map fst todo ->
  imageAfter (loopCalls fb i todo) img = img.
Proof.
  revert i. induction todo as [|[id o] todo IH]; intros i Hnotin; [done|].
  simpl in Hnotin. apply not_elem_of_cons in Hnotin as [Hne Hnotin].
  simpl loopCalls. rewrite !imageAfter_cons.
  rewrite (reduceImage_settleCall_miss fb id o img Hne). simpl.
  by apply IH.
Qed.

Lemma imageAfter_loop_hit fb i todo m o img :
  NoDup (map fst todo) ->
  todo !! m = Some (itemId img, o) ->
  imageAfter (loopCalls fb i todo) img = settled fb o img.
Proof.
  revert i m. induction todo as [|[id o'] todo IH]; intros i m Hnd Hm;
    [done|].
  simpl in Hnd. apply NoDup_cons in Hnd as [Hnotin Hnd].
  simpl loopCalls. rewrite !imageAfter_cons.
  destruct m as [|m]; simpl in Hm.
  - injection Hm as -> ->.
    rewrite reduceImage_settleCall_hit. simpl.
    apply imageAfter_loop_other. by rewrite settled_id.
  - assert (Hne : itemId img <> id).
    { intros Heq. subst id. apply Hnotin.
      apply list_elem_of_lookup_2 in Hm.
      change (map fst todo) with (fst <$> todo).
      apply list_elem_of_fmap. by exists (itemId img, o). }
    rewrite (reduceImage_settleCall_miss fb id o' img Hne). simpl.
    by eapply IH.
Qed.

End BatchFacts.

Section RunFacts.
Context {I : Type} `{WorkItemLaws I}.

Implicit Types (st : Store I) (img : I) (acts : list Action).

Variables (which : jsstring -> bool)
  (attempt : nat -> I -> result jsstring) (fb : jsstring).

Lemma outcomesFrom_fst i (todo : list I) :
  map fst (outcomesFrom attempt i todo) = map itemId todo.
Proof.
  revert i. induction todo as [|image todo IH]; intros i; simpl;
    [done|]. by rewrite IH.
Qed.

Lemma outcomesFrom_length i (todo : list I) :
  length (outcomesFrom attempt i todo) = length todo.
Proof.
  revert i. induction todo as [|image todo IH]; intros i; simpl;
    [done|]. by rewrite IH.
Qed.

Lemma outcomesFrom_lookup i (todo : list I) m image :
  todo !! m = Some image ->
  outcomesFrom attempt i todo !! m
  = Some (itemId image, attempt (i + m) image).
Proof.
  revert i m. induction todo as [|image' todo IH]; intros i m Hm;
    [done|].
  destruct m as [|m]; simpl in *.
  - injection Hm as ->. by rewrite Nat.add_0_r.
  - rewrite (IH (i + 1) m Hm). do 3 f_equal. lia.
Qed.

Lemma filter_rank (P : I -> Prop) `{!forall x, Decision (P x)}
    (imgs : list I) k img :
  imgs !! k = Some img -> P img ->
  filter P imgs !! length (filter P (take k imgs)) = Some img.
Proof.
  intros Hk HP.
  transitivity
    (filter P (take k imgs ++ img :: drop (S k) imgs)
       !! length (filter P (take k imgs))).
  { by rewrite (take_drop_middle imgs k img Hk). }
  rewrite filter_app, (filter_cons_True P img _ HP).
  by apply list_lookup_middle.
Qed.

Lemma NoDup_filter_ids (P : I -> Prop) `{!forall x, Decision (P x)}
    (imgs : list I) :
  NoDup (map itemId imgs) -> NoDup (map itemId (filter P imgs)).
Proof.
  intros Hnd. apply (sublist_NoDup _ _ Hnd).
  apply sublist_map, sublist_filter.
Qed.

Lemma NoDup_take_fst {A B} (l : list (A * B)) j :
  NoDup (map fst l) -> NoDup (map fst (take j l)).
Proof.
  intros Hnd. apply (sublist_NoDup _ _ Hnd).
  apply sublist_map, sublist_take.
Qed.

Lemma take_prefix_misses {A B} (l : list (A * B)) j m a b :
  NoDup (map fst l) -> l !! m = Some (a, b) -> j <= m ->
  a ∉ map fst (take j l).
Proof.
  intros Hnd Hm Hjm Hin.
  rewrite <- (take_drop j l), map_app in Hnd.
  apply NoDup_app in Hnd as (_ & Hdisj & _).
  apply (Hdisj a Hin).
  change (map fst (drop j l)) with (fst <$> drop j l).
  apply list_elem_of_fmap. exists (a, b). split; [done|].
  apply list_elem_of_lookup. exists (m - j).
  rewrite lookup_drop. by replace (j + (m - j)) with m by lia.
Qed.

Lemma imageAfter_start n img :
  imageAfter (startCalls which n) img
  = if which (itemId img) then startLoading img else img.
Proof. reflexivity. Qed.

Lemma picked_ids (imgs : list I) id :
  id ∈ map itemId (picked which imgs) -> which id = true.
Proof.
  intros Hin. change (map itemId (picked which imgs))
    with (itemId <$> picked which imgs) in Hin.
  apply list_elem_of_fmap in Hin as (img & -> & Hin).
  unfold picked in Hin. by apply list_elem_of_filter in Hin as [Hw _].
Qed.

(** The record at position [k] once the loop has finished [j] of its
    iterations: untouched if the run does not pick it, settled by its
    own attempt if its turn has come, and loading otherwise. *)
Lemma prefix_image st j k img :
  NoDup (map itemId (images st)) ->
  images st !! k = Some img ->
  images
    (runFrom st (runPrefix which fb (outcomes which attempt (images st)) j))
  !! k
  = Some
      (if which (itemId img)
       then
         if rank which (images st) k <? j
         then settled fb (attempt (rank which (images st) k) img)
                (startLoading img)
         else startLoading img
       else img).
Proof.
  intros Hnd Hk. rewrite (lookup_runFrom st _ k img Hk). f_equal.
  unfold runPrefix. rewrite imageAfter_app, imageAfter_start.
  assert (Hndp : NoDup (map fst (outcomes which attempt (images st)))).
  { unfold outcomes. rewrite outcomesFrom_fst.
    by apply NoDup_filter_ids. }
  destruct (which (itemId img)) eqn:Hw.
  - assert (Hm : outcomes which attempt (images st) !! rank which (images st) k
                 = Some (itemId img,
                         attempt (rank which (images st) k) img)).
    { unfold outcomes. erewrite outcomesFrom_lookup;
        [reflexivity|]. unfold picked, rank.
      by apply (filter_rank (fun img => which (itemId img) = true)). }
    destruct (rank which (images st) k <? j) eqn:Hlt.
    + apply Nat.ltb_lt in Hlt.
      eapply imageAfter_loop_hit; [by apply NoDup_take_fst|].
      rewrite startLoading_id, lookup_take_lt by done. exact Hm.
    + apply Nat.ltb_ge in Hlt.
      apply imageAfter_loop_other. rewrite startLoading_id.
      by eapply take_prefix_misses.
  - apply imageAfter_loop_other. intros Hin.
    assert (Hin' : itemId img ∈ map fst (outcomes which attempt (images st))).
    { eapply elem_of_sublist; [exact Hin|].
      apply sublist_map, sublist_take. }
    unfold outcomes in Hin'. rewrite outcomesFrom_fst in Hin'.
    apply picked_ids in Hin'. congruence.
Qed.

End RunFacts.

Section ProgressFacts.
Context {I : Type} `{WorkItemLaws I}.

Implicit Types (st : Store I) (img : I) (acts : list Action).

Lemma progress_settleCall fb id o st :
  progress (reduce (settleCall fb id o) st) = progress st.
Proof. by destruct o. Qed.

Lemma isProcessing_settleCall fb id o st :
  isProcessing (reduce (settleCall fb id o) st) = isProcessing st.
Proof. by destruct o. Qed.

Lemma total_loop fb i todo st :
  total (progress (runFrom st (loopCalls fb i todo))) = total (progress st).
Proof.
  revert i st. induction todo as [|[id o] todo IH]; intros i st; [done|].
  simpl loopCalls. rewrite !runFrom_cons, IH. simpl.
  by rewrite progress_settleCall.
Qed.

Lemma current_loop fb i todo st :
  todo <> [] ->
  current (progress (runFrom st (loopCalls fb i todo))) = i + length todo.
Proof.
  revert i st. induction todo as [|[id o] todo IH]; intros i st Hne; [done|].
  simpl loopCalls. rewrite !runFrom_cons.
  destruct todo as [|p todo].
  - simpl. lia.
  - rewrite IH by done. simpl. lia.
Qed.

(** The stores published by the progress calls of the loop are the
    stores reached after each of its iterations. *)
Lemma progressStores_loop fb i todo st :
  progressStores st (loopCalls fb i todo)
  = map (fun j => runFrom st (loopCalls fb i (take j todo)))
      (seq 1 (length todo)).
Proof.
  revert i st. induction todo as [|[id o] todo IH]; intros i st; [done|].
  simpl loopCalls.
  assert (Hs : isProgressCall (settleCall fb id o) = false) by by destruct o.
  cbn [progressStores]. rewrite Hs. cbn [isProgressCall app].
  rewrite IH. cbn [length seq map]. f_equal.
  rewrite <- (seq_shift (length todo) 1), map_map.
  apply map_ext. intros j. reflexivity.
Qed.

Lemma progressStores_app st acts acts' :
  progressStores st (acts ++ acts')
  = progressStores st acts ++ progressStores (runFrom st acts) acts'.
Proof.
  revert st. induction acts as [|a acts IH]; intros st; [done|].
  cbn [app progressStores]. rewrite IH, runFrom_cons.
  by rewrite <- app_assoc.
Qed.

(** The stores published by the progress calls of a whole run: the one
    that resets the counter, then one per iteration. *)
Lemma progressStores_run which fb todo st :
  progressStores st (runCalls which fb todo)
  = runFrom st [SetIsProcessing true;
                SetProgress {| current := 0; total := length todo |}]
    :: map (fun j => runFrom st (runPrefix which fb todo j))
         (seq 1 (length todo)).
Proof.
  unfold runCalls. rewrite !progressStores_app.
  cbn [startCalls progressStores isProgressCall app].
  rewrite progressStores_loop. cbn [progressStores isProgressCall app].
  rewrite app_nil_r. reflexivity.
Qed.

Lemma progress_prefix which fb todo st j :
  j <= length todo ->
  progress (runFrom st (runPrefix which fb todo j))
  = {| current := j; total := length todo |}.
Proof.
  intros Hj. unfold runPrefix. rewrite runFrom_app.
  set (s := runFrom st (startCalls which (length todo))).
  assert (Hs : progress s = {| current := 0; total := length todo |})
    by reflexivity.
  pose proof (total_loop fb 0 (take j todo) s) as Ht.
  destruct j as [|j].
  - rewrite take_0. simpl. exact Hs.
  - assert (Hne : take (S j) todo <> []).
    { destruct todo; simpl in *; [lia|done]. }
    pose proof (current_loop fb 0 (take (S j) todo) s Hne) as Hc.
    rewrite length_take_le in Hc by done.
    destruct (progress (runFrom s (loopCalls fb 0 (take (S j) todo))))
      as [c t]. simpl in Hc, Ht. rewrite Hc, Ht. reflexivity.
Qed.

(** The progress values a run publishes: 0 of n, 1 of n, ..., n of n. *)
Lemma publishedProgress_run which fb todo st :
  publishedProgress st (runCalls which fb todo)
  = map (fun j => {| current := j; total := length todo |})
      (seq 0 (S (length todo))).
Proof.
  unfold publishedProgress. rewrite progressStores_run.
  cbn [map seq]. f_equal. rewrite map_map.
  apply map_ext_in. intros j Hj. apply in_seq in Hj.
  apply progress_prefix. lia.
Qed.

End ProgressFacts.

Section TraceFacts.
Context {I : Type} `{WorkItemLaws I}.

Implicit Types (st : Store I) (img : I) (acts : list Action).

Lemma trace_app st acts acts' :
  trace st (acts ++ acts') = trace st acts ++ trace (runFrom st acts) acts'.
Proof.
  revert st. induction acts as [|a acts IH]; intros st; [done|].
  cbn [app trace]. by rewrite IH, runFrom_cons.
Qed.

(** Every published store is the store after a prefix of the calls. *)
Lemma elem_of_trace st acts s :
  s ∈ trace st acts ->
  exists pre post, acts = pre ++ post /\ s = runFrom st pre.
Proof.
  revert st. induction acts as [|a acts IH]; intros st Hin; simpl in Hin.
  - by apply elem_of_nil in Hin.
  - apply elem_of_cons in Hin as [->|Hin].
    + by exists [a], acts.
    + destruct (IH _ Hin) as (pre & post & -> & ->).
      by exists (a :: pre), post.
Qed.

(** A record whose id no call of a run addresses stays as it is in
    every store the run publishes. *)
Lemma trace_frame st acts s k img :
  Forall (fun a => touches a (itemId img) = false) acts ->
  s ∈ trace st acts ->
  images st !! k = Some img ->
  images s !! k = Some img.
Proof.
  intros Hacts Hin Hk.
  destruct (elem_of_trace st acts s Hin) as (pre & post & -> & ->).
  apply Forall_app in Hacts as [Hpre _].
  rewrite (lookup_runFrom st pre k img Hk).
  by rewrite (imageAfter_untouched pre img Hpre).
Qed.

Lemma touches_settleCall fb id id' o :
  id <> id' -> touches (settleCall fb id' o) id = false.
Proof. intros Hne. destruct o; simpl; by apply eqb_ne. Qed.

Lemma touches_loop fb i todo id :
  id ∉ map fst todo ->
  Forall (fun a => touches a id = false) (loopCalls fb i todo).
Proof.
  revert i. induction todo as [|[id' o] todo IH]; intros i Hnotin;
    [constructor|].
  simpl in Hnotin. apply not_elem_of_cons in Hnotin as [Hne Hnotin].
  simpl. constructor; [by apply touches_settleCall|].
  constructor; [done|]. by apply IH.
Qed.

Lemma touches_run which fb todo id :
  which id = false -> id ∉ map fst todo ->
  Forall (fun a => touches a id = false) (runCalls which fb todo).
Proof.
  intros Hw Hnotin. unfold runCalls, startCalls.
  repeat (apply Forall_app; split); repeat constructor; try done.
  by apply touches_loop.
Qed.

(** The loop leaves the processing flag alone. *)
Lemma trace_loop_processing fb i todo st s :
  s ∈ trace st (loopCalls fb i todo) -> isProcessing s = isProcessing st.
Proof.
  revert i st. induction todo as [|[id o] todo IH]; intros i st Hin.
  - by apply elem_of_nil in Hin.
  - simpl in Hin. apply elem_of_cons in Hin as [->|Hin];
      [apply isProcessing_settleCall|].
    apply elem_of_cons in Hin as [->|Hin];
      [apply isProcessing_settleCall|].
    rewrite (IH _ _ Hin). apply isProcessing_settleCall.
Qed.

(** While a run is under way, from its first call to the last but one,
    every published store has the processing flag set. *)
Lemma trace_run_processing which fb todo st s :
  s ∈ trace st (startCalls which (length todo) ++ loopCalls fb 0 todo) ->
  isProcessing s = true.
Proof.
  rewrite trace_app. intros Hin. apply elem_of_app in Hin as [Hin|Hin].
  - simpl in Hin. repeat (apply elem_of_cons in Hin as [->|Hin]; [done|]).
    by apply elem_of_nil in Hin.
  - by rewrite (trace_loop_processing _ _ _ _ _ Hin).
Qed.

Lemma trace_run_split which fb todo st :
  trace st (runCalls which fb todo)
  = trace st (startCalls which (length todo) ++ loopCalls fb 0 todo)
    ++ [runFrom st (runCalls which fb todo)].
Proof.
  unfold runCalls.
  rewrite (app_assoc (startCalls which (length todo))), trace_app.
  f_equal. cbn [trace].
  by rewrite (runFrom_app st (_ ++ _) [SetIsProcessing false]).
Qed.

Lemma isProcessing_run which fb todo st :
  isProcessing (runFrom st (runCalls which fb todo)) = false.
Proof.
  unfold runCalls. by rewrite app_assoc, runFrom_app.
Qed.

Lemma images_run which fb todo st :
  images (runFrom st (runCalls which fb todo))
  = images (runFrom st (runPrefix which fb todo (length todo))).
Proof.
  unfold runCalls, runPrefix.
  rewrite firstn_all, app_assoc, runFrom_app. reflexivity.
Qed.

End TraceFacts.

(** ** The editor's run *)

#[global] Instance editorItemLaws : WorkItemLaws EditorView.ImageState.
Proof. split; reflexivity. Qed.

#[global] Instance compressorItemLaws :
  WorkItemLaws CompressorView.ImageState.
Proof. split; reflexivity. Qed.

Section EditorRun.
Import EditorView.

Lemma editor_forLoop_calls settings service i todo :
  forLoop settings service i todo
  = (loopCalls unexpectedError i
       (outcomesFrom (attempt settings service) i todo), Ok tt).
Proof.
  revert i. induction todo as [|image todo IH]; intros i; [done|].
  cbn [forLoop outcomesFrom loopCalls]. rewrite IH.
  unfold bind, tryCatch, await, call.
  by destruct (attempt settings service i image).
Qed.

Lemma editor_picked imgs sel :
  imagesToProcess imgs sel = picked (selected sel) imgs.
Proof. reflexivity. Qed.

(** The handler either returns at its guard, or makes the calls of a
    run over the selected images and returns normally. *)
Lemma handleGenerateEdits_calls imgs processing sel settings service :
  handleGenerateEdits imgs processing sel settings service
  = if (length (imagesToProcess imgs sel) =? 0) || processing
    then ([], Ok tt)
    else (runCalls (selected sel) unexpectedError
            (outcomes (selected sel) (attempt settings service) imgs),
          Ok tt).
Proof.
  unfold handleGenerateEdits.
  destruct ((length (imagesToProcess imgs sel) =? 0) || processing);
    [done|].
  unfold bind at 3. rewrite editor_forLoop_calls.
  unfold runCalls, startCalls, outcomes. rewrite outcomesFrom_length.
  reflexivity.
Qed.

Lemma filter_none {A} (P : A -> Prop) `{!forall x, Decision (P x)}
    (l : list A) :
  (forall x, ~ P x) -> filter P l = [].
Proof.
  intros HP. induction l as [|x l IH]; [done|].
  by rewrite filter_cons_False.
Qed.

Lemma imagesToProcess_empty_selection imgs :
  imagesToProcess imgs ∅ = [].
Proof.
  apply filter_none. intros img. unfold selected.
  rewrite bool_decide_eq_true. apply not_elem_of_empty.
Qed.

End EditorRun.

Section EditorClaims.
Import EditorView.

(** C5.  Invoked with an empty selection, or while a run is active,
    [handleGenerateEdits] returns at once: it makes no call, publishes
    no store, and leaves the images, the progress counter and the
    processing flag as they were.  Moreover every store a run publishes
    before its last call has the processing flag set, so the handler
    invoked from any of them, with whatever selection and settings, is
    such a no-op: no second run starts while one is active. *)
Theorem rejected_run_is_noop (v : View)
    (service : nat -> GeminiService.Capability) :
  (selectedImageIds v = ∅ \/ isProcessing (store v) = true ->
   generateEdits v service = ([], Ok tt)
   /\ trace (store v) (actions (generateEdits v service)) = []
   /\ runFrom (store v) (actions (generateEdits v service)) = store v)
  /\ (forall s sel' settings' service',
        s ∈ removelast
              (trace (store v) (actions (generateEdits v service))) ->
        isProcessing s = true
        /\ generateEdits
             {| store := s; selectedImageIds := sel';
                settings := settings' |} service'
           = ([], Ok tt)).
Proof.
  split.
  - intros Hguard.
    assert (Hrun : generateEdits v service = ([], Ok tt)).
    { unfold generateEdits. rewrite handleGenerateEdits_calls.
      destruct Hguard as [Hsel|Hproc].
      + by rewrite Hsel, imagesToProcess_empty_selection.
      + by rewrite Hproc, orb_true_r. }
    by rewrite Hrun.
  - intros s sel' settings' service'.
    unfold generateEdits at 1. rewrite handleGenerateEdits_calls.
    destruct ((length (imagesToProcess (images (store v))
                         (selectedImageIds v)) =? 0)
              || isProcessing (store v)).
    + simpl. intros Hin. by apply elem_of_nil in Hin.
    + cbn [actions fst]. rewrite trace_run_split, removelast_last.
      intros Hin. apply trace_run_processing in Hin. split; [done|].
      unfold generateEdits. rewrite handleGenerateEdits_calls.
      cbn [store]. by rewrite Hin, orb_true_r.
Qed.

Lemma editor_final_image (v : View) service k img :
  NoDup (map id (images (store v))) ->
  isProcessing (store v) = false ->
  images (store v) !! k = Some img ->
  images (runFrom (store v) (actions (generateEdits v service))) !! k
  = Some
      (if selected (selectedImageIds v) (id img)
       then settled unexpectedError
              (attempt (settings v) service
                 (rank (selected (selectedImageIds v))
                    (images (store v)) k) img)
              (startLoading img)
       else img).
Proof.
  intros Hnd Hproc Hk. unfold generateEdits.
  rewrite handleGenerateEdits_calls, Hproc, orb_false_r.
  destruct (length (imagesToProcess (images (store v))
                      (selectedImageIds v)) =? 0) eqn:Hlen.
  - simpl. rewrite Hk. f_equal.
    destruct (selected (selectedImageIds v) (id img)) eqn:Hsel; [|done].
    apply Nat.eqb_eq, nil_length_inv in Hlen.
    assert (Hin : img ∈ imagesToProcess (images (store v))
                          (selectedImageIds v)).
    { apply list_elem_of_filter. split; [done|].
      by eapply list_elem_of_lookup_2. }
    rewrite Hlen in Hin. by apply elem_of_nil in Hin.
  - cbn [actions fst]. rewrite images_run.
    change (NoDup (map itemId (images (store v)))) in Hnd.
    rewrite (prefix_image (selected (selectedImageIds v))
               (attempt (settings v) service) unexpectedError
               (store v) _ k img Hnd Hk).
    f_equal. change (itemId img) with (id img).
    destruct (selected (selectedImageIds v) (id img)) eqn:Hsel; [|done].
    assert (Hlt : rank (selected (selectedImageIds v)) (images (store v)) k
                  < length (outcomes (selected (selectedImageIds v))
                              (attempt (settings v) service)
                              (images (store v)))).
    { unfold outcomes. rewrite outcomesFrom_length.
      eapply lookup_lt_Some. unfold picked, rank.
      by apply (filter_rank
                  (fun img => selected (selectedImageIds v) (itemId img)
                              = true)). }
    apply Nat.ltb_lt in Hlt. by rewrite Hlt.
Qed.

Lemma edit_url_truthy up fmt q rc cc ra tc fc trc wc ai base64 mime url :
  GeminiService.editImageWithGemini up fmt q rc cc ra tc fc trc wc ai
    base64 mime = Ok url ->
  truthy url = true.
Proof.
  unfold GeminiService.editImageWithGemini, GeminiService.extractImage.
  destruct (ai _) as [response|e]; [|done].
  destruct (GeminiService.firstCandidateParts response) as [ps|e]; [|done].
  destruct (GeminiService.firstInlineData ps) as [blob|]; [|done].
  by intros [= <-].
Qed.

Lemma unexpectedError_truthy e :
  truthy (orElse (message e) unexpectedError) = true.
Proof. by apply orElse_truthy. Qed.

(** C6.  A run that starts from a store with distinct ids and no run
    active returns normally, whatever the capability does.  Afterwards
    each selected image holds the outcome of its own attempt and of no
    other: on success the result with the error cleared, on failure a
    non-empty error message with the result cleared, and in both cases
    it is no longer loading; images outside the selection are as before;
    the processing flag is off. *)
Theorem failures_are_isolated (v : View)
    (service : nat -> GeminiService.Capability) :
  NoDup (map id (images (store v))) ->
  isProcessing (store v) = false ->
  completion (generateEdits v service) = Ok tt
  /\ isProcessing (runFrom (store v) (actions (generateEdits v service)))
     = false
  /\ (forall k img,
        images (store v) !! k = Some img ->
        images (runFrom (store v) (actions (generateEdits v service))) !! k
        = Some
            (if selected (selectedImageIds v) (id img)
             then
               match attempt (settings v) service
                       (rank (selected (selectedImageIds v))
                          (images (store v)) k) img with
               | Ok url =>
                   {| id := id img;
                      originalDataUrl := originalDataUrl img;
                      originalFileName := originalFileName img;
                      originalFileType := originalFileType img;
                      editedUrl := Some url; isLoading := false;
                      error := None |}
               | Thrown e =>
                   {| id := id img;
                      originalDataUrl := originalDataUrl img;
                      originalFileName := originalFileName img;
                      originalFileType := originalFileType img;
                      editedUrl := None; isLoading := false;
                      error := Some (orElse (message e) unexpectedError) |}
               end
             else img))
  /\ (forall k img,
        images (store v) !! k = Some img ->
        selected (selectedImageIds v) (id img) = true ->
        exists img',
          images (runFrom (store v) (actions (generateEdits v service))) !! k
          = Some img'
          /\ stateOf img'
             = match attempt (settings v) service
                       (rank (selected (selectedImageIds v))
                          (images (store v)) k) img with
               | Ok _ => Succeeded
               | Thrown _ => Failed
               end)
  /\ (forall e, orElse (message e) unexpectedError <> []).
Proof.
  intros Hnd Hproc. split; [|split; [|split; [|split]]].
  - unfold generateEdits. rewrite handleGenerateEdits_calls.
    by destruct (_ || _).
  - unfold generateEdits. rewrite handleGenerateEdits_calls, Hproc.
    destruct (_ || _); [done|]. apply isProcessing_run.
  - intros k img Hk.
    rewrite (editor_final_image v service k img Hnd Hproc Hk).
    reflexivity.
  - intros k img Hk Hsel.
    rewrite (editor_final_image v service k img Hnd Hproc Hk), Hsel.
    eexists. split; [reflexivity|].
    destruct (attempt _ _ _ _) as [url|e] eqn:Hat.
    + apply edit_url_truthy in Hat.
      unfold stateOf. simpl. by rewrite Hat.
    + unfold stateOf. simpl. by rewrite unexpectedError_truthy.
  - intros e. apply truthy_nonempty, unexpectedError_truthy.
Qed.

Lemma outcomes_misses_unselected which
    (attempt : nat -> ImageState -> result jsstring) imgs (i : jsstring) :
  which i = false -> i ∉ map fst (outcomes which attempt imgs).
Proof.
  intros Hw Hin. unfold outcomes in Hin.
  rewrite outcomesFrom_fst in Hin. apply picked_ids in Hin. congruence.
Qed.

(** C7.  A run that is accepted first publishes, with its third call,
    a store in which every selected image is loading with its result
    and error cleared, every other image is as it was, the processing
    flag is set and the counter reads 0 of the number of selected
    images.  And in every store a run publishes, an image whose id is
    not in the selection is exactly the record it was before the run. *)
Theorem run_touches_only_selection (v : View)
    (service : nat -> GeminiService.Capability) :
  (isProcessing (store v) = false ->
   imagesToProcess (images (store v)) (selectedImageIds v) <> [] ->
   trace (store v) (actions (generateEdits v service)) !! 2
   = Some
       {| images :=
            map (fun img =>
                   if selected (selectedImageIds v) (id img)
                   then {| id := id img;
                           originalDataUrl := originalDataUrl img;
                           originalFileName := originalFileName img;
                           originalFileType := originalFileType img;
                           editedUrl := None; isLoading := true;
                           error := None |}
                   else img)
              (images (store v));
          isProcessing := true;
          progress :=
            {| current := 0;
               total := length (imagesToProcess (images (store v))
                                  (selectedImageIds v)) |} |})
  /\ (forall s k img,
        s ∈ trace (store v) (actions (generateEdits v service)) ->
        images (store v) !! k = Some img ->
        id img ∉ selectedImageIds v ->
        images s !! k = Some img).
Proof.
  unfold generateEdits. rewrite handleGenerateEdits_calls. split.
  - intros Hproc Hne. rewrite Hproc, orb_false_r.
    destruct (length _ =? 0) eqn:Hlen.
    { apply Nat.eqb_eq, nil_length_inv in Hlen. contradiction. }
    cbn [actions fst]. unfold runCalls, outcomes.
    rewrite outcomesFrom_length. reflexivity.
  - intros s k img Hin Hk Hsel.
    destruct (_ || _); [by apply elem_of_nil in Hin|].
    cbn [actions fst] in Hin.
    assert (Hw : selected (selectedImageIds v) (id img) = false).
    { unfold selected. by apply bool_decide_eq_false. }
    eapply trace_frame; [|exact Hin|exact Hk].
    apply touches_run; [exact Hw|].
    by apply outcomes_misses_unselected.
Qed.

End EditorClaims.

(** ** Progress accounting *)

Lemma lookup_map {A B} (f : A -> B) (l : list A) (i : nat) :
  map f l !! i = f <$> l !! i.
Proof. apply (list_lookup_fmap f l i). Qed.

Section PacedRuns.
Context {I : Type} `{WorkItemLaws I}.

Implicit Types (st : Store I) (img : I).

Lemma counter_lookup n i p :
  map (fun j => {| current := j; total := n |}) (seq 0 (S n)) !! i = Some p
  -> p = {| current := i; total := n |} /\ i <= n.
Proof.
  rewrite lookup_map.
  destruct (seq 0 (S n) !! i) as [j|] eqn:Hj; [|done].
  apply lookup_seq in Hj as [-> Hlt]. intros [= <-]. split; [done|lia].
Qed.

Lemma counter_contract n :
  progressContract
    (map (fun j => {| current := j; total := n |}) (seq 0 (S n))).
Proof.
  split; [|split].
  - intros i j p q Hij Hp Hq.
    apply counter_lookup in Hp as [-> _].
    apply counter_lookup in Hq as [-> _]. simpl. lia.
  - apply Forall_forall. intros p Hp.
    apply list_elem_of_lookup in Hp as [i Hp].
    apply counter_lookup in Hp as [-> Hle]. simpl. lia.
  - intros i p Hp. apply counter_lookup in Hp as [-> _]. simpl.
    rewrite length_map, length_seq. lia.
Qed.

Lemma filter_lookup_rank (P : I -> Prop) `{!forall x, Decision (P x)}
    (imgs : list I) m img :
  filter P imgs !! m = Some img ->
  exists k, imgs !! k = Some img /\ length (filter P (take k imgs)) = m.
Proof.
  revert m. induction imgs as [|x imgs IH]; intros m Hm; [done|].
  destruct (decide (P x)) as [HP|HP].
  - rewrite (filter_cons_True P x imgs HP) in Hm.
    destruct m as [|m]; simpl in Hm.
    + injection Hm as ->. by exists 0.
    + destruct (IH m Hm) as (k & Hk & Hr). exists (S k). split; [done|].
      cbn [take]. rewrite (filter_cons_True P x _ HP). simpl. by rewrite Hr.
  - rewrite (filter_cons_False P x imgs HP) in Hm.
    destruct (IH m Hm) as (k & Hk & Hr). exists (S k). split; [done|].
    cbn [take]. by rewrite (filter_cons_False P x _ HP).
Qed.

Lemma progressStores_run_lookup which fb todo st j s :
  1 <= j ->
  progressStores st (runCalls which fb todo) !! j = Some s ->
  j <= length todo /\ s = runFrom st (runPrefix which fb todo j).
Proof.
  intros Hj. rewrite progressStores_run.
  destruct j as [|j]; [lia|]. rewrite lookup_cons, lookup_map.
  destruct (seq 1 (length todo) !! j) as [j'|] eqn:Hs; [|done].
  apply lookup_seq in Hs as [-> Hlt]. intros [= <-]. split; [lia|done].
Qed.

(** A run over the picked images is paced by its counter. *)
Lemma run_paced which (attempt : nat -> I -> result jsstring) fb st :
  NoDup (map itemId (images st)) ->
  pacedRun st
    (runCalls which fb (outcomes which attempt (images st)))
    (picked which (images st)).
Proof.
  intros Hnd.
  assert (Hlen : length (outcomes which attempt (images st))
                 = length (picked which (images st))).
  { unfold outcomes. apply outcomesFrom_length. }
  assert (Hpub : publishedProgress st
                   (runCalls which fb (outcomes which attempt (images st)))
                 = map (fun j => {| current := j;
                                    total := length (picked which (images st)) |})
                     (seq 0 (S (length (picked which (images st)))))).
  { by rewrite publishedProgress_run, Hlen. }
  split; [exact Hpub|]. split; [rewrite Hpub; apply counter_contract|].
  intros j s Hj Hs.
  apply progressStores_run_lookup in Hs as [Hle ->]; [|done].
  split; [by rewrite progress_prefix, Hlen|].
  intros m image Hm.
  destruct (filter_lookup_rank _ _ _ _ Hm) as (k & Hk & Hr).
  assert (Hw : which (itemId image) = true).
  { apply list_elem_of_lookup_2 in Hm.
    by apply list_elem_of_filter in Hm as [Hw _]. }
  exists k. eexists. split; [exact Hk|].
  split; [apply (prefix_image which attempt fb st j k image Hnd Hk)|].
  rewrite Hw. unfold rank. rewrite Hr.
  destruct (m <? j); simpl.
  - by rewrite settled_id, startLoading_id, settled_loading.
  - by rewrite startLoading_id, startLoading_loading.
Qed.

End PacedRuns.

(** ** The compressor's run *)

Section CompressorRun.
Import CompressorView.

Lemma compressor_forLoop_calls fmt q d res service i todo :
  forLoop fmt q d res service i todo
  = (loopCalls unexpectedError i
       (outcomesFrom (attempt fmt q d res service) i todo), Ok tt).
Proof.
  revert i. induction todo as [|image todo IH]; intros i; [done|].
  cbn [forLoop outcomesFrom loopCalls]. rewrite IH.
  unfold bind, tryCatch, await, call.
  by destruct (attempt fmt q d res service i image).
Qed.

Lemma picked_all (imgs : list ImageState) :
  picked (fun _ => true) imgs = imgs.
Proof.
  unfold picked. induction imgs as [|img imgs IH]; [done|].
  rewrite filter_cons_True by done. by rewrite IH.
Qed.

(** The handler either returns at its guard, or makes the calls of a
    run over all the images and returns normally. *)
Lemma handleCompress_calls imgs processing fmt q d res service :
  handleCompress imgs processing fmt q d res service
  = if (length imgs =? 0) || processing
    then ([], Ok tt)
    else (runCalls (fun _ => true) unexpectedError
            (outcomes (fun _ => true) (attempt fmt q d res service) imgs),
          Ok tt).
Proof.
  unfold handleCompress.
  destruct ((length imgs =? 0) || processing); [done|].
  unfold bind at 3. rewrite compressor_forLoop_calls.
  unfold runCalls, startCalls, outcomes.
  rewrite picked_all, outcomesFrom_length. reflexivity.
Qed.

End CompressorRun.

(** C8.  In both views, a run that is accepted, over images with
    distinct ids, publishes the progress values 0 of n, 1 of n, ...,
    n of n, n being the number of images it works through: the current
    value never decreases, never exceeds the total, and equals it exactly
    once, with the last value published; and the store published with
    the j-th increment shows exactly the first j images of the work list
    no longer loading, so that each increment stands for one more image
    having reached a terminal state. *)
Theorem progress_counts_settled_images :
  (forall (v : EditorView.View) service,
      NoDup (map EditorView.id (images (EditorView.store v))) ->
      isProcessing (EditorView.store v) = false ->
      EditorView.imagesToProcess (images (EditorView.store v))
        (EditorView.selectedImageIds v) <> [] ->
      pacedRun (EditorView.store v)
        (actions (EditorView.generateEdits v service))
        (EditorView.imagesToProcess (images (EditorView.store v))
           (EditorView.selectedImageIds v)))
  /\ (forall (v : CompressorView.View) service,
        NoDup (map CompressorView.id (images (CompressorView.store v))) ->
        isProcessing (CompressorView.store v) = false ->
        images (CompressorView.store v) <> [] ->
        pacedRun (CompressorView.store v)
          (actions (CompressorView.compress v service))
          (images (CompressorView.store v))).
Proof.
  split.
  - intros v service Hnd Hproc Hne. unfold EditorView.generateEdits.
    rewrite handleGenerateEdits_calls, Hproc, orb_false_r.
    destruct (length _ =? 0) eqn:Hlen.
    { apply Nat.eqb_eq, nil_length_inv in Hlen. contradiction. }
    cbn [actions fst]. rewrite editor_picked. by apply run_paced.
  - intros v service Hnd Hproc Hne. unfold CompressorView.compress.
    rewrite handleCompress_calls, Hproc, orb_false_r.
    destruct (length _ =? 0) eqn:Hlen.
    { apply Nat.eqb_eq, nil_length_inv in Hlen. contradiction. }
    cbn [actions fst].
    pose proof (run_paced (fun _ => true)
                  (CompressorView.attempt (CompressorView.outputFormat v)
                     (CompressorView.quality v)
                     (CompressorView.detailLevel v)
                     (CompressorView.targetResolution v) service)
                  CompressorView.unexpectedError
                  (CompressorView.store v) Hnd) as Hpaced.
    by rewrite picked_all in Hpaced.
Qed.

(** ** Images a run has attempted *)

Section AttemptedFacts.
Context {I : Type} `{WorkItemLaws I}.

Implicit Types (st : Store I) (img : I).

Lemma attempted_settled fb o img :
  truthy fb = true -> truthyOutcome o ->
  attempted (settled fb o img) = true.
Proof.
  intros Hfb Ho. unfold attempted. destruct o as [url|e]; simpl.
  - rewrite finishOutput_output. simpl. by rewrite (Ho url eq_refl).
  - rewrite finishError_error. simpl.
    by rewrite (orElse_truthy _ _ Hfb), orb_true_r.
Qed.

Lemma attempted_settleCall fb id o img :
  truthy fb = true -> truthyOutcome o ->
  attempted img = true ->
  attempted (reduceImage (settleCall fb id o) img) = true.
Proof.
  intros Hfb Ho Himg. unfold attempted in *.
  destruct o as [url|e]; simpl; destruct (JS.eqb (itemId img) id); try done.
  - rewrite finishOutput_output. simpl. by rewrite (Ho url eq_refl).
  - rewrite finishError_error. simpl.
    by rewrite (orElse_truthy _ _ Hfb), orb_true_r.
Qed.

Lemma attempted_loop fb i todo img :
  truthy fb = true ->
  Forall (fun p => truthyOutcome (snd p)) todo ->
  attempted img = true ->
  attempted (imageAfter (loopCalls fb i todo) img) = true.
Proof.
  intros Hfb Htodo. revert i img.
  induction Htodo as [|[id o] todo Ho _ IH]; intros i img Himg; [done|].
  simpl loopCalls. rewrite !imageAfter_cons. apply IH. simpl.
  by apply attempted_settleCall.
Qed.

(** After a run, the image the loop took first bears the mark of an
    attempt, whatever else the run did to it. *)
Lemma attempted_first which fb o todo img :
  truthy fb = true ->
  Forall (fun p => truthyOutcome (snd p)) ((itemId img, o) :: todo) ->
  which (itemId img) = true ->
  attempted (imageAfter (runCalls which fb ((itemId img, o) :: todo)) img)
  = true.
Proof.
  intros Hfb Htodo Hw. apply Forall_cons in Htodo as [Ho Htodo].
  unfold runCalls. rewrite !imageAfter_app, imageAfter_start, Hw.
  simpl loopCalls. rewrite !imageAfter_cons.
  rewrite <- (startLoading_id img) at 1.
  rewrite reduceImage_settleCall_hit. cbn [reduceImage].
  change (imageAfter [SetIsProcessing false] ?x) with x.
  apply attempted_loop; [done|done|]. by apply attempted_settled.
Qed.

Lemma outcomesFrom_truthy (attempt : nat -> I -> result jsstring) i todo :
  (forall j image, truthyOutcome (attempt j image)) ->
  Forall (fun p => truthyOutcome (snd p)) (outcomesFrom attempt i todo).
Proof.
  intros Hat. revert i. induction todo as [|image todo IH]; intros i;
    simpl; constructor; [apply Hat|apply IH].
Qed.

End AttemptedFacts.

(** ** The compressor's auto-start effect *)

Section AutoStart.
Import CompressorView.

Implicit Types (v : View) (e : Event) (services : Services).

Lemma compress_url_truthy ai base64 mime fmt q d res url :
  GeminiService.compressImageWithGemini ai base64 mime fmt q d res = Ok url
  -> truthy url = true.
Proof.
  unfold GeminiService.compressImageWithGemini, GeminiService.extractImage.
  destruct (ai _) as [response|err]; [|done].
  destruct (GeminiService.firstCandidateParts response) as [ps|err];
    [|done].
  destruct (GeminiService.firstInlineData ps) as [blob|]; [|done].
  by intros [= <-].
Qed.

Lemma attempt_truthy fmt q d res service i image :
  truthyOutcome (attempt fmt q d res service i image).
Proof.
  intros url. unfold attempt.
  destruct (fileToBase64 (originalFile image)) as [base64|err]; [|done].
  apply compress_url_truthy.
Qed.

Lemma hasUnprocessed_attempted (first : ImageState) rest :
  attempted first = true -> hasUnprocessedImages (first :: rest) = false.
Proof.
  unfold attempted. simpl. intros Ha.
  destruct (isLoading first), (truthyOpt (compressedUrl first)),
    (truthyOpt (error first)); done.
Qed.

Lemma fires_spec v :
  autoCompressFires v = true <->
  autoCompress v = true /\ isProcessing (store v) = false
  /\ hasUnprocessedImages (images (store v)) = true.
Proof.
  unfold autoCompressFires. rewrite !andb_true_iff, negb_true_iff. tauto.
Qed.

(** An accepted run leaves its first image attempted. *)
Lemma run_spends_batch v service :
  isProcessing (store v) = false -> images (store v) <> [] ->
  hasUnprocessedImages (images (store (applyCalls v (compress v service))))
  = false
  /\ isProcessing (store (applyCalls v (compress v service))) = false.
Proof.
  intros Hproc Hne. unfold applyCalls, compress.
  rewrite handleCompress_calls, Hproc, orb_false_r.
  destruct (images (store v)) as [|first rest] eqn:Himgs; [done|].
  cbn [length Nat.eqb actions fst withStore store]. split.
  - rewrite images_runFrom, Himgs. cbn [map].
    apply hasUnprocessed_attempted.
    unfold outcomes. rewrite picked_all. cbn [outcomesFrom].
    apply (attempted_first (fun _ => true) unexpectedError _ _ first);
      [done| |done].
    constructor; [apply attempt_truthy|].
    apply outcomesFrom_truthy. intros j image. apply attempt_truthy.
  - apply isProcessing_run.
Qed.

(** The effect fires at most once before the view is at rest, and a
    view it fired on is left with its first image attempted. *)
Lemma settle_spec fuel services r v :
  settle fuel services r v = (v, [])
  \/ (autoCompressFires v = true
      /\ settle fuel services r v
         = (applyCalls v (compress v (services r)), [v])).
Proof.
  destruct fuel as [|fuel]; [by left|]. cbn [settle].
  destruct (autoCompressFires v) eqn:Hfire; [|by left]. right.
  split; [done|].
  apply fires_spec in Hfire as (_ & Hproc & Hun).
  assert (Hne : images (store v) <> []).
  { intros Hnil. by rewrite Hnil in Hun. }
  destruct (run_spends_batch v (services r) Hproc Hne) as [Hspent _].
  assert (Hrest : settle fuel services (S r)
                    (applyCalls v (compress v (services r)))
                  = (applyCalls v (compress v (services r)), [])).
  { destruct fuel as [|fuel]; [done|]. cbn [settle].
    unfold autoCompressFires at 1. by rewrite Hspent, andb_false_r. }
  by rewrite Hrest.
Qed.

Lemma spent_no_fire v : spent v -> autoCompressFires v = false.
Proof.
  unfold spent, autoCompressFires. intros ->. apply andb_false_r.
Qed.

Lemma settle_spent fuel services r v :
  spent v -> settle fuel services r v = (v, []).
Proof.
  intros Hs. destruct (settle_spec fuel services r v) as [Heq|[Hfire _]];
    [done|]. by rewrite (spent_no_fire v Hs) in Hfire.
Qed.

(** Every event but a new selection of files keeps a spent batch
    spent. *)
Lemma handle_spent e service v :
  isImageSelect e = false -> available e v = true -> spent v ->
  spent (handle e service v).
Proof.
  intros Hsel Hav Hs. destruct e; try done; simpl in Hav.
  apply andb_true_iff in Hav as [Hlen Hproc].
  apply negb_true_iff in Hproc. apply Nat.ltb_lt in Hlen.
  apply run_spends_batch; [done|].
  intros Hnil. rewrite Hnil in Hlen. simpl in Hlen. lia.
Qed.

Lemma step_spent fuel v e services :
  isImageSelect e = false -> spent v ->
  exists v', step fuel v (e, services) = (v', []) /\ spent v'.
Proof.
  intros Hsel Hs. cbn [step].
  destruct (available e v) eqn:Hav; [|by exists v].
  pose proof (handle_spent e (services 0) v Hsel Hav Hs) as Hs'.
  exists (handle e (services 0) v). by rewrite settle_spent.
Qed.

(** One event makes the effect fire at most once, and leaves the batch
    spent when it does. *)
Lemma step_once fuel v e services :
  (exists v', step fuel v (e, services) = (v', []))
  \/ (exists v' f, step fuel v (e, services) = (v', [f]) /\ spent v').
Proof.
  cbn [step]. destruct (available e v); [|left; by exists v].
  destruct (settle_spec fuel services 1 (handle e (services 0) v))
    as [Heq|[Hfire Heq]]; rewrite Heq.
  - left. by eexists.
  - right. do 2 eexists. split; [done|].
    apply fires_spec in Hfire as (_ & Hproc & Hun).
    apply run_spends_batch; [done|].
    intros Hnil. by rewrite Hnil in Hun.
Qed.

Lemma runEvents_spent fuel v es :
  Forall (fun ev => isImageSelect (fst ev) = false) es -> spent v ->
  snd (runEvents fuel v es) = [].
Proof.
  intros Hes. revert v.
  induction Hes as [|[e services] es He _ IH]; intros v Hs; [done|].
  cbn [runEvents].
  destruct (step_spent fuel v e services He Hs) as (v' & -> & Hs').
  specialize (IH v' Hs').
  destruct (runEvents fuel v' es) as [v'' fired']. by simpl in *.
Qed.

Lemma runEvents_once fuel v es :
  Forall (fun ev => isImageSelect (fst ev) = false) es ->
  length (snd (runEvents fuel v es)) <= 1.
Proof.
  intros Hes. revert v.
  induction Hes as [|[e services] es He Hes IH]; intros v; [simpl; lia|].
  cbn [runEvents].
  destruct (step_once fuel v e services)
    as [(v' & ->)|(v' & f & -> & Hs')].
  - specialize (IH v').
    destruct (runEvents fuel v' es) as [v'' fired']. by simpl in *.
  - pose proof (runEvents_spent fuel v' es Hes Hs') as Hnone.
    destruct (runEvents fuel v' es) as [v'' fired']. simpl in *.
    by rewrite Hnone.
Qed.

(** The same from a new selection of files on: one firing at most until
    the next selection. *)
Lemma runEvents_once_per_batch fuel v (load : Event * Services) es :
  Forall (fun ev => isImageSelect (fst ev) = false) es ->
  length (snd (runEvents fuel v (load :: es))) <= 1.
Proof.
  intros Hes. destruct load as [e services]. cbn [runEvents].
  destruct (step_once fuel v e services)
    as [(v' & ->)|(v' & f & -> & Hs')].
  - pose proof (runEvents_once fuel v' es Hes) as Hle.
    destruct (runEvents fuel v' es) as [v'' fired']. by simpl in *.
  - pose proof (runEvents_spent fuel v' es Hes Hs') as Hnone.
    destruct (runEvents fuel v' es) as [v'' fired']. simpl in *.
    by rewrite Hnone.
Qed.

Lemma mount_quiescent : quiescent mount.
Proof. split; [done|]. left. constructor. Qed.

Lemma handle_quiescent e service v :
  available e v = true -> quiescent v -> quiescent (handle e service v).
Proof.
  intros Hav Hq. destruct e; try exact Hq; simpl in Hav.
  - split; [done|]. left. unfold untouched. simpl.
    apply Forall_forall. intros img Hin.
    change (map ?f ?l) with (f <$> l) in Hin.
    by apply list_elem_of_fmap in Hin as (f & -> & _).
  - apply andb_true_iff in Hav as [Hlen Hproc].
    apply negb_true_iff in Hproc. apply Nat.ltb_lt in Hlen.
    assert (Hne : images (store v) <> []).
    { intros Hnil. rewrite Hnil in Hlen. simpl in Hlen. lia. }
    destruct (run_spends_batch v service Hproc Hne) as [Hs Hp].
    split; [exact Hp|by right].
  - split; [done|]. left. constructor.
Qed.

(** Between events the view is quiescent, and a view the effect fires
    on is an untouched batch. *)
Lemma settle_quiescent fuel services r v :
  quiescent v ->
  quiescent (fst (settle fuel services r v))
  /\ forall f, f ∈ snd (settle fuel services r v) ->
       autoCompressFires f = true /\ untouched f.
Proof.
  intros Hq.
  destruct (settle_spec fuel services r v) as [Heq|[Hfire Heq]];
    rewrite Heq; simpl.
  - split; [done|]. intros f Hin. by apply elem_of_nil in Hin.
  - pose proof Hfire as (_ & Hproc & Hun)%fires_spec.
    assert (Hne : images (store v) <> []).
    { intros Hnil. by rewrite Hnil in Hun. }
    destruct (run_spends_batch v (services r) Hproc Hne) as [Hs Hp].
    split; [split; [exact Hp|by right]|].
    intros f Hin. apply list_elem_of_singleton in Hin as ->.
    split; [done|]. destruct Hq as [_ [Hu|Hsp]]; [done|].
    unfold spent in Hsp. congruence.
Qed.

Lemma step_quiescent fuel v (ev : Event * Services) :
  quiescent v ->
  quiescent (fst (step fuel v ev))
  /\ forall f, f ∈ snd (step fuel v ev) ->
       autoCompressFires f = true /\ untouched f.
Proof.
  intros Hq. destruct ev as [e services]. cbn [step].
  destruct (available e v) eqn:Hav.
  - apply settle_quiescent. by apply handle_quiescent.
  - split; [done|]. intros f Hin. by apply elem_of_nil in Hin.
Qed.

Lemma runEvents_quiescent fuel v es :
  quiescent v ->
  quiescent (fst (runEvents fuel v es))
  /\ forall f, f ∈ snd (runEvents fuel v es) ->
       autoCompressFires f = true /\ untouched f.
Proof.
  revert v. induction es as [|ev es IH]; intros v Hq.
  - split; [done|]. intros f Hin. by apply elem_of_nil in Hin.
  - cbn [runEvents].
    destruct (step_quiescent fuel v ev Hq) as [Hq' Hfired].
    destruct (step fuel v ev) as [v' fired]. simpl in Hq', Hfired.
    destruct (IH v' Hq') as [Hq'' Hfired'].
    destruct (runEvents fuel v' es) as [v'' fired'].
    simpl in *. split; [done|].
    intros f Hin. apply elem_of_app in Hin as [Hin|Hin]; auto.
Qed.

(** On no store that a run publishes does the effect's condition hold:
    the flag is set until the last call, and by then the first image
    has been attempted. *)
Lemma run_never_fires v service s :
  s ∈ trace (store v) (actions (compress v service)) ->
  autoCompressFires (withStore v s) = false.
Proof.
  pose proof (run_spends_batch v service) as Hrun.
  unfold applyCalls, compress in *.
  rewrite handleCompress_calls in *.
  destruct (length (images (store v)) =? 0) eqn:Hlen;
    [intros Hin; by apply elem_of_nil in Hin|].
  destruct (isProcessing (store v)) eqn:Hproc;
    [intros Hin; by apply elem_of_nil in Hin|].
  cbn [orb actions fst] in *.
  assert (Hne : images (store v) <> []).
  { intros Hnil. by rewrite Hnil in Hlen. }
  destruct (Hrun eq_refl Hne) as [Hs _]. cbn [withStore store] in Hs.
  rewrite trace_run_split. intros Hin.
  apply elem_of_app in Hin as [Hin|Hin].
  - apply trace_run_processing in Hin.
    unfold autoCompressFires. cbn [withStore store].
    by rewrite Hin, andb_false_r.
  - apply list_elem_of_singleton in Hin as ->.
    unfold autoCompressFires. cbn [withStore store].
    by rewrite Hs, andb_false_r.
Qed.

(** With any fuel to run at all, the effect leaves the view at rest. *)
Lemma settle_at_rest fuel services r v :
  autoCompressFires (fst (settle (S fuel) services r v)) = false.
Proof.
  destruct (settle_spec (S fuel) services r v) as [Heq|[Hfire Heq]].
  - rewrite Heq. simpl. cbn [settle] in Heq.
    destruct (autoCompressFires v) eqn:Hfire; [|done].
    destruct (settle fuel services (S r) _) as [v' fired]. congruence.
  - rewrite Heq. simpl. apply spent_no_fire.
    apply fires_spec in Hfire as (_ & Hproc & Hun).
    apply run_spends_batch; [done|].
    intros Hnil. by rewrite Hnil in Hun.
Qed.

(** C9.  Starting from the mounted component and for any sequence of
    user events, the auto-start effect fires only on views where
    auto-start is on, no run is in progress, and the batch is non-empty
    with none of its images loading, succeeded or failed.  From one
    selection of files to the next it fires at most once, whatever the
    view the selection arrives in.  Its condition is false on every
    store a run publishes, the last one included, so it fires neither
    while a run is active nor again once the run has completed or
    failed; and after any firing the view is at rest. *)
Theorem auto_run_fires_once :
  (forall fuel es f,
      f ∈ snd (runEvents fuel mount es) ->
      autoCompress f = true
      /\ isProcessing (store f) = false
      /\ images (store f) <> []
      /\ Forall (fun img => fresh img = true) (images (store f)))
  /\ (forall fuel v (load : Event * Services) es,
        Forall (fun ev => isImageSelect (fst ev) = false) es ->
        length (snd (runEvents fuel v (load :: es))) <= 1)
  /\ (forall v service s,
        s ∈ trace (store v) (actions (compress v service)) ->
        autoCompressFires (withStore v s) = false)
  /\ (forall fuel services r v,
        autoCompressFires (fst (settle (S fuel) services r v)) = false).
Proof.
  split; [|split; [|split]].
  - intros fuel es f Hin.
    destruct (runEvents_quiescent fuel mount es mount_quiescent)
      as [_ Hfired].
    destruct (Hfired f Hin) as [Hfire Hu].
    apply fires_spec in Hfire as (Hauto & Hproc & Hun).
    repeat split; try done.
    intros Hnil. by rewrite Hnil in Hun.
  - apply runEvents_once_per_batch.
  - apply run_never_fires.
  - apply settle_at_rest.
Qed.

End AutoStart.

(** ** The claims on concrete batches *)

Section Witnesses.
Import Examples.

Lemma distinct_ids_decided {A} `{EqDecision A} (l : list A) :
  bool_decide (NoDup l) = true -> NoDup l.
Proof. apply bool_decide_eq_true_1. Qed.

(** With nothing selected the handler does nothing; and from the store
    a run over both images has published with its third call, the
    handler does nothing either. *)
Lemma rejected_run_is_noop_examples :
  EditorView.generateEdits noneSelected alwaysSucceeds = ([], Ok tt)
  /\ isProcessing midRun = true
  /\ EditorView.generateEdits
       {| EditorView.store := midRun;
          EditorView.selectedImageIds :=
            EditorView.selectedImageIds bothSelected;
          EditorView.settings := EditorView.defaultSettings |}
       failsSecond
     = ([], Ok tt).
Proof.
  split.
  - apply (proj1 (rejected_run_is_noop noneSelected alwaysSucceeds)).
    left. reflexivity.
  - apply (proj2 (rejected_run_is_noop bothSelected alwaysSucceeds)
             midRun (EditorView.selectedImageIds bothSelected)
             EditorView.defaultSettings failsSecond).
    apply list_elem_of_lookup. exists 2. vm_compute. reflexivity.
Defined.

(** Two images, both selected, the capability failing on the second
    only: the run returns normally, the first image has succeeded and
    the second has failed with the capability's message. *)
Lemma failures_are_isolated_second_fails :
  completion (EditorView.generateEdits bothSelected failsSecond) = Ok tt
  /\ isProcessing
       (runFrom (EditorView.store bothSelected)
          (actions (EditorView.generateEdits bothSelected failsSecond)))
     = false
  /\ images
       (runFrom (EditorView.store bothSelected)
          (actions (EditorView.generateEdits bothSelected failsSecond)))
     !! 0
     = Some
         {| EditorView.id := lit "a.png";
            EditorView.originalDataUrl := lit "data:image/png;base64,AAAA";
            EditorView.originalFileName := lit "a.png";
            EditorView.originalFileType := lit "image/png";
            EditorView.editedUrl := Some (lit "data:image/png;base64,AAAA");
            EditorView.isLoading := false;
            EditorView.error := None |}
  /\ images
       (runFrom (EditorView.store bothSelected)
          (actions (EditorView.generateEdits bothSelected failsSecond)))
     !! 1
     = Some
         {| EditorView.id := lit "b.png";
            EditorView.originalDataUrl := lit "data:image/png;base64,AAAA";
            EditorView.originalFileName := lit "b.png";
            EditorView.originalFileType := lit "image/png";
            EditorView.editedUrl := None;
            EditorView.isLoading := false;
            EditorView.error := Some (lit "quota exceeded") |}.
Proof.
  assert (Hnd : NoDup (map EditorView.id
                         (images (EditorView.store bothSelected)))).
  { apply distinct_ids_decided. vm_compute. reflexivity. }
  pose proof (failures_are_isolated bothSelected failsSecond Hnd eq_refl)
    as (Hret & Hflag & Himg & _ & _).
  split; [exact Hret|]. split; [exact Hflag|]. split.
  - rewrite (Himg 0 (editorImage "a.png") eq_refl).
    vm_compute. reflexivity.
  - rewrite (Himg 1 (editorImage "b.png") eq_refl).
    vm_compute. reflexivity.
Defined.

(** Three images with only the second selected: the third call of the
    run publishes the second image loading and the others as they were,
    and in the last store of the run the first and third images are
    still the records they were. *)
Lemma run_touches_only_selection_one_of_three :
  map EditorView.isLoading
    (images
       (nth 2 (trace (EditorView.store secondOfThree)
                 (actions (EditorView.generateEdits secondOfThree
                             alwaysSucceeds)))
          (EditorView.store secondOfThree)))
  = [false; true; false]
  /\ images
       (runFrom (EditorView.store secondOfThree)
          (actions (EditorView.generateEdits secondOfThree alwaysSucceeds)))
     !! 0 = Some (editorImage "a.png")
  /\ images
       (runFrom (EditorView.store secondOfThree)
          (actions (EditorView.generateEdits secondOfThree alwaysSucceeds)))
     !! 2 = Some (editorImage "c.png").
Proof.
  destruct (run_touches_only_selection secondOfThree alwaysSucceeds)
    as [Hstart Hframe].
  assert (Hlast :
    runFrom (EditorView.store secondOfThree)
      (actions (EditorView.generateEdits secondOfThree alwaysSucceeds))
    ∈ trace (EditorView.store secondOfThree)
        (actions (EditorView.generateEdits secondOfThree alwaysSucceeds))).
  { apply list_elem_of_lookup. exists 5. vm_compute. reflexivity. }
  split; [|split].
  - assert (Hne : EditorView.imagesToProcess
                    (images (EditorView.store secondOfThree))
                    (EditorView.selectedImageIds secondOfThree) <> []).
    { vm_compute. discriminate. }
    specialize (Hstart eq_refl Hne).
    rewrite (nth_lookup_Some _ _ _ _ Hstart). vm_compute. reflexivity.
  - apply (Hframe _ 0 (editorImage "a.png") Hlast eq_refl).
    vm_compute. intros Hin. discriminate Hin.
  - apply (Hframe _ 2 (editorImage "c.png") Hlast eq_refl).
    vm_compute. intros Hin. discriminate Hin.
Defined.

(** Two images in each view, the second attempt failing: both runs
    publish 0 of 2, 1 of 2, 2 of 2. *)
Lemma progress_counts_settled_images_two :
  publishedProgress (EditorView.store bothSelected)
    (actions (EditorView.generateEdits bothSelected failsSecond))
  = [ {| current := 0; total := 2 |}; {| current := 1; total := 2 |};
      {| current := 2; total := 2 |} ]
  /\ publishedProgress (CompressorView.store twoLoaded)
       (actions (CompressorView.compress twoLoaded failsSecond))
     = [ {| current := 0; total := 2 |}; {| current := 1; total := 2 |};
         {| current := 2; total := 2 |} ].
Proof.
  destruct progress_counts_settled_images as [Heditor Hcompressor].
  split.
  - assert (Hnd : NoDup (map EditorView.id
                           (images (EditorView.store bothSelected)))).
    { apply distinct_ids_decided. vm_compute. reflexivity. }
    assert (Hne : EditorView.imagesToProcess
                    (images (EditorView.store bothSelected))
                    (EditorView.selectedImageIds bothSelected) <> []).
    { vm_compute. discriminate. }
    destruct (Heditor bothSelected failsSecond Hnd eq_refl Hne)
      as (Hpub & _ & _).
    rewrite Hpub. vm_compute. reflexivity.
  - assert (Hnd : NoDup (map CompressorView.id
                           (images (CompressorView.store twoLoaded)))).
    { apply distinct_ids_decided. vm_compute. reflexivity. }
    assert (Hne : images (CompressorView.store twoLoaded) <> []).
    { vm_compute. discriminate. }
    destruct (Hcompressor twoLoaded failsSecond Hnd eq_refl Hne)
      as (Hpub & _ & _).
    rewrite Hpub. vm_compute. reflexivity.
Defined.

(** A session of two batches: the effect fires when auto-start is
    switched on over the untouched first batch, and once more when the
    second batch is loaded; nothing after either firing makes it fire
    again, and the last store of a run over the first batch does not
    meet its condition. *)
Lemma auto_run_fires_once_session :
  length (snd (CompressorView.runEvents 3 CompressorView.mount
                 (firstBatch ++ secondLoad :: afterSecondLoad))) = 2
  /\ CompressorView.autoCompress
       (CompressorView.handle CompressorView.ToggleAutoCompress
          failsSecond twoLoaded) = true
  /\ Forall (fun img => fresh img = true)
       (images (CompressorView.store
                  (CompressorView.handle CompressorView.ToggleAutoCompress
                     failsSecond twoLoaded)))
  /\ length (snd (CompressorView.runEvents 3 afterFirstBatch
                    (secondLoad :: afterSecondLoad))) <= 1
  /\ CompressorView.autoCompressFires
       (CompressorView.withStore twoLoaded
          (runFrom (CompressorView.store twoLoaded)
             (actions (CompressorView.compress twoLoaded failsSecond))))
     = false.
Proof.
  destruct auto_run_fires_once as (Hfires & Honce & Hactive & _).
  split; [vm_compute; reflexivity|].
  assert (Hin :
    CompressorView.handle CompressorView.ToggleAutoCompress failsSecond
      twoLoaded
    ∈ snd (CompressorView.runEvents 3 CompressorView.mount firstBatch)).
  { apply list_elem_of_lookup. exists 0. vm_compute. reflexivity. }
  destruct (Hfires 3 firstBatch _ Hin) as (Hauto & _ & _ & Hfresh).
  split; [exact Hauto|]. split; [exact Hfresh|]. split.
  - apply (Honce 3 afterFirstBatch secondLoad afterSecondLoad).
    repeat constructor.
  - apply (Hactive twoLoaded failsSecond).
    apply list_elem_of_lookup. exists 7. vm_compute. reflexivity.
Defined.

End Witnesses.

(** * Further properties of the code *)

(** ** Which stages the compiler emits *)

Section TrimFacts.

Lemma trimStart_nil_iff (s : jsstring) :
  trimStart s = [] <-> Forall (fun c => isWhiteSpace c = true) s.
Proof.
  split; [|apply trimStart_whitespace].
  induction s as [|c s IH]; simpl; [constructor|].
  destruct (isWhiteSpace c) eqn:Hc; [|done].
  intros Hs. constructor; auto.
Qed.

Lemma trimStart_sublist (s : jsstring) : trimStart s `sublist_of` s.
Proof.
  induction s as [|c s IH]; simpl; [done|].
  destruct (isWhiteSpace c); [by constructor|done].
Qed.

Lemma trimStart_keeps_ink (s : jsstring) :
  Forall (fun c => isWhiteSpace c = true) (trimStart s) ->
  Forall (fun c => isWhiteSpace c = true) s.
Proof.
  induction s as [|c s IH]; simpl; [done|].
  destruct (isWhiteSpace c) eqn:Hc; [|done].
  intros Hs. constructor; auto.
Qed.

(** [trim] leaves the empty string exactly for the strings made of
    whitespace only. *)
Lemma trim_nil_iff (s : jsstring) :
  trim s = [] <-> Forall (fun c => isWhiteSpace c = true) s.
Proof.
  split; [|apply trim_whitespace].
  unfold trim, trimEnd. intros Hnil.
  apply (f_equal (@rev N)) in Hnil. rewrite rev_involutive in Hnil.
  simpl in Hnil. apply trimStart_nil_iff in Hnil.
  apply trimStart_keeps_ink. apply Forall_rev in Hnil.
  by rewrite rev_involutive in Hnil.
Qed.

Lemma ink_iff (s : jsstring) :
  Exists (fun c => isWhiteSpace c = false) s
  <-> ~ Forall (fun c => isWhiteSpace c = true) s.
Proof.
  induction s as [|c s IH].
  - split; [by intros ?%Exists_nil|]. intros Hn. destruct Hn. constructor.
  - rewrite Exists_cons, Forall_cons, IH.
    destruct (isWhiteSpace c); split.
    + intros [?|Hs]; [done|]. by intros [_ ?].
    + intros Hn. right. intros HF. by apply Hn.
    + by intros _ [? _].
    + intros _. by left.
Qed.

Lemma truthy_trim (s : jsstring) :
  truthy (trim s) = true <-> Exists (fun c => isWhiteSpace c = false) s.
Proof. by rewrite truthy_nonempty, trim_nil_iff, ink_iff. Qed.

End TrimFacts.

Section StagePresence.
Import GeminiService EditorView EditorHandlers.

Lemma elem_of_emitted_kind b s k :
  k ∈ map kindOf (emitted b s) <-> b = true /\ k = kindOf s.
Proof.
  destruct b; simpl.
  - rewrite list_elem_of_singleton. tauto.
  - split; [by intros ?%elem_of_nil|by intros [? _]].
Qed.

Lemma kindOf_encodingOf fmt q : kindOf (encodingOf fmt q) = KEncoding.
Proof. by destruct fmt. Qed.

Lemma filterInstructions_nonempty fc :
  (0 <? length (filterInstructionsOf fc)) = true
  <-> Grayscale.enabled (FilterConfig.grayscale fc) = true
      \/ FilterConfig.brightness fc <> 100%Z
      \/ FilterConfig.contrast fc <> 100%Z.
Proof.
  unfold filterInstructionsOf.
  destruct (Grayscale.enabled (FilterConfig.grayscale fc));
    destruct (Z.eqb_spec (FilterConfig.brightness fc) 100);
    destruct (Z.eqb_spec (FilterConfig.contrast fc) 100);
    simpl; intuition congruence.
Qed.

Lemma elem_of_compile_kinds fmt q rc cc ra tc fc trc wc k :
  k ∈ map kindOf (compile fmt q rc cc ra tc fc trc wc) <->
  (k = KRotation /\ ra <> 0%Z)
  \/ (k = KCrop /\ CropConfig.enabled cc = true)
  \/ (k = KFilters
      /\ (Grayscale.enabled (FilterConfig.grayscale fc) = true
          \/ FilterConfig.brightness fc <> 100%Z
          \/ FilterConfig.contrast fc <> 100%Z))
  \/ k = KTransparency
  \/ (k = KWatermark
      /\ WatermarkConfig.enabled wc = true
      /\ Exists (fun c => isWhiteSpace c = false) (WatermarkConfig.text wc))
  \/ (k = KResize /\ ResizeConfig.enabled rc = true)
  \/ (k = KTextOverlay
      /\ TextOverlayConfig.enabled tc = true
      /\ Exists (fun c => isWhiteSpace c = false)
           (TextOverlayConfig.content tc))
  \/ k = KEncoding.
Proof.
  rewrite compile_unfold, !map_app, !elem_of_app, !elem_of_emitted_kind.
  cbn [map]. rewrite !list_elem_of_singleton, kindOf_encodingOf.
  rewrite filterInstructions_nonempty, !andb_true_iff, !truthy_trim.
  rewrite negb_true_iff, Z.eqb_neq. cbn [kindOf resizeStage]. tauto.
Qed.

(** X1.  The kinds of stage in the compiled sequence are exactly those whose
    condition in the source holds: transparency and encoding always;
    rotation for a non-zero angle; crop and resize when enabled; the
    filter block when grayscale is enabled or brightness or contrast is
    not 100; watermark and text overlay when enabled with a text that
    holds a character other than whitespace. *)
Theorem stage_present_iff (settings : Settings) (k : StageKind) :
  k ∈ map kindOf (compileSettings settings) <->
  match k with
  | KRotation => rotationAngle settings <> 0%Z
  | KCrop => CropConfig.enabled (cropConfig settings) = true
  | KFilters =>
      Grayscale.enabled (FilterConfig.grayscale (filterConfig settings))
      = true
      \/ FilterConfig.brightness (filterConfig settings) <> 100%Z
      \/ FilterConfig.contrast (filterConfig settings) <> 100%Z
  | KTransparency => True
  | KWatermark =>
      WatermarkConfig.enabled (watermarkConfig settings) = true
      /\ Exists (fun c => isWhiteSpace c = false)
           (WatermarkConfig.text (watermarkConfig settings))
  | KResize => ResizeConfig.enabled (resizeConfig settings) = true
  | KTextOverlay =>
      TextOverlayConfig.enabled (textOverlayConfig settings) = true
      /\ Exists (fun c => isWhiteSpace c = false)
           (TextOverlayConfig.content (textOverlayConfig settings))
  | KEncoding => True
  end.
Proof.
  unfold compileSettings. rewrite elem_of_compile_kinds.
  destruct k; intuition congruence.
Qed.

End StagePresence.

Section StageContents.
Import GeminiService EditorView EditorHandlers StageViews.

Lemma elem_of_emitted b (s st : Stage) :
  st ∈ emitted b s <-> b = true /\ st = s.
Proof.
  destruct b; simpl.
  - rewrite list_elem_of_singleton. tauto.
  - split; [by intros ?%elem_of_nil|by intros [? _]].
Qed.

(** The stages of the compiled sequence, one by one. *)
Lemma elem_of_compile fmt q rc cc ra tc fc trc wc st :
  st ∈ compile fmt q rc cc ra tc fc trc wc <->
  (ra <> 0%Z /\ st = Rotation ra)
  \/ (CropConfig.enabled cc = true
      /\ st = Crop (CropConfig.x cc) (CropConfig.y cc)
                (CropConfig.width cc) (CropConfig.height cc))
  \/ (filterInstructionsOf fc <> []
      /\ st = Filters (filterInstructionsOf fc))
  \/ st = Transparency (transparencyOf trc)
  \/ (WatermarkConfig.enabled wc = true
      /\ trim (WatermarkConfig.text wc) <> []
      /\ st = Watermark (trim (WatermarkConfig.text wc))
                (WatermarkConfig.color wc) (WatermarkConfig.scale wc)
                (WatermarkConfig.opacity wc) (WatermarkConfig.position wc))
  \/ (ResizeConfig.enabled rc = true /\ st = resizeStage rc)
  \/ (TextOverlayConfig.enabled tc = true
      /\ trim (TextOverlayConfig.content tc) <> []
      /\ st = TextOverlay (trim (TextOverlayConfig.content tc))
                (TextOverlayConfig.color tc) (TextOverlayConfig.font tc)
                (TextOverlayConfig.size tc)
                (TextOverlayConfig.positionX tc)
                (TextOverlayConfig.positionY tc))
  \/ st = encodingOf fmt q.
Proof.
  rewrite compile_unfold, !elem_of_app, !elem_of_emitted.
  rewrite !list_elem_of_singleton, !andb_true_iff, !truthy_nonempty.
  rewrite negb_true_iff, Z.eqb_neq.
  assert (Hlen : (0 <? length (filterInstructionsOf fc)) = true
                 <-> filterInstructionsOf fc <> []).
  { destruct (filterInstructionsOf fc); simpl; split; done. }
  rewrite Hlen. tauto.
Qed.

Lemma filterInstructions_sorted fc :
  StronglySorted lt (map filterRank (filterInstructionsOf fc)).
Proof.
  unfold filterInstructionsOf.
  destruct (Grayscale.enabled (FilterConfig.grayscale fc)),
    (negb (FilterConfig.brightness fc =? 100)%Z),
    (negb (FilterConfig.contrast fc =? 100)%Z);
    simpl; repeat constructor; lia.
Qed.

(** X2.  A filter block in the compiled sequence is never empty, and lists
    its adjustments in the order grayscale, brightness, contrast, each
    at most once. *)
Theorem filter_block_nonempty_ordered (settings : Settings)
    (instructions : list FilterInstruction) :
  Filters instructions ∈ compileSettings settings ->
  instructions <> []
  /\ StronglySorted lt (map filterRank instructions)
  /\ length instructions <= 3.
Proof.
  unfold compileSettings. rewrite elem_of_compile.
  intros Hin.
  assert (Heq : instructions = filterInstructionsOf (filterConfig settings)
                /\ instructions <> []).
  { destruct Hin
      as [[_ Heq]|[[_ Heq]|[[Hne Heq]|[Heq|[(_&_&Heq)|[[_ Heq]|[(_&_&Heq)|Heq]]]]]]];
      first
        [ discriminate Heq
        | unfold resizeStage in Heq; discriminate Heq
        | unfold encodingOf in Heq; destruct (outputFormat settings);
          discriminate Heq
        | injection Heq as ->; done ]. }
  destruct Heq as [-> Hne]. split; [done|].
  split; [apply filterInstructions_sorted|].
  unfold filterInstructionsOf.
  destruct (Grayscale.enabled _), (negb _), (negb _); simpl; lia.
Qed.

Lemma filter_block_nonempty_ordered_all_three :
  [GrayscaleFilter 70; BrightnessFilter 110; ContrastFilter 90] <> []
  /\ StronglySorted lt
       (map filterRank
          [GrayscaleFilter 70; BrightnessFilter 110; ContrastFilter 90])
  /\ length [GrayscaleFilter 70; BrightnessFilter 110; ContrastFilter 90]
     <= 3.
Proof.
  apply (filter_block_nonempty_ordered MoreExamples.allFilters).
  apply list_elem_of_lookup. exists 0. vm_compute. reflexivity.
Defined.

End StageContents.

Section EmittedTexts.
Import GeminiService EditorView EditorHandlers StageViews.

Lemma trimStart_head (s : jsstring) c :
  head (trimStart s) = Some c -> isWhiteSpace c = false.
Proof.
  induction s as [|d s IH]; simpl; [done|].
  destruct (isWhiteSpace d) eqn:Hd; [done|]. simpl. by intros [= <-].
Qed.

Lemma trimStart_last (s : jsstring) :
  trimStart s <> [] -> last (trimStart s) = last s.
Proof.
  induction s as [|d s IH]; simpl; [done|].
  destruct (isWhiteSpace d); [|done]. intros Hne.
  rewrite (IH Hne). destruct s; [done|]. reflexivity.
Qed.

Lemma head_rev {A} (l : list A) : head (rev l) = last l.
Proof.
  induction l as [|x l _] using rev_ind; [done|].
  by rewrite rev_unit, last_snoc.
Qed.

Lemma last_rev {A} (l : list A) : last (rev l) = head l.
Proof. destruct l as [|x l]; [done|]. simpl. by rewrite last_snoc. Qed.

(** What [trim] returns neither begins nor ends with whitespace. *)
Lemma trim_edgeClean (s : jsstring) : edgeClean (trim s).
Proof.
  unfold edgeClean, trim, trimEnd.
  set (t := trimStart s). set (u := trimStart (rev t)).
  split; intros c Hc.
  - rewrite head_rev in Hc.
    assert (Hu : u <> []) by (intros Hu; by rewrite Hu in Hc).
    unfold u in Hc. rewrite (trimStart_last _ Hu), last_rev in Hc.
    by apply (trimStart_head s).
  - rewrite last_rev in Hc. by apply (trimStart_head (rev t)).
Qed.

(** X3.  The watermark and text-overlay stages of a compiled sequence carry
    the trimmed text: it is not empty and has whitespace at neither
    end, whatever padding the setting holds. *)
Theorem emitted_texts_are_trimmed (settings : Settings) :
  (forall text color scale opacity position,
      Watermark text color scale opacity position
        ∈ compileSettings settings ->
      text = trim (WatermarkConfig.text (watermarkConfig settings))
      /\ text <> [] /\ edgeClean text)
  /\ (forall content color font size px py,
        TextOverlay content color font size px py
          ∈ compileSettings settings ->
        content
        = trim (TextOverlayConfig.content (textOverlayConfig settings))
        /\ content <> [] /\ edgeClean content).
Proof.
  unfold compileSettings. split.
  - intros text color scale opacity position Hin.
    apply elem_of_compile in Hin.
    destruct Hin
      as [[_ Heq]|[[_ Heq]|[[_ Heq]|[Heq|[(_&Hne&Heq)|[[_ Heq]|[(_&_&Heq)|Heq]]]]]]];
      first
        [ discriminate Heq
        | unfold resizeStage in Heq; discriminate Heq
        | unfold encodingOf in Heq; destruct (outputFormat settings);
          discriminate Heq
        | idtac ].
    injection Heq as -> _ _ _ _.
    split; [done|]. split; [done|]. apply trim_edgeClean.
  - intros content color font size px py Hin.
    apply elem_of_compile in Hin.
    destruct Hin
      as [[_ Heq]|[[_ Heq]|[[_ Heq]|[Heq|[(_&_&Heq)|[[_ Heq]|[(_&Hne&Heq)|Heq]]]]]]];
      first
        [ discriminate Heq
        | unfold resizeStage in Heq; discriminate Heq
        | unfold encodingOf in Heq; destruct (outputFormat settings);
          discriminate Heq
        | idtac ].
    injection Heq as -> _ _ _ _ _.
    split; [done|]. split; [done|]. apply trim_edgeClean.
Qed.

Lemma emitted_texts_are_trimmed_padded :
  lit "(c) me"
  = trim (WatermarkConfig.text (watermarkConfig MoreExamples.paddedTexts))
  /\ lit "(c) me" <> [] /\ edgeClean (lit "(c) me").
Proof.
  apply (proj1 (emitted_texts_are_trimmed MoreExamples.paddedTexts)
           (lit "(c) me") (lit "#FFFFFF") 25%Z 50%Z BottomRight).
  apply list_elem_of_lookup. exists 1. vm_compute. reflexivity.
Defined.

End EmittedTexts.

(** ** Settings that do not reach the prompt *)

Section InertSettings.
Import GeminiService EditorView EditorHandlers.

(** X4.  For PNG output the quality setting plays no part: the compiled
    sequence and the prompt are the same whatever its value. *)
Theorem png_ignores_quality (settings : Settings) (q : number) :
  outputFormat settings = ImagePng ->
  compileSettings (setOutputQuality q settings) = compileSettings settings
  /\ promptOfSettings (setOutputQuality q settings)
     = promptOfSettings settings.
Proof.
  intros Hfmt. unfold compileSettings, promptOfSettings.
  rewrite !finalPrompt_compile, !compile_unfold. simpl.
  by rewrite Hfmt.
Qed.

Lemma png_ignores_quality_default :
  compileSettings (setOutputQuality 10 defaultSettings)
  = compileSettings defaultSettings
  /\ promptOfSettings (setOutputQuality 10 defaultSettings)
     = promptOfSettings defaultSettings.
Proof. apply (png_ignores_quality defaultSettings 10). reflexivity. Defined.

(** X5.  The parameters of a stage that is not emitted do not reach the
    prompt: the numbers of a disabled crop or resize, everything about a
    watermark or text overlay that is disabled or blank, and the fill
    colour when transparency is not filled. *)
Theorem inert_parameters_do_not_leak (settings : Settings) :
  (forall c,
      CropConfig.enabled (cropConfig settings) = false ->
      CropConfig.enabled c = false ->
      promptOfSettings (setCropConfig c settings)
      = promptOfSettings settings)
  /\ (forall r,
        ResizeConfig.enabled (resizeConfig settings) = false ->
        ResizeConfig.enabled r = false ->
        promptOfSettings (setResizeConfig r settings)
        = promptOfSettings settings)
  /\ (forall w,
        WatermarkConfig.enabled (watermarkConfig settings)
        && truthy (trim (WatermarkConfig.text (watermarkConfig settings)))
        = false ->
        WatermarkConfig.enabled w && truthy (trim (WatermarkConfig.text w))
        = false ->
        promptOfSettings (setWatermarkConfig w settings)
        = promptOfSettings settings)
  /\ (forall t,
        TextOverlayConfig.enabled (textOverlayConfig settings)
        && truthy
             (trim (TextOverlayConfig.content (textOverlayConfig settings)))
        = false ->
        TextOverlayConfig.enabled t
        && truthy (trim (TextOverlayConfig.content t)) = false ->
        promptOfSettings (setTextOverlayConfig t settings)
        = promptOfSettings settings)
  /\ (forall t,
        TransparencyConfig.method (transparencyConfig settings) <> Fill ->
        TransparencyConfig.method t
        = TransparencyConfig.method (transparencyConfig settings) ->
        promptOfSettings (setTransparencyConfig t settings)
        = promptOfSettings settings).
Proof.
  unfold promptOfSettings. repeat split.
  - intros c Hoff Hoff'. rewrite !finalPrompt_compile, !compile_unfold.
    simpl. by rewrite Hoff, Hoff'.
  - intros r Hoff Hoff'. rewrite !finalPrompt_compile, !compile_unfold.
    simpl. by rewrite Hoff, Hoff'.
  - intros w Hoff Hoff'. rewrite !finalPrompt_compile, !compile_unfold.
    simpl. by rewrite Hoff, Hoff'.
  - intros t Hoff Hoff'. rewrite !finalPrompt_compile, !compile_unfold.
    simpl. by rewrite Hoff, Hoff'.
  - intros t Hm Heq. rewrite !finalPrompt_compile, !compile_unfold.
    simpl. unfold transparencyOf. rewrite Heq.
    by destruct (TransparencyConfig.method (transparencyConfig settings)).
Qed.

Lemma inert_parameters_do_not_leak_default :
  promptOfSettings (setCropConfig MoreExamples.cropOff defaultSettings)
  = promptOfSettings defaultSettings
  /\ promptOfSettings (setResizeConfig MoreExamples.resizeOff defaultSettings)
     = promptOfSettings defaultSettings
  /\ promptOfSettings
       (setWatermarkConfig MoreExamples.watermarkOff defaultSettings)
     = promptOfSettings defaultSettings
  /\ promptOfSettings
       (setTextOverlayConfig MoreExamples.overlayBlank defaultSettings)
     = promptOfSettings defaultSettings
  /\ promptOfSettings
       (setTransparencyConfig MoreExamples.preserveWithColor defaultSettings)
     = promptOfSettings defaultSettings.
Proof.
  destruct (inert_parameters_do_not_leak defaultSettings)
    as (Hcrop & Hresize & Hwm & Htext & Htr).
  split; [apply Hcrop; reflexivity|].
  split; [apply Hresize; reflexivity|].
  split; [apply Hwm; reflexivity|].
  split; [apply Htext; reflexivity|].
  apply Htr; [discriminate|reflexivity].
Defined.

End InertSettings.

(** ** The compression prompt *)

Section Descriptions.
Import GeminiService.

Local Open Scope Z_scope.

Ltac distinct_texts :=
  match goal with
  | H : lit _ = lit _ |- _ => vm_compute in H; discriminate H
  end.

(** X6.  On the slider's range the quality and detail descriptions change at
    every multiple of 20 and nowhere else: two values get the same text
    exactly when they fall in the same fifth of the range. *)
Theorem descriptions_by_fifths (a b : number) :
  1 <= a <= 100 -> 1 <= b <= 100 ->
  (getQualityDescription a = getQualityDescription b
   <-> (a + 19) / 20 = (b + 19) / 20)
  /\ (getDetailLevelDescription a = getDetailLevelDescription b
      <-> (a + 19) / 20 = (b + 19) / 20).
Proof.
  intros Ha Hb. unfold getQualityDescription, getDetailLevelDescription.
  destruct (Z.leb_spec a 20), (Z.leb_spec a 40), (Z.leb_spec a 60),
    (Z.leb_spec a 80); try lia;
    destruct (Z.leb_spec b 20), (Z.leb_spec b 40), (Z.leb_spec b 60),
      (Z.leb_spec b 80); try lia;
    (split; split; intros Heq;
     first [ reflexivity
           | distinct_texts
           | (Z.div_mod_to_equations; lia) ]).
Qed.

Lemma descriptions_by_fifths_presets :
  (getQualityDescription 75 = getQualityDescription 61
   <-> (75 + 19) / 20 = (61 + 19) / 20)
  /\ (getDetailLevelDescription 75 = getDetailLevelDescription 61
      <-> (75 + 19) / 20 = (61 + 19) / 20).
Proof. apply (descriptions_by_fifths 75 61); lia. Defined.

End Descriptions.

(** ** Splitting strings *)

Section SplitFacts.

(** The first piece of a split holds no separator, and the string is
    that piece alone or that piece, a separator and a rest that is split
    in turn. *)
Lemma splitAux_decompose (sep : N) (cur s : jsstring) :
  exists h t,
    splitAux sep cur s = (rev cur ++ h) :: t
    /\ (sep ∉ h)
    /\ ((s = h /\ t = [])
        \/ exists rest, s = h ++ sep :: rest /\ t = splitAux sep [] rest).
Proof.
  revert cur. induction s as [|c s IH]; intros cur.
  - exists [], []. simpl. rewrite app_nil_r.
    split; [done|]. split; [apply not_elem_of_nil|by left].
  - simpl. destruct (N.eqb_spec c sep) as [->|Hne].
    + exists [], (splitAux sep [] s). rewrite app_nil_r.
      split; [done|]. split; [apply not_elem_of_nil|].
      right. by exists s.
    + destruct (IH (c :: cur)) as (h & t & Heq & Hh & Hs).
      exists (c :: h), t. rewrite Heq. simpl. rewrite <- app_assoc.
      split; [done|]. split.
      * apply not_elem_of_cons. split; [congruence|done].
      * destruct Hs as [[-> ->]|(rest & -> & ->)]; [by left|].
        right. by exists rest.
Qed.

Lemma split_no_sep (sep : N) (s : jsstring) :
  sep ∉ s -> split sep s = [s].
Proof.
  intros Hs. unfold split.
  destruct (splitAux_decompose sep [] s) as (h & t & Heq & Hh & Hcase).
  rewrite Heq. simpl.
  destruct Hcase as [[-> ->]|(rest & -> & _)]; [done|].
  exfalso. apply Hs. rewrite elem_of_app, elem_of_cons. auto.
Qed.

Lemma app_sep_inj (sep : N) (a a' rest rest' : jsstring) :
  sep ∉ a -> sep ∉ a' ->
  a ++ sep :: rest = a' ++ sep :: rest' -> a = a' /\ rest = rest'.
Proof.
  revert a'. induction a as [|c a IH]; intros [|c' a'] Ha Ha' Heq;
    simpl in Heq.
  - by injection Heq as ->.
  - injection Heq as <- _. exfalso. apply Ha'. apply list_elem_of_here.
  - injection Heq as -> _. exfalso. apply Ha. apply list_elem_of_here.
  - injection Heq as -> Heq.
    apply not_elem_of_cons in Ha as [_ Ha].
    apply not_elem_of_cons in Ha' as [_ Ha'].
    destruct (IH a' Ha Ha' Heq) as [-> ->]. done.
Qed.

Lemma split_at_sep (sep : N) (a rest : jsstring) :
  sep ∉ a -> split sep (a ++ sep :: rest) = a :: split sep rest.
Proof.
  intros Ha. unfold split.
  destruct (splitAux_decompose sep [] (a ++ sep :: rest))
    as (h & t & Heq & Hh & Hcase).
  rewrite Heq. simpl.
  destruct Hcase as [[Hs ->]|(rest' & Hs & ->)].
  - exfalso. apply Hh. rewrite <- Hs, elem_of_app, elem_of_cons. auto.
  - by destruct (app_sep_inj sep a h rest rest' Ha Hh Hs) as [-> ->].
Qed.

End SplitFacts.

Section ResolutionText.
Import GeminiService.

Lemma original_has_no_x : 120%N ∉ lit "original".
Proof.
  intros Hin. vm_compute in Hin.
  repeat (apply elem_of_cons in Hin as [Hin|Hin]; [discriminate Hin|]).
  by apply elem_of_nil in Hin.
Qed.

(** X7.  The resolution sentence of the compression prompt is empty for
    [original]; for a width and a height joined by an x it names both;
    and for any other text without an x it names the text as the width
    and [undefined] as the height. *)
Theorem resolution_sentence :
  getResolutionDescription (lit "original") = []
  /\ (forall width height,
        120%N ∉ width -> 120%N ∉ height ->
        getResolutionDescription (width ++ 120%N :: height)
        = cat [lit " Additionally, resize the image to fit within a ";
               width; lit "x"; height;
               lit " bounding box, maintaining the original aspect ratio. Do not stretch, distort, or crop the image; instead, scale it down proportionally to fit inside these dimensions. The final image's largest dimension should not exceed the corresponding dimension of the bounding box."])
  /\ (forall resolution,
        120%N ∉ resolution -> resolution <> lit "original" ->
        getResolutionDescription resolution
        = cat [lit " Additionally, resize the image to fit within a ";
               resolution; lit "x"; lit "undefined";
               lit " bounding box, maintaining the original aspect ratio. Do not stretch, distort, or crop the image; instead, scale it down proportionally to fit inside these dimensions. The final image's largest dimension should not exceed the corresponding dimension of the bounding box."]).
Proof.
  split; [reflexivity|]. split.
  - intros width height Hw Hh. unfold getResolutionDescription.
    assert (Hne : JS.eqb (width ++ 120%N :: height) (lit "original")
                  = false).
    { apply eqb_ne. intros Heq. apply original_has_no_x.
      rewrite <- Heq, elem_of_app, elem_of_cons. auto. }
    rewrite Hne, (split_at_sep 120 width height Hw).
    by rewrite (split_no_sep 120 height Hh).
  - intros resolution Hx Hne. unfold getResolutionDescription.
    rewrite (eqb_ne _ _ Hne), (split_no_sep 120 resolution Hx).
    reflexivity.
Qed.

Lemma resolution_sentence_full_hd :
  getResolutionDescription (lit "1920" ++ 120%N :: lit "1080")
  = cat [lit " Additionally, resize the image to fit within a ";
         lit "1920"; lit "x"; lit "1080";
         lit " bounding box, maintaining the original aspect ratio. Do not stretch, distort, or crop the image; instead, scale it down proportionally to fit inside these dimensions. The final image's largest dimension should not exceed the corresponding dimension of the bounding box."].
Proof.
  apply (proj1 (proj2 resolution_sentence) (lit "1920") (lit "1080"));
    vm_compute; intros Hin;
    repeat (apply elem_of_cons in Hin as [Hin|Hin]; [discriminate Hin|]);
    by apply elem_of_nil in Hin.
Defined.

End ResolutionText.

(** ** Names of downloaded files *)

Section DownloadNames.
Import GeminiService EditorHandlers CompressorDownloads Extensions.

Lemma extension_text fmt : extension fmt = Ok (extensionText fmt).
Proof. by destruct fmt. Qed.

Lemma stem_first_piece (base : jsstring) :
  46%N ∉ base ->
  stem base = orElse base (lit "image")
  /\ forall rest, stem (base ++ 46%N :: rest) = orElse base (lit "image").
Proof.
  intros Hbase. unfold stem. split.
  - by rewrite (split_no_sep 46 base Hbase).
  - intros rest. by rewrite (split_at_sep 46 base rest Hbase).
Qed.

(** X8.  The name of a downloaded file keeps of the original name only what
    precedes its first dot, [image] taking its place when that is
    empty; the extension is png, jpg or webp after the output format of
    the moment, and deriving the name never throws. *)
Theorem download_name_keeps_first_piece (base rest : jsstring)
    (fmt : OutputFormat) (q : number) (file : CompressorView.File) :
  46%N ∉ base ->
  editedFileName base fmt
  = Ok (cat [orElse base (lit "image"); lit "_edited."; extensionText fmt])
  /\ editedFileName (base ++ 46%N :: rest) fmt
     = Ok (cat [orElse base (lit "image"); lit "_edited.";
                extensionText fmt])
  /\ (CompressorView.name file = base ++ 46%N :: rest ->
      compressedFileName file fmt q
      = Ok (cat [orElse base (lit "image"); lit "_compressed_q"; showZ q;
                 lit "."; extensionText fmt])).
Proof.
  intros Hbase. destruct (stem_first_piece base Hbase) as [Hstem Hrest].
  unfold editedFileName, compressedFileName.
  rewrite extension_text, Hstem, (Hrest rest).
  split; [done|]. split; [done|]. intros ->. by rewrite (Hrest rest).
Qed.

Lemma download_name_keeps_first_piece_holiday :
  editedFileName (lit "holiday") ImageJpeg = Ok (lit "holiday_edited.jpg")
  /\ editedFileName (lit "holiday.photo.jpeg") ImageJpeg
     = Ok (lit "holiday_edited.jpg")
  /\ compressedFileName ServiceExamples.photo ImageWebp 75
     = Ok (lit "holiday_compressed_q75.webp").
Proof.
  assert (Hdot : 46%N ∉ lit "holiday").
  { vm_compute. intros Hin.
    repeat (apply elem_of_cons in Hin as [Hin|Hin]; [discriminate Hin|]).
    by apply elem_of_nil in Hin. }
  destruct (download_name_keeps_first_piece (lit "holiday")
              (lit "photo.jpeg") ImageJpeg 75 ServiceExamples.photo Hdot)
    as (Hplain & Hdotted & _).
  destruct (download_name_keeps_first_piece (lit "holiday")
              (lit "photo.jpeg") ImageWebp 75 ServiceExamples.photo Hdot)
    as (_ & _ & Hcompressed).
  split; [exact Hplain|]. split; [exact Hdotted|].
  apply Hcompressed. reflexivity.
Defined.

End DownloadNames.

(** ** The service's other two calls *)

Section SiblingCalls.
Import GeminiService GeminiUpscale.

(** X9.  [compressImageWithGemini] and [upscaleImageWithGemini] read the
    answer as the edit call does.  When the capability answers with a
    response whose first candidate is there and has a content with
    parts, they return the data of the first part carrying inline data
    ([undefined] for a blob without data), which the compression call
    labels with the requested output format and the upscaling call with
    [image/png] whatever was sent or received, and they throw their own
    message, [No image was generated.] and
    [No upscaled image was generated.], exactly when no part of that
    candidate carries inline data.  For every other response, one
    without candidates or whose first candidate has no content or no
    parts, both throw a [TypeError]. *)
Theorem sibling_calls_read_first_inline_image
    (ai : Capability) base64 mime fmt q d res (response : Response) :
  (forall request, ai request = Ok response) ->
  (forall c cs ct ps,
      candidates response = Some (c :: cs) ->
      content c = Some ct -> parts ct = Some ps ->
      (forall pre part blob post,
          ps = pre ++ part :: post ->
          Forall noInline pre -> inlineData part = Some blob ->
          compressImageWithGemini ai base64 mime fmt q d res
          = Ok (cat [lit "data:"; showFormat fmt; lit ";base64,";
                     showOpt (data blob)])
          /\ upscaleImageWithGemini ai base64 mime
             = Ok (cat [lit "data:"; lit "image/png"; lit ";base64,";
                        showOpt (data blob)]))
      /\ (compressImageWithGemini ai base64 mime fmt q d res
          = Thrown (Error (lit "No image was generated."))
          <-> Forall noInline ps)
      /\ (upscaleImageWithGemini ai base64 mime
          = Thrown (Error (lit "No upscaled image was generated."))
          <-> Forall noInline ps))
  /\ (candidates response = None \/ candidates response = Some []
      \/ (exists c cs,
            candidates response = Some (c :: cs)
            /\ (content c = None
                \/ exists ct, content c = Some ct /\ parts ct = None)) ->
      (exists msg,
          compressImageWithGemini ai base64 mime fmt q d res
          = Thrown (TypeError msg))
      /\ exists msg,
           upscaleImageWithGemini ai base64 mime = Thrown (TypeError msg)).
Proof.
  intros Hai.
  unfold compressImageWithGemini, upscaleImageWithGemini.
  rewrite !Hai.
  destruct (extractImage_spec (showFormat fmt) noImageGenerated response)
    as (Hc & Hcbad & _).
  destruct (extractImage_spec (lit "image/png") noUpscaledImage response)
    as (Hu & Hubad & _).
  split.
  - intros c cs ct ps Hcs Hct Hps.
    destruct (Hc c cs ct ps Hcs Hct Hps) as [Hcfirst Hcnone].
    destruct (Hu c cs ct ps Hcs Hct Hps) as [Hufirst Hunone].
    split; [|split; [exact Hcnone|exact Hunone]].
    intros pre part blob post Hparts Hpre Hpart.
    split; [by eapply Hcfirst|by eapply Hufirst].
  - intros Hbad. split; [by apply Hcbad|by apply Hubad].
Qed.

Lemma sibling_calls_read_first_inline_image_jpeg :
  (compressImageWithGemini
     (ServiceExamples.answering Examples.textThenImages)
     (Some (lit "AAAA")) (lit "image/jpeg") ImageWebp 75 75 (lit "original")
   = Ok (lit "data:image/webp;base64,AAAA")
   /\ upscaleImageWithGemini
        (ServiceExamples.answering Examples.textThenImages)
        (Some (lit "AAAA")) (lit "image/jpeg")
      = Ok (lit "data:image/png;base64,AAAA"))
  /\ exists msg,
       upscaleImageWithGemini
         (ServiceExamples.answering Examples.blockedCandidate)
         (Some (lit "AAAA")) (lit "image/jpeg")
       = Thrown (TypeError msg).
Proof.
  split.
  - refine (proj1
              (proj1
                 (sibling_calls_read_first_inline_image
                    (ServiceExamples.answering Examples.textThenImages)
                    (Some (lit "AAAA")) (lit "image/jpeg") ImageWebp 75%Z
                    75%Z (lit "original") Examples.textThenImages
                    (fun _ => eq_refl))
                 Examples.imageCandidate []
                 {| parts := Some [Examples.textPart; Examples.jpegPart;
                                   Examples.pngPart] |}
                 [Examples.textPart; Examples.jpegPart; Examples.pngPart]
                 eq_refl eq_refl eq_refl)
              [Examples.textPart] Examples.jpegPart Examples.jpegBlob
              [Examples.pngPart] eq_refl _ eq_refl).
    repeat constructor.
  - refine (proj2
              (proj2
                 (sibling_calls_read_first_inline_image
                    (ServiceExamples.answering Examples.blockedCandidate)
                    (Some (lit "AAAA")) (lit "image/jpeg") ImageWebp 75%Z
                    75%Z (lit "original") Examples.blockedCandidate
                    (fun _ => eq_refl))
                 _)).
    right; right. exists {| content := None |}, []. split; [reflexivity|].
    by left.
Defined.

End SiblingCalls.

(** ** The editor's selection *)

Section EditorSelection.
Import EditorView EditorHandlers EditorInvariants.

Implicit Types (v : View) (i j : jsstring).

Lemma elem_of_toggle i j (sel : gset jsstring) :
  j ∈ toggle i sel <-> (j = i /\ i ∉ sel) \/ (j <> i /\ j ∈ sel).
Proof.
  unfold toggle. destruct (bool_decide_reflect (i ∈ sel)) as [Hin|Hout].
  - rewrite elem_of_difference, elem_of_singleton. intuition congruence.
  - rewrite elem_of_union, elem_of_singleton.
    destruct (decide (j = i)) as [->|Hne]; intuition congruence.
Qed.

Lemma toggle_toggle i (sel : gset jsstring) : toggle i (toggle i sel) = sel.
Proof.
  apply set_eq. intros j. rewrite !elem_of_toggle.
  destruct (decide (j = i)) as [->|Hne];
    destruct (decide (i ∈ sel)); intuition congruence.
Qed.

(** X10.  Ticking the box of an image twice leaves the view as it was; one
    tick changes the selection at that id only, and nothing else of the
    view. *)
Theorem toggle_selection_twice i v :
  handleToggleSelection i (handleToggleSelection i v) = v
  /\ store (handleToggleSelection i v) = store v
  /\ settings (handleToggleSelection i v) = settings v
  /\ (i ∈ selectedImageIds (handleToggleSelection i v)
      <-> i ∉ selectedImageIds v)
  /\ (forall j, j <> i ->
        j ∈ selectedImageIds (handleToggleSelection i v)
        <-> j ∈ selectedImageIds v).
Proof.
  split; [|split; [done|split; [done|split]]].
  - destruct v as [st sel se]. unfold handleToggleSelection. simpl.
    by rewrite toggle_toggle.
  - simpl. rewrite elem_of_toggle. intuition congruence.
  - intros j Hne. simpl. rewrite elem_of_toggle. intuition congruence.
Qed.

Lemma toggle_selection_twice_second :
  handleToggleSelection (lit "b.png")
    (handleToggleSelection (lit "b.png") Examples.secondOfThree)
  = Examples.secondOfThree
  /\ (lit "a.png"
        ∈ selectedImageIds
            (handleToggleSelection (lit "b.png") Examples.secondOfThree)
      <-> lit "a.png" ∈ selectedImageIds Examples.secondOfThree).
Proof.
  destruct (toggle_selection_twice (lit "b.png") Examples.secondOfThree)
    as (Htwice & _ & _ & _ & Hother).
  split; [exact Htwice|]. apply Hother. discriminate.
Defined.

Lemma run_keeps_ids (st : Store ImageState) (acts : list Action) :
  map id (images (runFrom st acts)) = map id (images st).
Proof.
  rewrite images_runFrom, map_map. apply map_ext. intros img.
  unfold imageAfter. revert img.
  induction acts as [|a acts IH]; intros img; [done|].
  simpl. rewrite IH.
  change (itemId (reduceImage a img) = itemId img). apply reduceImage_id.
Qed.

Lemma elem_of_batchIds v i :
  i ∈ batchIds v <-> exists img, img ∈ images (store v) /\ id img = i.
Proof.
  unfold batchIds. rewrite elem_of_list_to_set.
  change (map id (images (store v))) with (id <$> images (store v)).
  rewrite list_elem_of_fmap. split.
  - intros (img & -> & Hin). by exists img.
  - intros (img & Hin & <-). by exists img.
Qed.

(** X11.  The selection stays within the batch: it is so when the editor
    mounts, and resetting, loading files, removing an image, ticking the
    box of an image of the batch, selecting or deselecting all, and a
    run all keep it so. *)
Theorem selection_stays_within_batch v :
  (forall s, selectionWithinBatch (mountWith s))
  /\ selectionWithinBatch (handleReset v)
  /\ (forall files, selectionWithinBatch (fst (handleImageSelect v files)))
  /\ selectionWithinBatch (handleToggleSelectAll v)
  /\ (selectionWithinBatch v ->
      (forall i, selectionWithinBatch (handleRemoveImage i v))
      /\ (forall i, i ∈ batchIds v ->
            selectionWithinBatch (handleToggleSelection i v))
      /\ (forall service,
            selectionWithinBatch (applyCalls v (generateEdits v service)))).
Proof.
  unfold selectionWithinBatch.
  split; [intros s; simpl; set_solver|].
  split; [simpl; set_solver|].
  split.
  { intros files. unfold handleImageSelect.
    destruct (promiseAll _); simpl; set_solver. }
  split.
  { unfold handleToggleSelectAll, batchIds. simpl.
    destruct (allSelected v); set_solver. }
  intros Hin. split; [|split].
  - intros i j. simpl. rewrite elem_of_difference, elem_of_singleton.
    intros [Hj Hne]. apply Hin in Hj.
    apply elem_of_batchIds in Hj as (img & Himg & <-).
    apply elem_of_batchIds. exists img. split; [|done].
    simpl. apply list_elem_of_filter. split; [|done].
    by apply eqb_ne.
  - intros i Hi j. simpl. rewrite elem_of_toggle.
    intros [[-> _]|[_ Hj]]; [done|by apply Hin].
  - intros service j Hj. simpl in Hj. apply Hin in Hj.
    unfold batchIds in *. simpl. by rewrite run_keeps_ids.
Qed.

Lemma selection_stays_within_batch_example :
  selectionWithinBatch (handleRemoveImage (lit "b.png") Examples.bothSelected)
  /\ selectionWithinBatch
       (handleToggleSelection (lit "a.png") Examples.secondOfThree)
  /\ selectionWithinBatch
       (applyCalls Examples.bothSelected
          (generateEdits Examples.bothSelected Examples.failsSecond)).
Proof.
  assert (Hboth : selectionWithinBatch Examples.bothSelected).
  { unfold selectionWithinBatch. apply (bool_decide_unpack _).
    vm_compute. exact I. }
  assert (Hsecond : selectionWithinBatch Examples.secondOfThree).
  { unfold selectionWithinBatch. apply (bool_decide_unpack _).
    vm_compute. exact I. }
  destruct (selection_stays_within_batch Examples.bothSelected)
    as (_ & _ & _ & _ & Hkept).
  destruct (Hkept Hboth) as (Hremove & _ & Hrun).
  destruct (selection_stays_within_batch Examples.secondOfThree)
    as (_ & _ & _ & _ & Hkept').
  destruct (Hkept' Hsecond) as (_ & Htoggle & _).
  split; [apply Hremove|]. split; [|apply Hrun].
  apply Htoggle. apply (bool_decide_unpack _). vm_compute. exact I.
Defined.

End EditorSelection.

Section SelectAll.
Import EditorView EditorHandlers EditorInvariants.

Implicit Types (v : View).

Lemma size_batchIds v :
  NoDup (map id (images (store v))) ->
  size (batchIds v) = length (images (store v)).
Proof.
  intros Hnd. unfold batchIds.
  by rewrite (size_list_to_set _ Hnd), length_map.
Qed.

Lemma imagesToProcess_whole_batch v :
  imagesToProcess (images (store v)) (batchIds v) = images (store v).
Proof.
  unfold imagesToProcess.
  assert (Hall : Forall (fun img => selected (batchIds v) (id img) = true)
                   (images (store v))).
  { apply Forall_forall. intros img Hin. unfold selected.
    apply bool_decide_eq_true. apply elem_of_batchIds. by exists img. }
  induction Hall as [|img imgs Himg _ IH]; [done|].
  rewrite filter_cons_True by done. by rewrite IH.
Qed.

(** X12.  With distinct ids and the selection within the batch, the
    select-all control reads every image as selected exactly when the
    batch is not empty and the selection is the whole batch.  Pressed
    then, it clears the selection; pressed otherwise, it selects the
    whole batch, so that a run works through every image and the
    control reads all selected. *)
Theorem select_all_button v :
  NoDup (map id (images (store v))) ->
  selectionWithinBatch v ->
  (allSelected v = true
   <-> images (store v) <> [] /\ selectedImageIds v = batchIds v)
  /\ (allSelected v = true ->
      selectedImageIds (handleToggleSelectAll v) = ∅)
  /\ (allSelected v = false ->
      selectedImageIds (handleToggleSelectAll v) = batchIds v
      /\ imagesToProcess (images (store (handleToggleSelectAll v)))
           (selectedImageIds (handleToggleSelectAll v))
         = images (store v)
      /\ (images (store v) <> [] ->
          allSelected (handleToggleSelectAll v) = true)).
Proof.
  intros Hnd Hin.
  assert (Hiff : allSelected v = true
                 <-> images (store v) <> []
                     /\ selectedImageIds v = batchIds v).
  { unfold allSelected. rewrite andb_true_iff, Nat.ltb_lt, Nat.eqb_eq.
    rewrite <- (size_batchIds v Hnd). split.
    - intros [Hlen Hsize]. split.
      + intros Hnil. rewrite (size_batchIds v Hnd), Hnil in Hlen.
        simpl in Hlen. lia.
      + apply set_subseteq_size_eq; [exact Hin|lia].
    - intros [Hne ->]. split; [|done].
      rewrite (size_batchIds v Hnd).
      destruct (images (store v)); [done|simpl; lia]. }
  split; [exact Hiff|]. split.
  - intros Hall. unfold handleToggleSelectAll. simpl. by rewrite Hall.
  - intros Hnot.
    assert (Hsel : selectedImageIds (handleToggleSelectAll v) = batchIds v).
    { unfold handleToggleSelectAll. simpl. by rewrite Hnot. }
    split; [exact Hsel|]. split.
    + rewrite Hsel.
      change (images (store (handleToggleSelectAll v)))
        with (images (store v)).
      apply imagesToProcess_whole_batch.
    + intros Hne. unfold allSelected. rewrite Hsel.
      change (images (store (handleToggleSelectAll v)))
        with (images (store v)).
      rewrite (size_batchIds v Hnd), Nat.eqb_refl, andb_true_r.
      apply Nat.ltb_lt. destruct (images (store v)); [done|simpl; lia].
Qed.

Lemma select_all_button_second_of_three :
  allSelected Examples.secondOfThree = false
  /\ selectedImageIds (handleToggleSelectAll Examples.secondOfThree)
     = batchIds Examples.secondOfThree
  /\ allSelected (handleToggleSelectAll Examples.secondOfThree) = true
  /\ selectedImageIds
       (handleToggleSelectAll (handleToggleSelectAll Examples.secondOfThree))
     = ∅.
Proof.
  assert (Hnd : NoDup (map id (images (store Examples.secondOfThree)))).
  { apply distinct_ids_decided. vm_compute. reflexivity. }
  assert (Hin : selectionWithinBatch Examples.secondOfThree).
  { unfold selectionWithinBatch. apply (bool_decide_unpack _).
    vm_compute. exact I. }
  destruct (select_all_button Examples.secondOfThree Hnd Hin)
    as (_ & _ & Hselect).
  assert (Hnot : allSelected Examples.secondOfThree = false)
    by (vm_compute; reflexivity).
  destruct (Hselect Hnot) as (Hsel & _ & Hall).
  assert (Hall' : allSelected (handleToggleSelectAll Examples.secondOfThree)
                  = true) by (apply Hall; discriminate).
  split; [exact Hnot|]. split; [exact Hsel|]. split; [exact Hall'|].
  assert (Hnd' : NoDup (map id (images (store (handleToggleSelectAll
                                                 Examples.secondOfThree))))).
  { apply distinct_ids_decided. vm_compute. reflexivity. }
  assert (Hin' : selectionWithinBatch
                   (handleToggleSelectAll Examples.secondOfThree)).
  { unfold selectionWithinBatch. apply (bool_decide_unpack _).
    vm_compute. exact I. }
  destruct (select_all_button (handleToggleSelectAll Examples.secondOfThree)
              Hnd' Hin') as (_ & Hclear & _).
  exact (Hclear Hall').
Defined.

End SelectAll.

(** ** Removing an image from the editor's batch *)

Section RemoveImage.
Import EditorView EditorHandlers EditorInvariants.

Implicit Types (v : View) (i j : jsstring).

Lemma eqb_false_iff (a b : jsstring) : JS.eqb a b = false <-> a <> b.
Proof. unfold JS.eqb. by rewrite bool_decide_eq_false. Qed.

Lemma filter_all {A} (P : A -> Prop) `{!forall x, Decision (P x)}
    (l : list A) :
  Forall P l -> filter P l = l.
Proof.
  induction 1 as [|x l Hx _ IH]; [done|].
  rewrite filter_cons_True by done. by rewrite IH.
Qed.

Lemma selected_difference i j (sel : gset jsstring) :
  j <> i -> selected (sel ∖ {[ i ]}) j = selected sel j.
Proof.
  intros Hne. unfold selected. apply bool_decide_ext.
  rewrite elem_of_difference, elem_of_singleton. tauto.
Qed.

Lemma imagesToProcess_remove i (imgs : list ImageState)
    (sel : gset jsstring) :
  imagesToProcess
    (filter (fun img => JS.eqb (id img) i = false) imgs) (sel ∖ {[ i ]})
  = filter (fun img => JS.eqb (id img) i = false)
      (imagesToProcess imgs sel).
Proof.
  unfold imagesToProcess.
  induction imgs as [|img imgs IH]; [done|].
  destruct (JS.eqb (id img) i) eqn:Heq.
  - rewrite (filter_cons_False (fun img => JS.eqb (id img) i = false))
      by (by rewrite Heq).
    rewrite IH.
    destruct (selected sel (id img)) eqn:Hsel.
    + rewrite (filter_cons_True (fun img => selected sel (id img) = true))
        by done.
      by rewrite filter_cons_False by (by rewrite Heq).
    + by rewrite (filter_cons_False
                    (fun img => selected sel (id img) = true))
        by (by rewrite Hsel).
  - rewrite (filter_cons_True (fun img => JS.eqb (id img) i = false))
      by done.
    assert (Hne : id img <> i) by (by apply eqb_false_iff).
    destruct (selected sel (id img)) eqn:Hsel.
    + rewrite (filter_cons_True
                 (fun img => selected (sel ∖ {[ i ]}) (id img) = true))
        by (by rewrite selected_difference).
      rewrite (filter_cons_True (fun img => selected sel (id img) = true))
        by done.
      rewrite (filter_cons_True (fun img => JS.eqb (id img) i = false))
        by done.
      by rewrite IH.
    + rewrite (filter_cons_False
                 (fun img => selected (sel ∖ {[ i ]}) (id img) = true))
        by (by rewrite selected_difference, Hsel).
      by rewrite (filter_cons_False
                    (fun img => selected sel (id img) = true))
        by (by rewrite Hsel).
Qed.

(** X13.  Removing an image takes every record with that id out of the batch
    and the id out of the selection, and nothing else: the other
    records stay as they are and in their order, the other ids stay
    selected or not as they were, the work list of the next run is the
    old one without the removed image, and removing an id that is not
    in the batch changes no image. *)
Theorem remove_image_forgets_it i v :
  (i ∉ batchIds (handleRemoveImage i v))
  /\ (i ∉ selectedImageIds (handleRemoveImage i v))
  /\ images (store (handleRemoveImage i v)) `sublist_of` images (store v)
  /\ (forall img,
        img ∈ images (store (handleRemoveImage i v))
        <-> img ∈ images (store v) /\ id img <> i)
  /\ (forall j,
        j ∈ selectedImageIds (handleRemoveImage i v)
        <-> j ∈ selectedImageIds v /\ j <> i)
  /\ imagesToProcess (images (store (handleRemoveImage i v)))
       (selectedImageIds (handleRemoveImage i v))
     = filter (fun img => JS.eqb (id img) i = false)
         (imagesToProcess (images (store v)) (selectedImageIds v))
  /\ (i ∉ batchIds v ->
      images (store (handleRemoveImage i v)) = images (store v))
  /\ isProcessing (store (handleRemoveImage i v)) = isProcessing (store v)
  /\ progress (store (handleRemoveImage i v)) = progress (store v)
  /\ settings (handleRemoveImage i v) = settings v.
Proof.
  assert (Hmem : forall img,
             img ∈ images (store (handleRemoveImage i v))
             <-> img ∈ images (store v) /\ id img <> i).
  { intros img. simpl. rewrite list_elem_of_filter, eqb_false_iff. tauto. }
  split; [|split; [|split; [|split; [|split; [|split; [|split]]]]]].
  - rewrite elem_of_batchIds. intros (img & Hin & Heq).
    apply Hmem in Hin as [_ Hne]. contradiction.
  - simpl. rewrite elem_of_difference, elem_of_singleton. tauto.
  - simpl. apply sublist_filter.
  - exact Hmem.
  - intros j. simpl. rewrite elem_of_difference, elem_of_singleton. tauto.
  - simpl. apply imagesToProcess_remove.
  - intros Hout. simpl.
    assert (Hall : Forall (fun img => JS.eqb (id img) i = false)
                     (images (store v))).
    { apply Forall_forall. intros img Hin. apply eqb_false_iff.
      intros Heq. apply Hout, elem_of_batchIds. by exists img. }
    by apply filter_all.
  - done.
Qed.

Lemma remove_image_forgets_it_examples :
  images (store (handleRemoveImage (lit "c.png") Examples.bothSelected))
  = images (store Examples.bothSelected)
  /\ (lit "b.png"
        ∉ selectedImageIds
            (handleRemoveImage (lit "b.png") Examples.bothSelected))
  /\ imagesToProcess
       (images (store (handleRemoveImage (lit "b.png")
                         Examples.bothSelected)))
       (selectedImageIds
          (handleRemoveImage (lit "b.png") Examples.bothSelected))
     = [Examples.editorImage "a.png"].
Proof.
  destruct (remove_image_forgets_it (lit "c.png") Examples.bothSelected)
    as (_ & _ & _ & _ & _ & _ & Habsent & _).
  destruct (remove_image_forgets_it (lit "b.png") Examples.bothSelected)
    as (_ & Hselection & _ & _ & _ & Hwork & _).
  split; [|split; [exact Hselection|]].
  - apply Habsent. apply (bool_decide_unpack _). vm_compute. exact I.
  - rewrite Hwork. vm_compute. reflexivity.
Defined.

End RemoveImage.
(** ** Loading files into the editor *)

Section LoadFiles.
Import EditorView EditorHandlers EditorInvariants.

Implicit Types (v : View) (files : list Intake).

Lemma intake_readable (f : Intake) :
  readable f ->
  exists url,
    CompressorView.readAsDataURL (file f) = Ok url
    /\ intake f
       = Ok {| id := generatedId f; originalDataUrl := url;
               originalFileName := CompressorView.name (file f);
               originalFileType := CompressorView.type (file f);
               editedUrl := None; isLoading := false; error := None |}.
Proof.
  intros [url Hurl]. exists url. split; [done|].
  unfold intake, fileToDataUrl. by rewrite Hurl.
Qed.

Lemma intake_unreadable (f : Intake) :
  ~ readable f -> exists e, intake f = Thrown e.
Proof.
  intros Hno. unfold intake, fileToDataUrl.
  destruct (CompressorView.readAsDataURL (file f)) as [url|e] eqn:Hread.
  - exfalso. apply Hno. by exists url.
  - by exists e.
Qed.

Lemma promiseAll_unreadable files :
  ~ Forall readable files ->
  exists e, promiseAll (map intake files) = Thrown e.
Proof.
  induction files as [|f files IH]; intros Hno.
  - exfalso. apply Hno. constructor.
  - cbn [map promiseAll].
    destruct (intake f) as [img|e] eqn:Hf; [|by exists e].
    destruct IH as [e He].
    + intros Hall. apply Hno. constructor; [|done].
      unfold intake, fileToDataUrl in Hf.
      destruct (CompressorView.readAsDataURL (file f)) as [url|e] eqn:Hread;
        [by exists url|done].
    + exists e. by rewrite He.
Qed.

(** What a loaded record holds of its file. *)
Lemma promiseAll_readable files :
  Forall readable files ->
  exists newImages,
    promiseAll (map intake files) = Ok newImages
    /\ Forall2
         (fun f img =>
            CompressorView.readAsDataURL (file f) = Ok (originalDataUrl img)
            /\ id img = generatedId f
            /\ originalFileName img = CompressorView.name (file f)
            /\ originalFileType img = CompressorView.type (file f)
            /\ editedUrl img = None /\ isLoading img = false
            /\ error img = None)
         files newImages.
Proof.
  induction 1 as [|f files Hf _ (newImages & Hall & Hrec)].
  - exists []. split; [done|constructor].
  - destruct (intake_readable f Hf) as (url & Hurl & Hin).
    eexists (_ :: newImages). cbn [map promiseAll]. rewrite Hin, Hall.
    split; [reflexivity|]. constructor; [|done]. by repeat split.
Qed.

(** X14.  Loading files into the editor is all or nothing.  If every file
    reads, the batch becomes one fresh record per file, in the order of
    the files, each with the generated id, the data URL read, and the
    name and type of its file, with no result, no error and not loading.
    If any file fails to read, the handler ends with an error after the
    reset: the batch is empty, none of the files that did read is loaded.
    Either way nothing is selected, no run is active, the settings are
    kept, and the run handler of the resulting view does nothing. *)
Theorem load_is_all_or_nothing v files :
  (Forall readable files ->
   exists newImages,
     handleImageSelect v files
     = ({| store := {| images := newImages; isProcessing := false;
                       progress := {| current := 0; total := 0 |} |};
           selectedImageIds := ∅; settings := settings v |}, Ok tt)
     /\ Forall2
          (fun f img =>
             CompressorView.readAsDataURL (file f)
             = Ok (originalDataUrl img)
             /\ id img = generatedId f
             /\ originalFileName img = CompressorView.name (file f)
             /\ originalFileType img = CompressorView.type (file f)
             /\ editedUrl img = None /\ isLoading img = false
             /\ error img = None)
          files newImages)
  /\ (~ Forall readable files ->
      exists e,
        handleImageSelect v files
        = ({| store := {| images := []; isProcessing := false;
                          progress := {| current := 0; total := 0 |} |};
              selectedImageIds := ∅; settings := settings v |}, Thrown e))
  /\ (forall service,
        generateEdits (fst (handleImageSelect v files)) service
        = ([], Ok tt)).
Proof.
  split; [|split].
  - intros Hall.
    destruct (promiseAll_readable files Hall) as (newImages & Hp & Hrec).
    exists newImages. split; [|done].
    unfold handleImageSelect. by rewrite Hp.
  - intros Hno. destruct (promiseAll_unreadable files Hno) as [e He].
    exists e. unfold handleImageSelect. by rewrite He.
  - intros service. unfold generateEdits.
    rewrite handleGenerateEdits_calls.
    assert (Hsel : selectedImageIds (fst (handleImageSelect v files)) = ∅).
    { unfold handleImageSelect. by destruct (promiseAll _). }
    by rewrite Hsel, imagesToProcess_empty_selection.
Qed.

Lemma load_is_all_or_nothing_photo_and_torn :
  (exists newImages,
      handleImageSelect Examples.bothSelected
        [LoadExamples.photoIntake; LoadExamples.scanIntake]
      = ({| store := {| images := newImages; isProcessing := false;
                        progress := {| current := 0; total := 0 |} |};
            selectedImageIds := ∅;
            settings := settings Examples.bothSelected |}, Ok tt)
      /\ length newImages = 2)
  /\ exists e,
       handleImageSelect Examples.bothSelected
         [LoadExamples.photoIntake; LoadExamples.tornIntake]
       = ({| store := {| images := []; isProcessing := false;
                         progress := {| current := 0; total := 0 |} |};
             selectedImageIds := ∅;
             settings := settings Examples.bothSelected |}, Thrown e).
Proof.
  assert (Hphoto : readable LoadExamples.photoIntake).
  { eexists. reflexivity. }
  assert (Hscan : readable LoadExamples.scanIntake).
  { eexists. reflexivity. }
  assert (Htorn : ~ readable LoadExamples.tornIntake).
  { intros [url Hurl]. discriminate Hurl. }
  split.
  - destruct (proj1 (load_is_all_or_nothing Examples.bothSelected
                       [LoadExamples.photoIntake; LoadExamples.scanIntake]))
      as (newImages & Heq & Hrec).
    { by repeat constructor. }
    exists newImages. split; [exact Heq|].
    by rewrite <- (Forall2_length _ _ _ Hrec).
  - apply (proj1 (proj2 (load_is_all_or_nothing Examples.bothSelected
                           [LoadExamples.photoIntake;
                            LoadExamples.tornIntake]))).
    intros Hall. apply Htorn.
    apply Forall_cons in Hall as [_ Hall].
    by apply Forall_cons in Hall as [Hall _].
Defined.

End LoadFiles.
(** ** The archive of edited images *)

Section DownloadAll.
Import GeminiService EditorView EditorHandlers Extensions.

Implicit Types (v : View).





End DownloadAll.
(** ** The compressor's run and its automatic start *)

Section RunEnd.
Context {I : Type} `{WorkItemLaws I}.

Lemma progress_run which fb todo (st : Store I) :
  progress (runFrom st (runCalls which fb todo))
  = {| current := length todo; total := length todo |}.
Proof.
  unfold runCalls. rewrite app_assoc, runFrom_app. simpl.
  rewrite <- (progress_prefix which fb todo st (length todo)) by done.
  unfold runPrefix. by rewrite firstn_all.
Qed.

Lemma rank_all (imgs : list I) k :
  k <= length imgs -> rank (fun _ => true) imgs k = k.
Proof.
  intros Hk. unfold rank.
  rewrite (filter_all (fun img : I => true = true)).
  - by apply length_take_le.
  - by apply Forall_forall.
Qed.

End RunEnd.

Section CompressorOutcome.
Import CompressorView.

Implicit Types (v : View) (services : Services).

Lemma compressor_final_image v service k img :
  NoDup (map id (images (store v))) ->
  isProcessing (store v) = false ->
  images (store v) !! k = Some img ->
  images (store (applyCalls v (compress v service))) !! k
  = Some (settled unexpectedError
            (attempt (outputFormat v) (quality v) (detailLevel v)
               (targetResolution v) service k img)
            (startLoading img)).
Proof.
  intros Hnd Hproc Hk. unfold applyCalls, compress.
  rewrite handleCompress_calls, Hproc, orb_false_r.
  destruct (length (images (store v)) =? 0) eqn:Hlen.
  { apply Nat.eqb_eq, nil_length_inv in Hlen. by rewrite Hlen in Hk. }
  cbn [actions fst withStore store]. rewrite images_run.
  change (NoDup (map itemId (images (store v)))) in Hnd.
  rewrite (prefix_image (fun _ => true)
             (attempt (outputFormat v) (quality v) (detailLevel v)
                (targetResolution v) service) unexpectedError
             (store v) _ k img Hnd Hk).
  assert (Hlt : k < length (images (store v))) by by eapply lookup_lt_Some.
  rewrite rank_all by lia.
  unfold outcomes. rewrite outcomesFrom_length, picked_all.
  apply Nat.ltb_lt in Hlt. by rewrite Hlt.
Qed.

(** X16.  A compression run that starts from a batch with distinct ids and no
    run active returns normally, whatever the reads and the capability
    do.  It works through every image in the order of the batch, with
    the settings of the render it started in: afterwards the image at
    position k holds the outcome of the k-th attempt and of no other,
    on success the result with the error cleared, on failure a
    non-empty message with the result cleared, and is not loading.  A
    file that cannot be read fails its own image only.  The counter ends
    at n of n and the processing flag off. *)
Theorem compress_settles_every_image v service :
  NoDup (map id (images (store v))) ->
  isProcessing (store v) = false ->
  completion (compress v service) = Ok tt
  /\ isProcessing (store (applyCalls v (compress v service))) = false
  /\ (images (store v) <> [] ->
      progress (store (applyCalls v (compress v service)))
      = {| current := length (images (store v));
           total := length (images (store v)) |})
  /\ (forall k img,
        images (store v) !! k = Some img ->
        images (store (applyCalls v (compress v service))) !! k
        = Some
            match attempt (outputFormat v) (quality v) (detailLevel v)
                    (targetResolution v) service k img with
            | Ok url =>
                {| id := id img; originalFile := originalFile img;
                   originalUrl := originalUrl img;
                   compressedUrl := Some url; isLoading := false;
                   error := None |}
            | Thrown e =>
                {| id := id img; originalFile := originalFile img;
                   originalUrl := originalUrl img;
                   compressedUrl := None; isLoading := false;
                   error := Some (orElse (message e) unexpectedError) |}
            end)
  /\ (forall k img url,
        attempt (outputFormat v) (quality v) (detailLevel v)
          (targetResolution v) service k img = Ok url -> url <> [])
  /\ (forall e, orElse (message e) unexpectedError <> [])
  /\ (forall k img e,
        readAsDataURL (originalFile img) = Thrown e ->
        attempt (outputFormat v) (quality v) (detailLevel v)
          (targetResolution v) service k img = Thrown e).
Proof.
  intros Hnd Hproc.
  split; [|split; [|split; [|split; [|split; [|split]]]]].
  - unfold compress. rewrite handleCompress_calls. by destruct (_ || _).
  - unfold applyCalls, compress. rewrite handleCompress_calls, Hproc.
    destruct (_ || _); [done|]. apply isProcessing_run.
  - intros Hne. unfold applyCalls, compress.
    rewrite handleCompress_calls, Hproc, orb_false_r.
    destruct (length (images (store v)) =? 0) eqn:Hlen.
    { apply Nat.eqb_eq, nil_length_inv in Hlen. contradiction. }
    cbn [actions fst withStore store]. rewrite progress_run.
    unfold outcomes. by rewrite outcomesFrom_length, picked_all.
  - intros k img Hk.
    rewrite (compressor_final_image v service k img Hnd Hproc Hk).
    by destruct (attempt _ _ _ _ _ _ _).
  - intros k img url Hat. apply truthy_nonempty.
    by eapply attempt_truthy.
  - intros e. apply truthy_nonempty. by apply orElse_truthy.
  - intros k img e Hread. unfold attempt, fileToBase64. by rewrite Hread.
Qed.

End CompressorOutcome.
Section CompressorOutcomeExamples.
Import CompressorView.

Lemma compress_settles_every_image_second_fails :
  completion (compress Examples.twoLoaded Examples.failsSecond) = Ok tt
  /\ progress
       (store (applyCalls Examples.twoLoaded
                 (compress Examples.twoLoaded Examples.failsSecond)))
     = {| current := 2; total := 2 |}
  /\ stateOf
       <$> images
             (store (applyCalls Examples.twoLoaded
                       (compress Examples.twoLoaded Examples.failsSecond)))
           !! 0
     = Some Succeeded
  /\ error
       <$> images
             (store (applyCalls Examples.twoLoaded
                       (compress Examples.twoLoaded Examples.failsSecond)))
           !! 1
     = Some (Some (lit "quota exceeded")).
Proof.
  assert (Hnd : NoDup (map id (images (store Examples.twoLoaded)))).
  { apply distinct_ids_decided. vm_compute. reflexivity. }
  destruct (compress_settles_every_image Examples.twoLoaded
              Examples.failsSecond Hnd eq_refl)
    as (Hdone & _ & Hprogress & Himg & _).
  split; [exact Hdone|]. split; [by apply Hprogress|]. split.
  - rewrite (Himg 0 _ eq_refl). vm_compute. reflexivity.
  - rewrite (Himg 1 _ eq_refl). vm_compute. reflexivity.
Defined.

End CompressorOutcomeExamples.

Section AutoStartFires.
Import CompressorView.

Implicit Types (v : View) (services : Services).

Lemma settle_fires fuel services r v :
  autoCompressFires v = true ->
  settle (S fuel) services r v
  = (applyCalls v (compress v (services r)), [v]).
Proof.
  intros Hfire.
  destruct (settle_spec (S fuel) services r v) as [Hno|[_ Hyes]]; [|done].
  cbn [settle] in Hno. rewrite Hfire in Hno.
  destruct (settle fuel services (S r) _) as [v'' fired].
  discriminate Hno.
Qed.

Lemma settle_rests fuel services r v :
  autoCompressFires v = false -> settle fuel services r v = (v, []).
Proof.
  intros Hno.
  destruct (settle_spec fuel services r v) as [Heq|[Hfire _]]; [done|].
  congruence.
Qed.

(** X17.  The automatic start, event by event.  Loading files while the
    switch is on starts exactly one run, from the batch as loaded, and
    that run is the whole of what the effect does; with the switch off
    the files are loaded and nothing runs.  Switching it on over a batch
    whose first image has been neither attempted nor started starts
    exactly one run at once; switching it on over any other batch, or
    off, starts nothing. *)
Theorem auto_start_runs_fresh_batch fuel v services :
  (forall files,
      images (store v) = [] -> files <> [] ->
      step (S fuel) v (ImageSelect files, services)
      = if autoCompress v
        then (applyCalls (handleImageSelect v files)
                (compress (handleImageSelect v files) (services 1)),
              [handleImageSelect v files])
        else (handleImageSelect v files, []))
  /\ (images (store v) <> [] -> isProcessing (store v) = false ->
      step (S fuel) v (ToggleAutoCompress, services)
      = if negb (autoCompress v)
           && hasUnprocessedImages (images (store v))
        then (applyCalls (handle ToggleAutoCompress (services 0) v)
                (compress (handle ToggleAutoCompress (services 0) v)
                   (services 1)),
              [handle ToggleAutoCompress (services 0) v])
        else (handle ToggleAutoCompress (services 0) v, []))
  /\ (forall files k f,
        autoCompress v = true -> images (store v) = [] ->
        NoDup (map generatedId files) -> files !! k = Some f ->
        images (store (fst (step (S fuel) v (ImageSelect files, services))))
        !! k
        = Some
            match attempt (outputFormat v) (quality v) (detailLevel v)
                    (targetResolution v) (services 1) k
                    {| id := generatedId f; originalFile := file f;
                       originalUrl := objectUrl f; compressedUrl := None;
                       isLoading := false; error := None |} with
            | Ok url =>
                {| id := generatedId f; originalFile := file f;
                   originalUrl := objectUrl f; compressedUrl := Some url;
                   isLoading := false; error := None |}
            | Thrown e =>
                {| id := generatedId f; originalFile := file f;
                   originalUrl := objectUrl f; compressedUrl := None;
                   isLoading := false;
                   error := Some (orElse (message e) unexpectedError) |}
            end).
Proof.
  assert (Hload : forall files,
             images (store v) = [] -> files <> [] ->
             step (S fuel) v (ImageSelect files, services)
             = if autoCompress v
               then (applyCalls (handleImageSelect v files)
                       (compress (handleImageSelect v files) (services 1)),
                     [handleImageSelect v files])
               else (handleImageSelect v files, [])).
  { intros files Hempty Hfiles. cbn [step available].
    rewrite Hempty. destruct files as [|f files]; [done|].
    cbn [length Nat.eqb Nat.ltb Nat.leb andb handle].
    destruct (autoCompress v) eqn:Hauto.
    + apply settle_fires. unfold autoCompressFires.
      simpl. by rewrite Hauto.
    + apply settle_rests. unfold autoCompressFires.
      simpl. by rewrite Hauto. }
  split; [exact Hload|]. split.
  2: { intros files k f Hauto Hempty Hnd Hk.
       assert (Hfiles : files <> []) by (intros ->; done).
       rewrite (Hload files Hempty Hfiles), Hauto. cbn [fst].
       rewrite (compressor_final_image (handleImageSelect v files)
                  (services 1) k
                  {| id := generatedId f; originalFile := file f;
                     originalUrl := objectUrl f; compressedUrl := None;
                     isLoading := false; error := None |}).
       - cbn [handleImageSelect handleReset withStore outputFormat quality
                detailLevel targetResolution].
         by destruct (attempt _ _ _ _ _ _ _).
       - cbn [handleImageSelect handleReset withStore store images].
         by rewrite map_map.
       - done.
       - cbn [handleImageSelect handleReset withStore store images].
         by rewrite lookup_map, Hk. }
  - intros Hne Hproc. cbn [step available].
    destruct (images (store v)) as [|first rest] eqn:Himgs; [done|].
    rewrite Hproc. cbn [length Nat.ltb Nat.leb andb negb].
    destruct (negb (autoCompress v) && hasUnprocessedImages (first :: rest))
      eqn:Hcond.
    + apply settle_fires. unfold autoCompressFires.
      cbn [handle autoCompress store]. rewrite Hproc, Himgs.
      apply andb_true_iff in Hcond as [-> ->]. done.
    + apply settle_rests. unfold autoCompressFires.
      cbn [handle autoCompress store]. rewrite Hproc, Himgs.
      apply andb_false_iff in Hcond as [->| ->]; [done|].
      apply andb_false_r.
Qed.

Lemma auto_start_runs_fresh_batch_session :
  snd (step 1 mount
         (ImageSelect [Examples.upload "a.png"; Examples.upload "b.png"],
          Examples.everyRun Examples.failsSecond))
  = []
  /\ snd (step 1 Examples.twoLoaded
            (ToggleAutoCompress, Examples.everyRun Examples.failsSecond))
     = [handle ToggleAutoCompress Examples.failsSecond Examples.twoLoaded]
  /\ error
       <$> images
             (store
                (fst (step 1 (handle ToggleAutoCompress Examples.failsSecond
                                mount)
                        (ImageSelect [Examples.upload "a.png";
                                      Examples.upload "b.png"],
                         Examples.everyRun Examples.failsSecond))))
           !! 1
     = Some (Some (lit "quota exceeded")).
Proof.
  split; [|split].
  - rewrite (proj1 (auto_start_runs_fresh_batch 0 mount
                      (Examples.everyRun Examples.failsSecond))
               [Examples.upload "a.png"; Examples.upload "b.png"]
               eq_refl); [reflexivity|discriminate].
  - rewrite (proj1 (proj2 (auto_start_runs_fresh_batch 0 Examples.twoLoaded
                             (Examples.everyRun Examples.failsSecond))));
      [reflexivity|discriminate|reflexivity].
  - rewrite (proj2 (proj2 (auto_start_runs_fresh_batch 0
                             (handle ToggleAutoCompress Examples.failsSecond
                                mount)
                             (Examples.everyRun Examples.failsSecond)))
               [Examples.upload "a.png"; Examples.upload "b.png"] 1
               (Examples.upload "b.png") eq_refl eq_refl);
      [vm_compute; reflexivity| |reflexivity].
    apply distinct_ids_decided. vm_compute. reflexivity.
Defined.

End AutoStartFires.
(** ** The upscaler's run *)

Section UpscalerRun.
Import UpscalerView.

Implicit Types (st : Store ImageState) (calls : list Call).

Lemma upscaler_runFrom_app st calls calls' :
  runFrom st (calls ++ calls') = runFrom (runFrom st calls) calls'.
Proof. apply foldl_app. Qed.

Lemma upscaler_trace_lookup st calls j :
  j < length calls ->
  trace st calls !! j = Some (runFrom st (take (S j) calls)).
Proof.
  revert st j. induction calls as [|c calls IH]; intros st j Hj.
  - simpl in Hj. lia.
  - destruct j as [|j]; [done|].
    cbn [trace]. rewrite lookup_cons. apply IH. simpl in Hj. lia.
Qed.

Lemma runFrom_increments {A} st (l : list A) :
  runFrom st (map (fun _ => IncrementProgress) l)
  = {| images := images st; isProcessing := isProcessing st;
       progress := {| current := current (progress st) + length l;
                      total := total (progress st) |} |}.
Proof.
  revert st. induction l as [|a l IH]; intros st.
  - destruct st as [imgs proc [c t]]. simpl. by rewrite Nat.add_0_r.
  - cbn [map]. change (runFrom st (?c :: ?cs))
      with (runFrom (reduce c st) cs).
    rewrite IH. simpl. do 2 f_equal. lia.
Qed.

Lemma updatedFrom_lookup service i (imgs : list ImageState) k img :
  imgs !! k = Some img ->
  updatedFrom service i imgs !! k = Some (processImage service (i + k) img).
Proof.
  revert i k. induction imgs as [|image imgs IH]; intros i k Hk; [done|].
  destruct k as [|k].
  - injection Hk as ->. cbn [updatedFrom]. by rewrite Nat.add_0_r.
  - cbn [updatedFrom]. rewrite lookup_cons.
    rewrite (IH (i + 1) k Hk). do 2 f_equal. lia.
Qed.

(** X18.  [handleUpscale] does nothing when there is no image or a run is
    active.  Otherwise the run counts 0 of n up to n of n while every
    image is shown loading with the result it had before: no outcome is
    published until all attempts have ended, and then all at once.  In
    the end the image at position k holds the outcome of the k-th
    attempt together with what the record held before the run: a
    success keeps the error of an earlier failure, and a failure keeps
    the result of an earlier success. *)
Theorem upscale_publishes_results_at_once st
    (service : nat -> GeminiService.Capability) :
  (images st = [] \/ isProcessing st = true -> upscale st service = [])
  /\ (images st <> [] -> isProcessing st = false ->
      runFrom st (upscale st service)
      = {| images := updatedFrom service 0 (images st);
           isProcessing := false;
           progress := {| current := length (images st);
                          total := length (images st) |} |}
      /\ (forall j,
            j <= length (images st) ->
            trace st (upscale st service) !! (2 + j)
            = Some
                {| images :=
                     map (fun img =>
                            {| id := id img;
                               originalFile := originalFile img;
                               originalUrl := originalUrl img;
                               upscaledUrl := upscaledUrl img;
                               isLoading := true; error := None |})
                       (images st);
                   isProcessing := true;
                   progress := {| current := j;
                                  total := length (images st) |} |})
      /\ (forall k img,
            images st !! k = Some img ->
            images (runFrom st (upscale st service)) !! k
            = Some
                match attempt service k img with
                | Ok url =>
                    {| id := id img; originalFile := originalFile img;
                       originalUrl := originalUrl img;
                       upscaledUrl := Some url; isLoading := false;
                       error := error img |}
                | Thrown e =>
                    {| id := id img; originalFile := originalFile img;
                       originalUrl := originalUrl img;
                       upscaledUrl := upscaledUrl img; isLoading := false;
                       error := Some (orElse (message e) unexpectedError) |}
                end)).
Proof.
  split.
  - intros [Hnil|Hproc]; unfold upscale, handleUpscale.
    + by rewrite Hnil.
    + by rewrite Hproc, orb_true_r.
  - intros Hne Hproc.
    assert (Hcalls : upscale st service
                     = [SetIsProcessing true;
                        SetProgress {| current := 0;
                                       total := length (images st) |};
                        MarkLoading]
                       ++ map (fun _ => IncrementProgress) (images st)
                       ++ [SetImages (updatedFrom service 0 (images st));
                           SetIsProcessing false]).
    { unfold upscale, handleUpscale. rewrite Hproc, orb_false_r.
      destruct (images st); done. }
    assert (Hend : runFrom st (upscale st service)
                   = {| images := updatedFrom service 0 (images st);
                        isProcessing := false;
                        progress := {| current := length (images st);
                                       total := length (images st) |} |}).
    { rewrite Hcalls, !upscaler_runFrom_app, runFrom_increments.
      reflexivity. }
    split; [exact Hend|]. split.
    + intros j Hj. rewrite upscaler_trace_lookup.
      2: { rewrite Hcalls, !length_app, length_map. simpl. lia. }
      rewrite Hcalls.
      change (take (S (2 + j)) (?a ++ ?b)) with (a ++ take j b).
      rewrite take_app_le by (rewrite length_map; lia).
      change (map ?f ?l) with (f <$> l). rewrite <- fmap_take.
      change (?f <$> ?l) with (map f l).
      rewrite upscaler_runFrom_app, runFrom_increments. simpl.
      by rewrite length_take_le.
    + intros k img Hk. rewrite Hend. cbn [images].
      rewrite (updatedFrom_lookup service 0 (images st) k img Hk).
      unfold processImage. simpl. by destruct (attempt service k img).
Qed.

Lemma upscale_publishes_results_at_once_second_try :
  upscale (runFrom UpscalerExamples.secondTry [SetIsProcessing true])
    Examples.failsSecond
  = []
  /\ images
       (runFrom UpscalerExamples.secondTry
          (upscale UpscalerExamples.secondTry Examples.failsSecond))
     = [ {| id := lit "holiday.photo.jpeg-1-0.25";
            originalFile := ServiceExamples.photo;
            originalUrl := lit "blob:1";
            upscaledUrl := Some (lit "data:image/png;base64,AAAA");
            isLoading := false;
            error := Some (lit "network down") |};
         {| id := lit "scan.webp-3-0.5";
            originalFile := LoadExamples.scan;
            originalUrl := lit "blob:2";
            upscaledUrl := Some (lit "data:image/png;base64,CCCC");
            isLoading := false;
            error := Some (lit "quota exceeded") |} ].
Proof.
  split.
  - apply (proj1 (upscale_publishes_results_at_once _ _)). by right.
  - destruct (proj2 (upscale_publishes_results_at_once
                       UpscalerExamples.secondTry Examples.failsSecond))
      as (Hend & _); [discriminate|reflexivity|].
    rewrite Hend. vm_compute. reflexivity.
Defined.

End UpscalerRun.
(** ** The name of an upscaled download *)

Section UpscaledName.
Import GeminiService GeminiUpscale UpscalerView JSText EditorHandlers.

Lemma extensionOfUrl_png (payload : jsstring) :
  extensionOfUrl (cat [lit "data:"; lit "image/png"; lit ";base64,"; payload])
  = lit "png".
Proof.
  unfold extensionOfUrl.
  set (url := cat [lit "data:"; lit "image/png"; lit ";base64,"; payload]).
  assert (Hslash : indexOf 47 url = 10%Z) by (vm_compute; reflexivity).
  assert (Hsemi : indexOf 59 url = 14%Z) by (vm_compute; reflexivity).
  assert (Hlen : length url = 22 + length payload).
  { unfold url, cat. cbn [concat]. rewrite app_nil_r, !length_app.
    reflexivity. }
  rewrite Hslash, Hsemi. unfold substring. rewrite Hlen.
  rewrite (Z.min_l (10 + 1)) by lia. rewrite (Z.min_l 14) by lia.
  vm_compute. reflexivity.
Qed.

(** X19.  Whatever the capability sent back, and whatever the type of the
    original file, the download of an upscaled image is named with the
    extension [png], after the text of the original name before its
    first dot. *)
Theorem upscaled_download_is_named_png
    (ai : Capability) base64 mime url (file : CompressorView.File) :
  upscaleImageWithGemini ai base64 mime = Ok url ->
  extensionOfUrl url = lit "png"
  /\ upscaledFileName file url
     = cat [stem (CompressorView.name file); lit "_upscaled.png"]
  /\ (forall base rest,
        46%N ∉ base -> CompressorView.name file = base ++ 46%N :: rest ->
        upscaledFileName file url
        = cat [orElse base (lit "image"); lit "_upscaled.png"]).
Proof.
  intros Hurl.
  assert (Hext : extensionOfUrl url = lit "png").
  { unfold upscaleImageWithGemini, extractImage in Hurl.
    destruct (ai _) as [response|e]; [|done].
    destruct (firstCandidateParts response) as [ps|e]; [|done].
    destruct (firstInlineData ps) as [blob|]; [|done].
    injection Hurl as <-. apply extensionOfUrl_png. }
  assert (Hname : upscaledFileName file url
                  = cat [stem (CompressorView.name file);
                         lit "_upscaled.png"]).
  { unfold upscaledFileName. rewrite Hext. unfold cat. cbn [concat].
    f_equal; reflexivity. }
  split; [exact Hext|]. split; [exact Hname|].
  intros base rest Hbase Hfile. rewrite Hname, Hfile.
  by rewrite (proj2 (stem_first_piece base Hbase) rest).
Qed.

Lemma upscaled_download_is_named_png_jpeg_photo :
  extensionOfUrl (lit "data:image/png;base64,AAAA") = lit "png"
  /\ upscaledFileName ServiceExamples.photo
       (lit "data:image/png;base64,AAAA")
     = lit "holiday_upscaled.png".
Proof.
  destruct (upscaled_download_is_named_png
              (ServiceExamples.answering Examples.textThenImages)
              (Some (lit "AAAA")) (lit "image/jpeg")
              (lit "data:image/png;base64,AAAA") ServiceExamples.photo
              eq_refl)
    as (Hext & _ & Hname).
  split; [exact Hext|].
  apply (Hname (lit "holiday") (lit "photo.jpeg")); [|reflexivity].
  vm_compute. intros Hin.
  repeat (apply elem_of_cons in Hin as [Hin|Hin]; [discriminate Hin|]).
  by apply elem_of_nil in Hin.
Defined.

End UpscaledName.

(** ** The upload area *)

Section DropZoneFacts.
Import ImageUpload JSText DropZone.

Implicit Types (f : CompressorView.File) (files : list CompressorView.File).

Lemma startsWith_spec (prefix s : jsstring) :
  startsWith prefix s = true <-> exists rest, s = prefix ++ rest.
Proof.
  revert s. induction prefix as [|p prefix IH]; intros s.
  - simpl. split; [by exists s|done].
  - destruct s as [|c s]; simpl.
    + split; [done|]. by intros [rest Hrest].
    + rewrite andb_true_iff, N.eqb_eq, IH. split.
      * intros [-> [rest ->]]. by exists rest.
      * intros [rest [= -> ->]]. split; [done|]. by exists rest.
Qed.

Lemma imageFile_spec f :
  startsWith (lit "image/") (CompressorView.type f) = true <-> imageFile f.
Proof. apply startsWith_spec. Qed.

(** X20.  A drop passes on only files whose type starts with [image/], in the
    order they were dropped: all of them, or the first of them when the
    area takes a single file; it never passes an empty list, and passes
    nothing exactly when no dropped file is an image.  The file dialog
    passes its files on as they are, whatever their types, and passes
    nothing only when there is none. *)
Theorem drop_passes_images_only (multiple : bool) files :
  (onDrop multiple files = None <-> Forall (fun f => ~ imageFile f) files)
  /\ (forall passed,
        onDrop multiple files = Some passed ->
        passed <> []
        /\ Forall imageFile passed
        /\ passed `sublist_of` files
        /\ exists pre first post,
             files = pre ++ first :: post
             /\ Forall (fun f => ~ imageFile f) pre
             /\ imageFile first
             /\ head passed = Some first
             /\ (multiple = false -> passed = [first])
             /\ (multiple = true ->
                 forall f, f ∈ passed <-> f ∈ files /\ imageFile f))
  /\ (handleFileChange files = None <-> files = [])
  /\ (files <> [] -> handleFileChange files = Some files).
Proof.
  set (isImage := fun f =>
         startsWith (lit "image/") (CompressorView.type f) = true).
  assert (Hfilter : forall f, f ∈ filter isImage files
                              <-> f ∈ files /\ imageFile f).
  { intros f. rewrite list_elem_of_filter. unfold isImage.
    rewrite imageFile_spec. tauto. }
  assert (Hdrop : onDrop multiple files
                  = match filter isImage files with
                    | [] => None
                    | first :: _ =>
                        if multiple then Some (filter isImage files)
                        else Some [first]
                    end).
  { unfold onDrop. destruct files as [|f files]; [done|]. reflexivity. }
  assert (Hsplit : forall first rest,
             filter isImage files = first :: rest ->
             exists pre post,
               files = pre ++ first :: post
               /\ Forall (fun f => ~ imageFile f) pre
               /\ imageFile first).
  { clear Hfilter Hdrop. induction files as [|f files IH];
      intros first rest Heq; [done|].
    destruct (decide (isImage f)) as [Hf|Hf].
    - rewrite filter_cons_True in Heq by done. injection Heq as -> _.
      exists [], files. split; [done|]. split; [constructor|].
      by apply imageFile_spec.
    - rewrite filter_cons_False in Heq by done.
      destruct (IH first rest Heq) as (pre & post & -> & Hpre & Hfirst).
      exists (f :: pre), post. split; [done|]. split; [|done].
      constructor; [|done]. by rewrite <- imageFile_spec. }
  split; [|split; [|split]].
  - rewrite Hdrop. split.
    + destruct (filter isImage files) as [|first rest].
      * intros _. apply Forall_forall. intros f Hin Himg.
        apply (elem_of_nil f), Hfilter. by split.
      * by destruct multiple.
    + intros Hnone.
      destruct (filter isImage files) as [|first rest]; [done|].
      assert (Hf : first ∈ first :: rest) by apply list_elem_of_here.
      apply Hfilter in Hf as [Hin Himg].
      rewrite Forall_forall in Hnone. by destruct (Hnone first Hin).
  - intros passed. rewrite Hdrop.
    assert (Hsub : filter isImage files `sublist_of` files)
      by apply sublist_filter.
    destruct (filter isImage files) as [|first rest]; [done|].
    destruct (Hsplit first rest eq_refl)
      as (pre & post & Hfiles & Hpre & Hfirst).
    assert (Hall : Forall imageFile (first :: rest)).
    { apply Forall_forall. intros f Hf.
      by apply Hfilter in Hf as [_ Himg]. }
    destruct multiple; intros [= <-].
    + split; [done|]. split; [done|]. split; [done|].
      exists pre, first, post.
      split; [done|]. split; [done|]. split; [done|]. split; [done|].
      split; [done|]. intros _ f. apply Hfilter.
    + split; [done|]. split; [by constructor|]. split.
      { etrans; [|exact Hsub]. apply sublist_skip, sublist_nil_l. }
      exists pre, first, post.
      split; [done|]. split; [done|]. split; [done|]. split; [done|].
      split; [done|]. intros Hm. discriminate Hm.
  - unfold handleFileChange. destruct files; split; done.
  - intros Hne. unfold handleFileChange. by destruct files.
Qed.

Lemma drop_passes_images_only_mixed :
  onDrop true [DropZone.notes; ServiceExamples.photo; LoadExamples.scan]
  = Some [ServiceExamples.photo; LoadExamples.scan]
  /\ handleFileChange
       [DropZone.notes; ServiceExamples.photo; LoadExamples.scan]
     = Some [DropZone.notes; ServiceExamples.photo; LoadExamples.scan]
  /\ Forall imageFile [ServiceExamples.photo; LoadExamples.scan].
Proof.
  destruct (drop_passes_images_only true
              [DropZone.notes; ServiceExamples.photo; LoadExamples.scan])
    as (_ & Hpassed & _ & Hdialog).
  split; [reflexivity|]. split; [by apply Hdialog|].
  by apply (Hpassed [ServiceExamples.photo; LoadExamples.scan] eq_refl).
Defined.

End DropZoneFacts.
(** ** Running again *)

Section RankFacts.
Context {I : Type} `{WorkItem I}.

Lemma rank_same_ids which (imgs imgs' : list I) k :
  map itemId imgs = map itemId imgs' ->
  rank which imgs k = rank which imgs' k.
Proof.
  unfold rank. revert imgs' k.
  induction imgs as [|img imgs IH]; intros [|img' imgs'] k Hids;
    try discriminate Hids; [done|].
  injection Hids as Hid Hids. destruct k as [|k]; [done|].
  cbn [take]. destruct (which (itemId img)) eqn:Hw.
  - rewrite !filter_cons_True by congruence. simpl. f_equal. by apply IH.
  - rewrite !filter_cons_False by congruence. by apply IH.
Qed.

End RankFacts.

Section Rerun.
Import EditorView EditorHandlers.

Implicit Types (v : View).

Lemma run_ends_idle v service :
  isProcessing (store v) = false ->
  isProcessing (store (applyCalls v (generateEdits v service))) = false.
Proof.
  intros Hproc. unfold applyCalls, generateEdits.
  rewrite handleGenerateEdits_calls, Hproc.
  destruct (_ || _); [done|]. apply isProcessing_run.
Qed.

(** X21.  A second run replaces what the first left, it does not build on
    it: run after a run with the same selection and settings, it sends
    for each selected image the request it would have sent had the
    first run not taken place, made from the original data, and leaves
    the batch exactly as it would have left it then. *)
Theorem second_run_starts_from_originals v
    (first second : nat -> GeminiService.Capability) :
  NoDup (map id (images (store v))) ->
  isProcessing (store v) = false ->
  (forall k img img',
      images (store v) !! k = Some img ->
      images (store (applyCalls v (generateEdits v first))) !! k
      = Some img' ->
      forall i,
        attempt (settings v) second i img'
        = attempt (settings v) second i img)
  /\ images
       (store
          (applyCalls (applyCalls v (generateEdits v first))
             (generateEdits (applyCalls v (generateEdits v first)) second)))
     = images (store (applyCalls v (generateEdits v second))).
Proof.
  intros Hnd Hproc.
  set (v1 := applyCalls v (generateEdits v first)).
  assert (Hids : map id (images (store v1)) = map id (images (store v)))
    by apply run_keeps_ids.
  assert (Hnd1 : NoDup (map id (images (store v1)))) by by rewrite Hids.
  assert (Hproc1 : isProcessing (store v1) = false)
    by by apply run_ends_idle.
  assert (Hone : forall k img,
             images (store v) !! k = Some img ->
             exists img',
               images (store v1) !! k = Some img'
               /\ id img' = id img
               /\ originalDataUrl img' = originalDataUrl img
               /\ originalFileName img' = originalFileName img
               /\ originalFileType img' = originalFileType img
               /\ (selected (selectedImageIds v) (id img) = false ->
                   img' = img)).
  { intros k img Hk. eexists. split.
    - apply (editor_final_image v first k img Hnd Hproc Hk).
    - destruct (selected (selectedImageIds v) (id img)); [|done].
      by destruct (attempt _ _ _ _). }
  split.
  - intros k img img' Hk Hk' i.
    destruct (Hone k img Hk) as (img1 & Hk1 & _ & Hurl & _ & Htype & _).
    fold v1 in Hk'. rewrite Hk1 in Hk'. injection Hk' as <-.
    unfold attempt. by rewrite Hurl, Htype.
  - apply list_eq. intros k.
    destruct (images (store v) !! k) as [img|] eqn:Hk.
    + destruct (Hone k img Hk)
        as (img1 & Hk1 & Hid & Hurl & Hname & Htype & Hsame).
      cbn [applyCalls store].
      rewrite (editor_final_image v second k img Hnd Hproc Hk).
      change (runFrom (store v1) (actions (generateEdits v1 second)))
        with (store (applyCalls v1 (generateEdits v1 second))).
      cbn [applyCalls store].
      rewrite (editor_final_image v1 second k img1 Hnd1 Hproc1 Hk1).
      f_equal. change (selectedImageIds v1) with (selectedImageIds v).
      change (settings v1) with (settings v). rewrite Hid.
      destruct (selected (selectedImageIds v) (id img)) eqn:Hsel;
        [|by apply Hsame].
      assert (Hrank : rank (selected (selectedImageIds v))
                        (images (store v1)) k
                      = rank (selected (selectedImageIds v))
                          (images (store v)) k).
      { apply rank_same_ids. exact Hids. }
      rewrite Hrank.
      assert (Hat : forall i, attempt (settings v) second i img1
                              = attempt (settings v) second i img).
      { intros i. unfold attempt. by rewrite Hurl, Htype. }
      rewrite Hat.
      assert (Hstart : startLoading img1 = startLoading img).
      { simpl. by rewrite Hid, Hurl, Hname, Htype. }
      by rewrite Hstart.
    + assert (Hlen : length (images (store v)) <= k)
        by by apply lookup_ge_None.
      transitivity (@None ImageState); [|symmetry];
        apply lookup_ge_None; cbn [applyCalls store];
        rewrite images_runFrom, length_map; [|done].
      fold v1. cbn [applyCalls store] in Hids.
      assert (Hl : length (images (store v1)) = length (images (store v))).
      { by rewrite <- (length_map id), Hids, length_map. }
      lia.
Qed.

Lemma second_run_starts_from_originals_retry :
  images
    (store
       (applyCalls RunExamples.afterFailsSecond
          (generateEdits RunExamples.afterFailsSecond
             Examples.alwaysSucceeds)))
  = images
      (store (applyCalls Examples.bothSelected
                (generateEdits Examples.bothSelected
                   Examples.alwaysSucceeds))).
Proof.
  apply (second_run_starts_from_originals Examples.bothSelected
           Examples.failsSecond Examples.alwaysSucceeds);
    [|reflexivity].
  apply distinct_ids_decided. vm_compute. reflexivity.
Defined.

End Rerun.
(** ** What the compressor's output format changes *)

Section CompressorFormat.
Import GeminiService CompressorView CompressorDownloads CompressorDownload.
Import Extensions.

Implicit Types (v : View).

Lemma compress_format_labels_aux (ai : Capability) base64 mime
    (fmt : OutputFormat) q d res :
  (forall e,
      compressImageWithGemini ai base64 mime fmt q d res = Thrown e
      <-> compressImageWithGemini ai base64 mime ImagePng q d res
          = Thrown e)
  /\ (forall url,
        compressImageWithGemini ai base64 mime fmt q d res = Ok url ->
        exists payload,
          url = cat [lit "data:"; showFormat fmt; lit ";base64,"; payload]).
Proof.
  unfold compressImageWithGemini, extractImage.
  destruct (ai _) as [response|err]; [|by split].
  destruct (firstCandidateParts response) as [ps|err]; [|by split].
  destruct (firstInlineData ps) as [blob|]; [|by split].
  split; [done|]. intros url [= <-]. by exists (showOpt (data blob)).
Qed.

(** X22.  The output format chosen in the compressor is no part of the
    request: the capability is asked the same whatever the format, and
    the format only labels the data URL made of its answer.  Two calls
    that differ in the format alone fail alike or return the same data
    under their two labels. *)
Theorem compress_format_only_labels (ai : Capability) base64 mime
    (fmt fmt' : OutputFormat) q d res :
  (forall e,
      compressImageWithGemini ai base64 mime fmt q d res = Thrown e
      <-> compressImageWithGemini ai base64 mime fmt' q d res = Thrown e)
  /\ (forall url,
        compressImageWithGemini ai base64 mime fmt q d res = Ok url ->
        exists payload,
          url = cat [lit "data:"; showFormat fmt; lit ";base64,"; payload]
          /\ compressImageWithGemini ai base64 mime fmt' q d res
             = Ok (cat [lit "data:"; showFormat fmt'; lit ";base64,";
                        payload])).
Proof.
  unfold compressImageWithGemini, extractImage.
  destruct (ai _) as [response|err]; [|by split].
  destruct (firstCandidateParts response) as [ps|err]; [|by split].
  destruct (firstInlineData ps) as [blob|]; [|by split].
  split; [done|]. intros url [= <-]. by exists (showOpt (data blob)).
Qed.

Lemma compress_format_only_labels_png_webp :
  exists payload,
    lit "data:image/png;base64,AAAA"
    = cat [lit "data:"; showFormat ImagePng; lit ";base64,"; payload]
    /\ compressImageWithGemini
         (ServiceExamples.answering Examples.textThenImages)
         (Some (lit "AAAA")) (lit "image/jpeg") ImageWebp 75 75
         (lit "original")
       = Ok (cat [lit "data:"; showFormat ImageWebp; lit ";base64,";
                  payload]).
Proof.
  apply (proj2 (compress_format_only_labels
                  (ServiceExamples.answering Examples.textThenImages)
                  (Some (lit "AAAA")) (lit "image/jpeg") ImagePng ImageWebp
                  75%Z 75%Z (lit "original"))).
  reflexivity.
Defined.

(** X23.  The name of a compressed download is made from the format and the
    quality shown when the download is clicked, not from those the
    image was compressed with: after a run, changing both leaves the
    result as it is, labelled with the format of the run, and the
    download takes the new quality and the extension of the new
    format. *)
Theorem compressed_download_named_after_current_settings v service
    (fmt' : OutputFormat) (q' : number) k img url :
  NoDup (map id (images (store v))) ->
  isProcessing (store v) = false ->
  images (store v) !! k = Some img ->
  attempt (outputFormat v) (quality v) (detailLevel v) (targetResolution v)
    service k img = Ok url ->
  (exists payload,
      url = cat [lit "data:"; showFormat (outputFormat v); lit ";base64,";
                 payload])
  /\ compressedUrl
       <$> images
             (store
                (handle (ChangeQuality q') service
                   (handle (ChangeOutputFormat fmt') service
                      (applyCalls v (compress v service)))))
           !! k
     = Some (Some url)
  /\ handleDownload
       (handle (ChangeQuality q') service
          (handle (ChangeOutputFormat fmt') service
             (applyCalls v (compress v service))))
       url (originalFile img)
     = Ok (Some (cat [EditorHandlers.stem (name (originalFile img));
                      lit "_compressed_q";
                      showZ q'; lit "."; extensionText fmt'],
                 url)).
Proof.
  intros Hnd Hproc Hk Hat. split; [|split].
  - unfold attempt in Hat.
    destruct (fileToBase64 (originalFile img)) as [base64|err]; [|done].
    destruct (proj2 (compress_format_labels_aux _ _ _ _ _ _ _) url Hat)
      as [payload Hp]. by exists payload.
  - cbn [handle store].
    rewrite (compressor_final_image v service k img Hnd Hproc Hk), Hat.
    reflexivity.
  - unfold handleDownload. cbn [handle outputFormat quality].
    assert (Htruthy : truthy url = true) by by eapply attempt_truthy.
    rewrite Htruthy. cbn [negb]. unfold compressedFileName.
    by rewrite extension_text.
Qed.

Lemma compressed_download_named_after_current_settings_jpg :
  handleDownload
    (handle (ChangeQuality 40) Examples.failsSecond
       (handle (ChangeOutputFormat ImageJpeg) Examples.failsSecond
          (applyCalls Examples.twoLoaded
             (compress Examples.twoLoaded Examples.failsSecond))))
    (lit "data:image/png;base64,AAAA")
    (file (Examples.upload "a.png"))
  = Ok (Some (lit "a_compressed_q40.jpg", lit "data:image/png;base64,AAAA")).
Proof.
  assert (Hnd : NoDup (map id (images (store Examples.twoLoaded)))).
  { apply distinct_ids_decided. vm_compute. reflexivity. }
  destruct (compressed_download_named_after_current_settings
              Examples.twoLoaded Examples.failsSecond ImageJpeg 40%Z 0
              {| id := lit "a.png";
                 originalFile := file (Examples.upload "a.png");
                 originalUrl := objectUrl (Examples.upload "a.png");
                 compressedUrl := None; isLoading := false;
                 error := None |}
              (lit "data:image/png;base64,AAAA") Hnd eq_refl eq_refl
              eq_refl)
    as (_ & _ & Hname).
  exact Hname.
Defined.

End CompressorFormat.

(** ** The editor's run button *)

Section RunButton.
Import EditorView EditorHandlers EditorInvariants EditorButton.

Implicit Types (v : View).

Lemma work_list_size v :
  NoDup (map id (images (store v))) ->
  selectionWithinBatch v ->
  length (imagesToProcess (images (store v)) (selectedImageIds v))
  = size (selectedImageIds v).
Proof.
  intros Hnd Hin. unfold imagesToProcess.
  set (todo := filter (fun img => selected (selectedImageIds v) (id img)
                                  = true) (images (store v))).
  assert (Hndt : NoDup (map id todo)).
  { apply (sublist_NoDup _ _ Hnd). apply sublist_map, sublist_filter. }
  assert (Hs : size (list_to_set (map id todo) : gset jsstring)
               = length todo).
  { by rewrite (size_list_to_set _ Hndt), length_map. }
  rewrite <- Hs. f_equal. apply set_eq. intros i. rewrite elem_of_list_to_set.
  change (map id todo) with (id <$> todo). rewrite list_elem_of_fmap.
  split.
  - intros (img & -> & Himg). apply list_elem_of_filter in Himg as [Hsel _].
    unfold selected in Hsel. by apply bool_decide_eq_true in Hsel.
  - intros Hi. pose proof (Hin i Hi) as Hb.
    apply elem_of_batchIds in Hb as (img & Himg & <-).
    exists img. split; [done|]. apply list_elem_of_filter. split; [|done].
    unfold selected. by apply bool_decide_eq_true.
Qed.

(** X24.  With distinct ids and the selection within the batch, the
    number on the run button is the number of images a run works
    through.  The
    button is disabled exactly when [handleGenerateEdits] would return
    at its guard; when it is enabled, its text names the length of the
    work list, and the run it starts first publishes a progress of 0 of
    that number. *)
Theorem button_counts_the_work_list v
    (service : nat -> GeminiService.Capability) :
  NoDup (map id (images (store v))) ->
  selectionWithinBatch v ->
  length (imagesToProcess (images (store v)) (selectedImageIds v))
  = size (selectedImageIds v)
  /\ (runDisabled v = true <-> actions (generateEdits v service) = [])
  /\ (runDisabled v = false ->
      getButtonText v
      = cat [lit "Apply Edits to ";
             showZ (Z.of_nat
                      (length (imagesToProcess (images (store v))
                                 (selectedImageIds v))));
             lit " Selected Image(s)"]
      /\ head (publishedProgress (store v)
                 (actions (generateEdits v service)))
         = Some {| current := 0; total := size (selectedImageIds v) |}).
Proof.
  intros Hnd Hin. pose proof (work_list_size v Hnd Hin) as Hsize.
  split; [exact Hsize|].
  assert (Hguard : (length (imagesToProcess (images (store v))
                              (selectedImageIds v)) =? 0)
                   || isProcessing (store v)
                   = runDisabled v).
  { unfold runDisabled. rewrite Hsize. apply orb_comm. }
  split.
  - unfold generateEdits. rewrite handleGenerateEdits_calls, Hguard.
    destruct (runDisabled v); split; done.
  - intros Hen. split.
    + unfold runDisabled in Hen. apply orb_false_iff in Hen as [Hproc Hz].
      unfold getButtonText. by rewrite Hproc, Hz, Hsize.
    + unfold generateEdits.
      rewrite handleGenerateEdits_calls, Hguard, Hen. cbn [actions fst].
      rewrite publishedProgress_run. cbn [seq map head].
      unfold outcomes. rewrite outcomesFrom_length.
      change (picked (selected (selectedImageIds v)) (images (store v)))
        with (imagesToProcess (images (store v)) (selectedImageIds v)).
      by rewrite Hsize.
Qed.

Lemma button_counts_the_work_list_one_of_three :
  length (imagesToProcess (images (store Examples.secondOfThree))
            (selectedImageIds Examples.secondOfThree))
  = 1
  /\ getButtonText Examples.secondOfThree
     = lit "Apply Edits to 1 Selected Image(s)".
Proof.
  assert (Hnd : NoDup (map id (images (store Examples.secondOfThree)))).
  { apply distinct_ids_decided. vm_compute. reflexivity. }
  assert (Hin : selectionWithinBatch Examples.secondOfThree).
  { unfold selectionWithinBatch. apply (bool_decide_unpack _).
    vm_compute. exact I. }
  destruct (button_counts_the_work_list Examples.secondOfThree
              Examples.alwaysSucceeds Hnd Hin)
    as (Hsize & _ & Htext).
  split.
  - rewrite Hsize. vm_compute. reflexivity.
  - destruct Htext as [Htext _]; [vm_compute; reflexivity|].
    rewrite Htext. vm_compute. reflexivity.
Defined.

End RunButton.
